(** * Coverage notebook: a shallow embedding of the "Calculate Coverage"
    Jupyter notebook and the properties of its coverage pipeline.

    The notebook projects an area of interest (AOI) to UTM, sizes a
    coverage grid, searches a catalog, intersects every item footprint
    with the AOI and burns the overlaps into a [uint16] raster.

    Conventions of the embedding:
    - In the pipeline, Python floats are idealised as exact rationals
      ([Q]) and Python ints are [Z].  The two functions whose result
      depends on how floats round, [_get_utm_zone] and
      [get_coverage_dimensions], are embedded a second time over IEEE
      754 binary64 ([Binary64]), with rounding, infinities and NaN.
    - A raised exception is a value of [pyerr]; a call that may raise
      returns [res A].
    - The global namespace of the kernel is a finite map from names to
      values; reading a name that is not bound raises [NameError].
    - shapely, pyproj, rasterio and the catalog client are external
      libraries: their operations are the fields of an interface
      ([GeoStack], [Catalog]), and what the proofs use of their
      behaviour is stated as laws ([GeoLaws], [ProjectionLaws]). *)

From stdpp Require Import base option list sorting gmap strings.
From Stdlib Require Import ZArith QArith Qround Lqa Lia DecimalString.
From Stdlib Require Import Uint63 Floats.

#[local] Open Scope string_scope.
#[local] Open Scope Z_scope.

(** ** Exceptions and results *)

Inductive pyerr : Type :=
| Exception (msg : string)
| NameError (name : string)
| ZeroDivisionError
| ValueError (msg : string)
| IndexError
| TypeError
| OverflowError (msg : string)
| CollaboratorError (msg : string).

Inductive res (A : Type) : Type :=
| Ok (a : A)
| Raise (e : pyerr).
Arguments Ok {A} a.
Arguments Raise {A} e.

#[global] Instance res_ret : MRet res := fun A a => Ok a.
#[global] Instance res_bind : MBind res := fun A B f m =>
  match m with
  | Ok a => f a
  | Raise e => Raise e
  end.

Definition raised {A} (r : res A) : bool :=
  match r with Ok _ => false | Raise _ => true end.

(** ** Numbers *)

(** [a < b] on floats. *)
Definition Qltb (a b : Q) : bool := negb (Qle_bool b a).

(** [int(x)]: truncation toward zero. *)
Definition py_int (x : Q) : Z := Z.quot (Qnum x) (Z.pos (Qden x)).

(** [a / n] for a float and an int: true division, which raises on a
    zero divisor. *)
Definition py_truediv (a : Q) (n : Z) : res Q :=
  if n =? 0 then Raise ZeroDivisionError else Ok (a / inject_Z n)%Q.

(** ['{}'.format(n)] for an int. *)
Definition format_int (n : Z) : string := NilZero.string_of_int (Z.to_int n).

(** One cell of a [numpy.uint16] array after [+=]: addition wraps
    around modulo 2^16. *)
Definition uint16_add (a b : Z) : Z := (a + b) mod 65536.

(** A two-dimensional array, as the list of its rows. *)
Definition grid : Type := list (list Z).

Definition grid_shape_ok (dimensions : Z * Z) (g : grid) : Prop :=
  length g = Z.to_nat (fst dimensions) /\
  Forall (fun row => length row = Z.to_nat (snd dimensions)) g.

Definition all_cells (P : Z -> Prop) (g : grid) : Prop :=
  Forall (Forall P) g.

(** [np.zeros(dimensions, dtype=np.uint16)]. *)
Definition np_zeros (dimensions : Z * Z) : res grid :=
  let '(rows, cols) := dimensions in
  if (rows <? 0) || (cols <? 0)
  then Raise (ValueError "negative dimensions are not allowed")
  else Ok (replicate (Z.to_nat rows) (replicate (Z.to_nat cols) 0)).

(** [coverage += overlap_raster] on a [uint16] array, cell by cell. *)
Definition np_iadd (coverage raster : grid) : grid :=
  zip_with (zip_with uint16_add) coverage raster.

(** ** The external libraries *)

(** [pyproj.Proj(...)]: a coordinate reference system, named by its
    definition string. *)
Record Proj : Type := { srs : string }.

(** [rasterio.Affine(a, b, c, d, e, f)]. *)
Record Affine : Type :=
  { af_a : Q; af_b : Q; af_c : Q; af_d : Q; af_e : Q; af_f : Q }.

Inductive hemisphere : Type := north | south.

Class GeoStack : Type := {
  (** a GeoJSON geometry (a dict) and a shapely geometry *)
  GeoJSON : Type;
  Geom : Type;
  (** [shapely.geometry.shape] and [shapely.geometry.mapping] *)
  shape : GeoJSON -> Geom;
  mapping : Geom -> GeoJSON;
  (** [g.centroid] as [(x, y)], [g.bounds] as [(minx, miny, maxx, maxy)],
      [g.is_empty], [g.area], [a.disjoint(b)], [a.intersection(b)] *)
  centroid : Geom -> Q * Q;
  bounds : Geom -> Q * Q * Q * Q;
  is_empty : Geom -> bool;
  area : Geom -> Q;
  disjoint : Geom -> Geom -> bool;
  intersection : Geom -> Geom -> Geom;
  (** [shapely.ops.transform(func, g)] *)
  shapely_transform : (Q * Q -> Q * Q) -> Geom -> Geom;
  (** [pyproj.transform(p1, p2, x, y)] *)
  pyproj_transform : Proj -> Proj -> Q * Q -> Q * Q;
  (** [rasterio.features.rasterize(shapes, fill=, default_value=,
      out_shape=, transform=)] *)
  rasterize : list GeoJSON -> Z -> Z -> Z * Z -> Affine -> grid;
}.

(** What the proofs use of the libraries' documented behaviour. *)
Class GeoLaws (L : GeoStack) : Prop := {
  (** the raster has the requested shape *)
  rasterize_shape : forall shapes fill v dims t,
    0 <= fst dims -> 0 <= snd dims ->
    grid_shape_ok dims (rasterize shapes fill v dims t);
  (** every pixel holds the fill value or the burn value *)
  rasterize_values : forall shapes fill v dims t,
    all_cells (fun c => c = fill \/ c = v) (rasterize shapes fill v dims t);
  (** a geometry meets itself in itself *)
  intersection_self_area : forall g, (area (intersection g g) == area g)%Q;
  (** disjoint geometries have an empty intersection *)
  disjoint_intersection : forall a b,
    disjoint a b = true -> is_empty (intersection a b) = true;
}.


(** A catalog item: a dict with at least an identifier and a footprint. *)
Record Item `{GeoStack} : Type := { item_id : string; item_geometry : GeoJSON }.

(** [functools.partial(pyproj.transform, p1, p2)]. *)
Record partial_transform : Type := { p_from : Proj; p_to : Proj }.

Definition call_partial `{GeoStack} (f : partial_transform) : Q * Q -> Q * Q :=
  pyproj_transform (p_from f) (p_to f).

(** ** Values held by the kernel's global namespace *)

(** The search filters built by [planet.data_filter]. *)
#[warnings="-register-all"]
Inductive search_filter `{GeoStack} : Type :=
| GeometryFilter (geom : GeoJSON)
| DateRangeFilter (field : string) (gt lt : Z * Z * Z)
| RangeFilter (field : string) (gt lt : option Q)
| AndFilter (nested : list search_filter).

(** A saved search, as [create_search] returns it. *)
Record search_request `{GeoStack} : Type :=
  { sr_name : string; sr_filter : search_filter; sr_item_types : list string }.

Inductive value `{GeoStack} : Type :=
| VModule (path : string)
| VFunction (name : string)
| VObject (repr : string)
| VStrings (l : list string)
| VGeoJSON (g : GeoJSON)
| VShape (s : Geom)
| VFilter (f : search_filter)
| VRequest (r : search_request)
| VPartial (f : partial_transform)
| VInt (n : Z)
| VDimensions (d : Z * Z)
| VItems (l : list Item)
| VShapes (l : list Geom)
| VGrid (g : grid).

(** Reading a global name. *)
Definition global `{GeoStack} (G : gmap string value) (name : string) : res value :=
  match G !! name with
  | Some v => Ok v
  | None => Raise (NameError name)
  end.

(** ** The notebook's functions *)

Section Functions.
Context `{L : GeoStack}.

(** [_get_utm_zone(geom)] *)
Definition _get_utm_zone (geom : GeoJSON) : res (Z * hemisphere) :=
  let coordinates := shape geom in
  let lon := fst (centroid coordinates) in
  let lat := snd (centroid coordinates) in
  if Qltb 84 lat || Qltb lat (-80)
  then Raise (Exception "UTM Zones only valid within [-80, 84] latitude")
  else
    let zone := py_int ((lon + 180) / 6 + 1)%Q in
    let hemisphere := if Qltb 0 lat then north else south in
    Ok (zone, hemisphere).

(** [_get_utm_projection(geom)] *)
Definition _get_utm_projection (geom : Geom) : Proj :=
  let proj_str := "EPSG:32617" in
  {| srs := proj_str |}.

(** [get_utm_projection_fcn(geom)] *)
Definition get_utm_projection_fcn (geom : Geom) : partial_transform :=
  let proj_fcn :=
    {| p_from := {| srs := "EPSG:4326" |};
       p_to := _get_utm_projection geom |} in
  proj_fcn.

(** [get_coverage_dimensions(aoi_shape_utm)]; the result is the list
    [[rows, cols]], held here as a pair. *)
Definition get_coverage_dimensions (aoi_shape_utm : Geom) : res (Z * Z) :=
  let '(minx, miny, maxx, maxy) := bounds aoi_shape_utm in
  let width := (maxx - minx)%Q in
  let height := (maxy - miny)%Q in
  let min_cell_size := 9 in
  let min_number_of_cells := 3 in
  let max_number_of_cells := 3000 in
  let min_dim := min_cell_size * min_number_of_cells in
  if Qltb height (inject_Z min_dim)
  then Raise (Exception ("AOI height too small, should be "
                         +:+ format_int min_dim +:+ "m."))
  else if Qltb width (inject_Z min_dim)
  then Raise (Exception ("AOI width too small, should be "
                         +:+ format_int min_dim +:+ "m."))
  else
    let _dim (length : Q) : Z :=
      Z.min (py_int (length / inject_Z min_cell_size)%Q) max_number_of_cells in
    Ok (_dim height, _dim width).

(** [get_overlap_shapes_utm(items, aoi_shape)]: a generator, held here
    as the list of the values it yields, in order. *)
Definition get_overlap_shapes_utm (items : list Item) (aoi_shape : Geom)
  : list Geom :=
  let proj_fcn := get_utm_projection_fcn aoi_shape in
  let aoi_shape_utm := shapely_transform (call_partial proj_fcn) aoi_shape in
  let _calculate_overlap (item : Item) : Geom :=
    let footprint_shape := shape (item_geometry item) in
    let footprint_shape_utm :=
      shapely_transform (call_partial proj_fcn) footprint_shape in
    intersection aoi_shape_utm footprint_shape_utm in
  map _calculate_overlap items.

(** The loop of [calculate_coverage] over the overlaps. *)
Fixpoint accumulate (G : gmap string value) (dimensions : Z * Z)
    (transform : Affine) (overlaps : list Geom) (coverage : grid) : res grid :=
  match overlaps with
  | [] => Ok coverage
  | overlap :: rest =>
      if negb (is_empty overlap) then
        _ ← global G "rfeatures";
        _ ← global G "sgeom";
        let overlap_raster :=
          rasterize [mapping overlap] 0 1 dimensions transform in
        accumulate G dimensions transform rest (np_iadd coverage overlap_raster)
      else accumulate G dimensions transform rest coverage
  end.

(** [calculate_coverage(overlaps, dimensions, bounds)], run with the
    global namespace [G]. *)
Definition calculate_coverage (G : gmap string value) (overlaps : list Geom)
    (dimensions : Z * Z) (bounds : Q * Q * Q * Q) : res grid :=
  let '(mminx, mminy, mmaxx, mmaxy) := bounds in
  let '(y_count, x_count) := dimensions in
  width ← py_truediv (mmaxx - mminx) x_count;
  height ← py_truediv (mminy - mmaxy) y_count;
  _ ← global G "rasterio";
  let transform :=
    {| af_a := width; af_b := 0; af_c := mminx;
       af_d := 0; af_e := height; af_f := mmaxy |} in
  _ ← global G "np";
  coverage ← np_zeros dimensions;
  accumulate G dimensions transform overlaps coverage.

End Functions.

(** ** The functions that compute with coordinates, in binary64

    [_get_utm_zone] and [get_coverage_dimensions] add, subtract, divide
    and compare coordinates and truncate the result, so what they return
    depends on how Python's floats round.  Here they are embedded over
    [float], the IEEE 754 binary64 numbers with round-to-nearest-even
    that Python's [float] is; the standard library specifies their
    operations by an executable model ([SpecFloat]), which the proofs
    below reason on.  The int literals of the source take part in float
    arithmetic as [float(n)]; all of them are exact. *)

Module Binary64.

(** [float(n)] for an int below 2^63 in absolute value. *)
Definition float_of_int (n : Z) : float :=
  if n <? 0 then (- of_uint63 (Uint63.of_Z (- n)))%float
  else of_uint63 (Uint63.of_Z n).

(** [int(x)]: truncation toward zero; [int] refuses infinities and NaN. *)
Definition py_int (x : float) : res Z :=
  match Prim2SF x with
  | S754_zero _ => Ok 0
  | S754_infinity _ =>
      Raise (OverflowError "cannot convert float infinity to integer")
  | S754_nan => Raise (ValueError "cannot convert float NaN to integer")
  | S754_finite s m e =>
      let n := Z.shiftl (Z.pos m) e in
      Ok (if s then - n else n)
  end.

Section Functions.
Context {GeoJSON Geom : Type}.
(** [shapely.geometry.shape], [g.centroid] as [(x, y)] and [g.bounds] as
    [(minx, miny, maxx, maxy)], with coordinates as floats *)
Variable shape : GeoJSON -> Geom.
Variable centroid : Geom -> float * float.
Variable bounds : Geom -> float * float * float * float.

(** [_get_utm_zone(geom)] *)
Definition _get_utm_zone (geom : GeoJSON) : res (Z * hemisphere) :=
  let coordinates := shape geom in
  let lon := fst (centroid coordinates) in
  let lat := snd (centroid coordinates) in
  if ((float_of_int 84 <? lat) || (lat <? float_of_int (-80)))%float
  then Raise (Exception "UTM Zones only valid within [-80, 84] latitude")
  else
    zone ← py_int ((lon + float_of_int 180) / float_of_int 6 + float_of_int 1)%float;
    let hemisphere := if (float_of_int 0 <? lat)%float then north else south in
    Ok (zone, hemisphere).

(** [get_coverage_dimensions(aoi_shape_utm)]; the list comprehension
    sizes the height first, then the width. *)
Definition get_coverage_dimensions (aoi_shape_utm : Geom) : res (Z * Z) :=
  let '(minx, miny, maxx, maxy) := bounds aoi_shape_utm in
  let width := (maxx - minx)%float in
  let height := (maxy - miny)%float in
  let min_cell_size := 9 in
  let min_number_of_cells := 3 in
  let max_number_of_cells := 3000 in
  let min_dim := min_cell_size * min_number_of_cells in
  if (height <? float_of_int min_dim)%float
  then Raise (Exception ("AOI height too small, should be "
                         +:+ format_int min_dim +:+ "m."))
  else if (width <? float_of_int min_dim)%float
  then Raise (Exception ("AOI width too small, should be "
                         +:+ format_int min_dim +:+ "m."))
  else
    let _dim (length : float) : res Z :=
      n ← py_int (length / float_of_int min_cell_size)%float;
      Ok (Z.min n max_number_of_cells) in
    rows ← _dim height;
    cols ← _dim width;
    Ok (rows, cols).

End Functions.

(** The two functions on bare coordinates: a centroid given as
    [(lon, lat)] and a shape given by its bounds. *)
Definition zone_of (lon lat : float) : res (Z * hemisphere) :=
  _get_utm_zone (fun g => g) (fun g => g) (lon, lat).

Definition dimensions_of (b : float * float * float * float) : res (Z * Z) :=
  get_coverage_dimensions (fun g => g) b.

End Binary64.

(** ** The catalog client *)

(** The catalog service: the saved-search endpoint and the stream of
    items a search matches.  Both are network calls and may fail. *)
Class Catalog `{GeoStack} : Type := {
  service_create_search :
    string -> search_filter -> list string -> res search_request;
  service_search : string -> search_filter -> list string -> res (list Item);
}.

(** [cl.search(..., limit=limit)]: the client stops after [limit] items;
    a limit of 0 means no maximum. *)
Definition cl_search `{L : GeoStack} `{C : !Catalog} (name : string) (f : search_filter)
    (item_types : list string) (limit : Z) : res (list Item) :=
  items ← service_search name f item_types;
  mret (if limit =? 0 then items else take (Z.to_nat limit) items).

(** ** The kernel: global namespace and what the run shows *)

Inductive event `{GeoStack} : Type :=
| CatalogCall (operation name : string) (f : search_filter)
    (item_types : list string)
| Printed (v : value)
| Displayed (v : value)
| Plotted (coverage : grid).

Record kernel `{GeoStack} : Type :=
  { globals : gmap string value; outputs : list event }.

(** A statement: it may bind names, show output and raise.  What it
    bound before raising stays bound. *)
Definition K `{GeoStack} (A : Type) : Type := kernel -> kernel * res A.

#[global] Instance K_ret `{GeoStack} : MRet K := fun A a k => (k, Ok a).
#[global] Instance K_bind `{GeoStack} : MBind K := fun A B f m k =>
  match m k with
  | (k', Ok a) => f a k'
  | (k', Raise e) => (k', Raise e)
  end.

Section Kernel.
Context `{L : GeoStack} `{C : !Catalog}.

Definition assign (name : string) (v : value) : K unit := fun k =>
  ({| globals := <[name := v]> (globals k); outputs := outputs k |}, Ok tt).

Definition read (name : string) : K value := fun k =>
  (k, global (globals k) name).

Definition namespace : K (gmap string value) := fun k => (k, Ok (globals k)).

Definition emit (ev : event) : K unit := fun k =>
  ({| globals := globals k; outputs := outputs k ++ [ev] |}, Ok tt).

Definition lift {A} (r : res A) : K A := fun k => (k, r).

Definition read_geojson (name : string) : K GeoJSON :=
  v ← read name;
  match v with VGeoJSON g => mret g | _ => lift (Raise TypeError) end.

Definition read_shape (name : string) : K Geom :=
  v ← read name;
  match v with VShape s => mret s | _ => lift (Raise TypeError) end.

Definition read_filter (name : string) : K search_filter :=
  v ← read name;
  match v with VFilter f => mret f | _ => lift (Raise TypeError) end.

Definition read_strings (name : string) : K (list string) :=
  v ← read name;
  match v with VStrings l => mret l | _ => lift (Raise TypeError) end.

Definition read_partial (name : string) : K partial_transform :=
  v ← read name;
  match v with VPartial f => mret f | _ => lift (Raise TypeError) end.

Definition read_dimensions (name : string) : K (Z * Z) :=
  v ← read name;
  match v with VDimensions d => mret d | _ => lift (Raise TypeError) end.

Definition read_items (name : string) : K (list Item) :=
  v ← read name;
  match v with VItems l => mret l | _ => lift (Raise TypeError) end.

Definition read_shapes (name : string) : K (list Geom) :=
  v ← read name;
  match v with VShapes l => mret l | _ => lift (Raise TypeError) end.

(** [import ...]: every name the first cell binds, with its module. *)
Definition notebook_imports : list (string * string) :=
  [ ("print_function", "__future__.print_function");
    ("datetime", "datetime.datetime");
    ("copy", "copy");
    ("partial", "functools.partial");
    ("gpd", "geopandas");
    ("os", "os");
    ("display", "IPython.display.display");
    ("Image", "IPython.display.Image");
    ("matplotlib", "matplotlib");
    ("cm", "matplotlib.cm");
    ("plt", "matplotlib.pyplot");
    ("np", "numpy");
    ("pd", "pandas");
    ("Auth", "planet.Auth");
    ("Session", "planet.Session");
    ("DataClient", "planet.DataClient");
    ("OrdersClient", "planet.OrdersClient");
    ("pyproj", "pyproj");
    ("rasterio", "rasterio");
    ("rfeatures", "rasterio.features");
    ("transform", "shapely.ops.transform");
    ("shape", "shapely.geometry.shape");
    ("shapely", "shapely") ].

Fixpoint import_all (l : list (string * string)) : K unit :=
  match l with
  | [] => mret tt
  | (name, path) :: rest => _ ← assign name (VModule path); import_all rest
  end.

(** [plot_coverage(coverage)]: the figure is the renderer's business;
    the run records the grid it was given. *)
Definition plot_coverage (coverage : grid) : K unit := emit (Plotted coverage).

(** [async with Session() as sess: cl = DataClient(sess)] *)
Definition open_client : K unit :=
  _ ← assign "sess" (VObject "Session");
  assign "cl" (VObject "DataClient").

End Kernel.

(** ** The notebook's code cells, in order *)

Section Notebook.
Context `{L : GeoStack} `{C : !Catalog}.

(** The AOI literal of the second cell (the notebook ships one polygon
    and asks the reader to put their own). *)
Variable test_aoi_geom : GeoJSON.

(** Cell 1: notebook dependencies. *)
Definition cell_imports : K unit := import_all notebook_imports.

(** Cell 2: define the AOI. *)
Definition cell_aoi : K unit :=
  _ ← assign "test_aoi_geom" (VGeoJSON test_aoi_geom);
  g ← read_geojson "test_aoi_geom";
  assign "aoi_shape" (VShape (shape g)).

(** Cell 3: build the filter and create the saved search. *)
Definition cell_request : K unit :=
  _ ← assign "item_type" (VStrings ["PSScene"]);
  _ ← read "data_filter";
  g ← read_geojson "test_aoi_geom";
  _ ← assign "geom_filter" (VFilter (GeometryFilter g));
  _ ← read "data_filter";
  _ ← assign "date_range_filter"
        (VFilter (DateRangeFilter "acquired" (2016, 6, 1) (2016, 10, 1)));
  _ ← read "data_filter";
  _ ← assign "cloud_cover_filter"
        (VFilter (RangeFilter "cloud_cover" None (Some 0.5%Q)));
  _ ← read "data_filter";
  f1 ← read_filter "geom_filter";
  f2 ← read_filter "date_range_filter";
  f3 ← read_filter "cloud_cover_filter";
  _ ← assign "combined_filter" (VFilter (AndFilter [f1; f2; f3]));
  _ ← open_client;
  f ← read_filter "combined_filter";
  t ← read_strings "item_type";
  _ ← emit (CatalogCall "create_search" "calc_coverage_search" f t);
  request ← lift (service_create_search "calc_coverage_search" f t);
  assign "request" (VRequest request).

(** Cell 4: look at the request. *)
Definition cell_show_request : K unit :=
  v ← read "request"; emit (Displayed v).

(** Cell 5: the projection utilities, and the AOI in UTM. *)
Definition cell_project : K unit :=
  _ ← assign "get_utm_projection_fcn" (VFunction "get_utm_projection_fcn");
  _ ← assign "_get_utm_zone" (VFunction "_get_utm_zone");
  _ ← assign "_get_utm_projection" (VFunction "_get_utm_projection");
  s ← read_shape "aoi_shape";
  _ ← assign "proj_fcn" (VPartial (get_utm_projection_fcn s));
  proj_fcn ← read_partial "proj_fcn";
  s ← read_shape "aoi_shape";
  assign "aoi_shape_utm" (VShape (shapely_transform (call_partial proj_fcn) s)).

(** Cell 6: check the AOI and size the grid. *)
Definition cell_dimensions : K unit :=
  _ ← assign "get_coverage_dimensions" (VFunction "get_coverage_dimensions");
  s ← read_shape "aoi_shape_utm";
  d ← lift (get_coverage_dimensions s);
  _ ← assign "dimensions" (VDimensions d);
  v ← read "dimensions";
  emit (Printed v).

(** Cell 7: the API key and the authentication object. *)
Definition cell_auth : K unit :=
  _ ← assign "API_KEY" (VObject "str");
  _ ← assign "client" (VObject "Auth");
  assign "apiAuth" (VObject "tuple").

(** [items = await cl.search(...); item_list = [i async for i in items]]
    for the search called [name] with the filter bound to [filter]. *)
Definition run_search (name filter target : string) : K unit :=
  _ ← open_client;
  f ← read_filter filter;
  t ← read_strings "item_type";
  _ ← emit (CatalogCall "search" name f t);
  items ← lift (cl_search name f t 500);
  _ ← assign "items" (VItems items);
  assign target (VItems items).

(** Cell 8: run the search. *)
Definition cell_search : K unit :=
  run_search "calc_coverage_search" "combined_filter" "item_list".

(** Cell 9: look at the items. *)
Definition cell_show_items : K unit :=
  v ← read "item_list"; emit (Displayed v).

(** [target = list(get_overlap_shapes_utm(items, aoi_shape));
    print(len(target))] *)
Definition cache_overlaps (items target : string) : K unit :=
  l ← read_items items;
  s ← read_shape "aoi_shape";
  _ ← assign target (VShapes (get_overlap_shapes_utm l s));
  o ← read_shapes target;
  emit (Printed (VInt (Z.of_nat (length o)))).

(** Cell 10: the overlap of every item with the AOI. *)
Definition cell_overlaps : K unit :=
  _ ← assign "get_overlap_shapes_utm" (VFunction "get_overlap_shapes_utm");
  cache_overlaps "item_list" "overlaps".

(** Cell 11: look at the first overlap. *)
Definition cell_show_overlap : K unit :=
  o ← read_shapes "overlaps";
  match o with
  | [] => lift (Raise IndexError)
  | first :: _ => emit (Displayed (VShape first))
  end.

(** [calculate_coverage(overlaps, dimensions, aoi_shape_utm.bounds)]
    as a cell calls it: it runs with the globals of the moment. *)
Definition call_calculate_coverage (overlaps : string) (dimensions : Z * Z)
  : K grid :=
  o ← read_shapes overlaps;
  s ← read_shape "aoi_shape_utm";
  G ← namespace;
  lift (calculate_coverage G o dimensions (bounds s)).

(** Cell 12: a low-resolution look at the coverage grid. *)
Definition cell_coverage_lowres : K unit :=
  _ ← assign "calculate_coverage" (VFunction "calculate_coverage");
  coverage ← call_calculate_coverage "overlaps" (6, 3);
  emit (Displayed (VGrid coverage)).

(** [plot_coverage(calculate_coverage(overlaps, dimensions,
    aoi_shape_utm.bounds))] *)
Definition plot_overlaps (overlaps : string) : K unit :=
  d ← read_dimensions "dimensions";
  coverage ← call_calculate_coverage overlaps d;
  plot_coverage coverage.

(** Cell 13: plot the coverage. *)
Definition cell_plot : K unit :=
  _ ← assign "plot_coverage" (VFunction "plot_coverage");
  plot_overlaps "overlaps".

(** Cell 14: the demo AOI. *)
Definition cell_demo_aoi : K unit :=
  g ← read_geojson "test_aoi_geom";
  _ ← assign "demo_aoi" (VGeoJSON g);
  g ← read_geojson "test_aoi_geom";
  _ ← assign "demo_aoi_shape" (VShape (shape g));
  s ← read_shape "demo_aoi_shape";
  _ ← assign "proj_fcn" (VPartial (get_utm_projection_fcn s));
  proj_fcn ← read_partial "proj_fcn";
  s ← read_shape "demo_aoi_shape";
  _ ← assign "demo_aoi_shape_utm"
        (VShape (shapely_transform (call_partial proj_fcn) s));
  s ← read_shape "demo_aoi_shape_utm";
  d ← lift (get_coverage_dimensions s);
  assign "demo_dimensions" (VDimensions d).

(** Cells 15 and 17: the search of one year, and its overlaps. *)
Definition cell_search_year (year : Z) (name filter items overlaps : string)
  : K unit :=
  _ ← read "data_filter";
  _ ← assign "date_range_filter"
        (VFilter (DateRangeFilter "acquired" (year, 6, 1) (year, 8, 1)));
  _ ← read "data_filter";
  f1 ← read_filter "geom_filter";
  f2 ← read_filter "date_range_filter";
  f3 ← read_filter "cloud_cover_filter";
  _ ← assign filter (VFilter (AndFilter [f1; f2; f3]));
  _ ← run_search name filter items;
  cache_overlaps items overlaps.

Definition cell_search_2016 : K unit :=
  cell_search_year 2016 "calc_coverage_search_2016" "combined_filter_2016"
    "item_list_2016" "overlaps_2016".

(** Cell 16. *)
Definition cell_plot_2016 : K unit := plot_overlaps "overlaps_2016".

Definition cell_search_2017 : K unit :=
  cell_search_year 2017 "calc_coverage_search_2017" "combined_filter_2017"
    "item_list_2017" "overlaps_2017".

(** Cell 18. *)
Definition cell_plot_2017 : K unit := plot_overlaps "overlaps_2017".

Definition notebook : list (K unit) :=
  [ cell_imports; cell_aoi; cell_request; cell_show_request; cell_project;
    cell_dimensions; cell_auth; cell_search; cell_show_items; cell_overlaps;
    cell_show_overlap; cell_coverage_lowres; cell_plot; cell_demo_aoi;
    cell_search_2016; cell_plot_2016; cell_search_2017; cell_plot_2017 ].

End Notebook.

(** How a run ended: every cell ran, or cell number [cell] (counted
    from 1) raised and the run stopped there. *)
Inductive outcome : Type :=
| Completed
| Aborted (cell : nat) (e : pyerr).

(** "Run All": the cells run in order and the first exception stops the
    run. *)
Fixpoint run_cells `{L : GeoStack} (cells : list (K unit)) (number : nat) (k : kernel)
  : kernel * outcome :=
  match cells with
  | [] => (k, Completed)
  | c :: rest =>
      match c k with
      | (k', Ok _) => run_cells rest (S number) k'
      | (k', Raise e) => (k', Aborted number e)
      end
  end.

(** One run of the notebook on the AOI [aoi], in a kernel whose
    namespace is [G]; the output area starts empty. *)
Definition run_all `{L : GeoStack} `{C : !Catalog} (aoi : GeoJSON) (G : gmap string value)
  : kernel * outcome :=
  run_cells (notebook aoi) 1 {| globals := G; outputs := [] |}.

(** ** The numbers [plot_coverage] puts on the figure *)

(** [np.median(a)] of the values of an array: the middle one of the
    sorted values, or the mean of the two middle ones when their number
    is even; on an array without values it is [nan], here [None]. *)
Definition np_median (values : list Z) : option Q :=
  let sorted := merge_sort Z.le values in
  let n := length sorted in
  if Nat.eqb n 0 then None
  else if Nat.even n then
    a ← sorted !! (n / 2 - 1)%nat;
    b ← sorted !! (n / 2)%nat;
    Some ((inject_Z a + inject_Z b) / 2)%Q
  else
    inject_Z <$> sorted !! (n / 2)%nat.

(** [int(np.median(coverage))], the number in the title; [int] refuses
    [nan]. *)
Definition title_median (coverage : grid) : res Z :=
  match np_median (concat coverage) with
  | Some m => Ok (py_int m)
  | None => Raise (ValueError "cannot convert float NaN to integer")
  end.

(** [[coverage.min(), coverage.max()]], the ticks of the colour bar;
    both refuse an array without values. *)
Definition colorbar_ticks (coverage : grid) : res (Z * Z) :=
  match concat coverage with
  | [] => Raise (ValueError "zero-size array to reduction operation")
  | x :: rest => Ok (foldl Z.min x rest, foldl Z.max x rest)
  end.

(** ** Notions used to state the properties *)

(** The namespace once the import cell has run in a kernel holding [G]. *)
Definition after_imports `{L : GeoStack} (G : gmap string value) : gmap string value :=
  globals (fst (import_all notebook_imports {| globals := G; outputs := [] |})).

(** The exception the notebook raises on an AOI it refuses. *)
Definition domain_error {A} (r : res A) : Prop :=
  match r with Raise (Exception _) => True | _ => False end.

(** The pixel grid [calculate_coverage] lays over [bounds]. *)
Definition pixel_transform (bounds : Q * Q * Q * Q) (dimensions : Z * Z) : Affine :=
  let '(mminx, mminy, mmaxx, mmaxy) := bounds in
  {| af_a := (mmaxx - mminx) / inject_Z (snd dimensions); af_b := 0; af_c := mminx;
     af_d := 0; af_e := (mminy - mmaxy) / inject_Z (fst dimensions); af_f := mmaxy |}.

(** Cell-by-cell sum of two arrays, without wrap-around. *)
Definition grid_add (a b : grid) : grid := zip_with (zip_with Z.add) a b.

(** Every cell reduced modulo 2^16. *)
Definition grid_mod (a : grid) : grid := map (map (fun c => c mod 65536)) a.

(** The rasters of the non-empty overlaps, in order. *)
Definition overlap_rasters `{GeoStack} (dimensions : Z * Z) (t : Affine)
    (overlaps : list Geom) : list grid :=
  map (fun overlap => rasterize [mapping overlap] 0 1 dimensions t)
      (filter (fun overlap => is_empty overlap = false) overlaps).

(** The count of overlaps per cell as an unbounded integer. *)
Definition exact_coverage `{GeoStack} (dimensions : Z * Z) (t : Affine)
    (overlaps : list Geom) : grid :=
  foldl grid_add
    (replicate (Z.to_nat (fst dimensions)) (replicate (Z.to_nat (snd dimensions)) 0))
    (overlap_rasters dimensions t overlaps).

(** The bindings [l], latest first, made over the namespace [G], and
    the value [l] gives to a name. *)
Definition binds `{GeoStack} (l : list (string * value)) (G : gmap string value)
  : gmap string value :=
  foldr (fun p m => <[p.1 := p.2]> m) G l.

Fixpoint assoc `{GeoStack} (name : string) (l : list (string * value))
  : option value :=
  match l with
  | [] => None
  | (n, v) :: rest => if String.eqb n name then Some v else assoc name rest
  end.

(** The event is a call of the catalog operation [operation]. *)
Definition calls `{GeoStack} (operation : string) (ev : event) : bool :=
  match ev with
  | CatalogCall op _ _ _ => String.eqb op operation
  | _ => false
  end.

(** The coverage grids a run has displayed or plotted, in order. *)
Definition grids_shown `{GeoStack} (evs : list event) : list grid :=
  flat_map (fun ev =>
    match ev with
    | Displayed (VGrid g) => [g]
    | Plotted g => [g]
    | _ => []
    end) evs.

(** The filter the third cell builds for the AOI. *)
Definition first_filter `{GeoStack} (aoi : GeoJSON) : search_filter :=
  AndFilter [ GeometryFilter aoi;
              DateRangeFilter "acquired" (2016, 6, 1) (2016, 10, 1);
              RangeFilter "cloud_cover" None (Some 0.5%Q) ].

(** The filter the demo cells build for June and July of [year]. *)
Definition year_filter `{GeoStack} (aoi : GeoJSON) (year : Z) : search_filter :=
  AndFilter [ GeometryFilter aoi;
              DateRangeFilter "acquired" (year, 6, 1) (year, 8, 1);
              RangeFilter "cloud_cover" None (Some 0.5%Q) ].

(** The AOI in UTM, as the fifth cell computes it. *)
Definition aoi_utm `{GeoStack} (aoi : GeoJSON) : Geom :=
  shapely_transform (call_partial (get_utm_projection_fcn (shape aoi))) (shape aoi).

(** What a run may show when it stops at the size check: the saved
    search and its display, but no item search and no coverage grid. *)
Definition before_search `{GeoStack} (ev : event) : Prop :=
  match ev with
  | CatalogCall operation _ _ _ => operation = "create_search"
  | Displayed (VGrid _) => False
  | Plotted _ => False
  | _ => True
  end.

(** ** Notions used to compare two runs *)

(** Two kernels show the same output and agree on the names in [W]. *)
Definition sim `{L : GeoStack} (W : list string) (k k' : kernel) : Prop :=
  outputs k = outputs k' /\
  forall name, name ∈ W -> globals k !! name = globals k' !! name.

(** A statement that, run in two kernels that agree on [W], ends the
    same way and shows the same output in both, and leaves them in
    agreement on [W'] when it does not raise. *)
Definition respects `{L : GeoStack} {A} (W W' : list string) (c : K A) : Prop :=
  forall k k', sim W k k' ->
    snd (c k) = snd (c k') /\
    outputs (fst (c k)) = outputs (fst (c k')) /\
    (forall a, snd (c k) = Ok a -> sim W' (fst (c k)) (fst (c k'))).

Inductive respects_all `{L : GeoStack} : list string -> list (K unit) -> Prop :=
| respects_nil W : respects_all W []
| respects_cons W W' c cells :
    respects W W' c -> respects_all W' cells -> respects_all W (c :: cells).

(** A statement that leaves the binding of [name] as it found it. *)
Definition untouched `{L : GeoStack} {A} (name : string) (c : K A) : Prop :=
  forall k, globals (fst (c k)) !! name = globals k !! name.

(** ** Notions used to reason about binary64 *)

(** The finite floats are the integer multiples [m * 2^e] of powers of
    two with [m < 2^53] and [-1074 <= e <= 971]: each is a whole number
    of units of [2^-1074], the smallest positive float.  [inf_units] is
    [2^1024], the first power of two above every finite float, and
    stands for the infinities. *)
Definition inf_units : Z := 2 ^ 2098.

Definition SF_units (x : spec_float) : Z :=
  match x with
  | S754_zero _ => 0
  | S754_infinity s => cond_Zopp s inf_units
  | S754_nan => 0
  | S754_finite s m e => cond_Zopp s (Z.pos m * 2 ^ (e + 1074))
  end.

Definition units (x : float) : Z := SF_units (Prim2SF x).

(** A float that is a number: a zero or a finite float. *)
Definition SF_finite (x : spec_float) : bool :=
  match x with
  | S754_zero _ | S754_finite _ _ _ => true
  | _ => false
  end.

Definition finite_float (x : float) : bool := SF_finite (Prim2SF x).

(** The integer nearest to [N / D], the even one on a tie. *)
Definition rne (N D : Z) : Z :=
  let q := N / D in
  match 2 * (N mod D) ?= D with
  | Lt => q
  | Gt => q + 1
  | Eq => if Z.even q then q else q + 1
  end.

(** The float nearest to [P / Q] units, in units, for [0 <= P] and
    [0 < Q]: the quotient keeps 53 significant bits, or the bits above
    one unit when it has fewer, and what reaches [2^1024] is infinite. *)
Definition round_units (P Q : Z) : Z :=
  let t := Z.max (Z.log2 (P / Q) - 52) 0 in
  Z.min (rne P (Q * 2 ^ t) * 2 ^ t) inf_units.

Definition round_signed (P Q : Z) : Z :=
  if P <? 0 then - round_units (- P) Q else round_units P Q.

(** How a mantissa with its round and sticky bits places [N / D]. *)
Definition between (mrs : shr_record) (N D : Z) : Prop :=
  shr_m mrs = N / D /\
  shr_r mrs = (D <=? 2 * (N mod D)) /\
  shr_s mrs = negb ((2 * (N mod D) =? 0) || (2 * (N mod D) =? D)).

(** The integer part of a finite float, rounded down. *)
Definition float_floor (x : float) : Z := units x / 2 ^ 1074.

(** [x] is a finite float between [lo] and [hi]. *)
Definition within (lo x hi : float) : Prop :=
  finite_float x = true /\ units lo <= units x <= units hi.

(** ** A small executable instance of the libraries

    Axis-aligned boxes stand for polygons, a flat map (one degree is
    100 km on both axes) stands for the projection, and a pixel is
    burned when its centre lies in a shape.  The instance serves to run
    the notebook's code on concrete data. *)

Module Box.

Record box : Type := { x0 : Q; y0 : Q; x1 : Q; y1 : Q }.

Definition Qmaxb (a b : Q) : Q := if Qle_bool a b then b else a.
Definition Qminb (a b : Q) : Q := if Qle_bool a b then a else b.

Definition box_is_empty (b : box) : bool :=
  negb (Qltb (x0 b) (x1 b) && Qltb (y0 b) (y1 b)).

Definition box_area (b : box) : Q :=
  if box_is_empty b then 0%Q else ((x1 b - x0 b) * (y1 b - y0 b))%Q.

Definition box_centroid (b : box) : Q * Q :=
  (Qred ((x0 b + x1 b) / 2), Qred ((y0 b + y1 b) / 2)).

Definition box_bounds (b : box) : Q * Q * Q * Q := (x0 b, y0 b, x1 b, y1 b).

Definition box_intersection (a b : box) : box :=
  {| x0 := Qmaxb (x0 a) (x0 b); y0 := Qmaxb (y0 a) (y0 b);
     x1 := Qminb (x1 a) (x1 b); y1 := Qminb (y1 a) (y1 b) |}.

Definition box_disjoint (a b : box) : bool :=
  box_is_empty (box_intersection a b).

Definition box_transform (f : Q * Q -> Q * Q) (b : box) : box :=
  let '(lx, ly) := f (x0 b, y0 b) in
  let '(ux, uy) := f (x1 b, y1 b) in
  {| x0 := lx; y0 := ly; x1 := ux; y1 := uy |}.

Definition flat_transform (p1 p2 : Proj) (xy : Q * Q) : Q * Q :=
  (Qred (fst xy * 100000), Qred (snd xy * 100000)).

Definition box_contains (x y : Q) (b : box) : bool :=
  Qle_bool (x0 b) x && Qle_bool x (x1 b) &&
  Qle_bool (y0 b) y && Qle_bool y (y1 b).

Definition box_rasterize (shapes : list box) (fill v : Z) (dims : Z * Z)
    (t : Affine) : grid :=
  map (fun row =>
    map (fun col =>
      let c := (inject_Z col + (1 # 2))%Q in
      let r := (inject_Z row + (1 # 2))%Q in
      let x := (af_a t * c + af_b t * r + af_c t)%Q in
      let y := (af_d t * c + af_e t * r + af_f t)%Q in
      if existsb (box_contains x y) shapes then v else fill)
      (seqZ 0 (snd dims)))
    (seqZ 0 (fst dims)).

#[global] Instance stack : GeoStack := {|
  GeoJSON := box;
  Geom := box;
  shape := fun g => g;
  mapping := fun g => g;
  centroid := box_centroid;
  bounds := box_bounds;
  is_empty := box_is_empty;
  area := box_area;
  disjoint := box_disjoint;
  intersection := box_intersection;
  shapely_transform := box_transform;
  pyproj_transform := flat_transform;
  rasterize := box_rasterize;
|}.

(** A catalog that answers every search with the same list of items. *)
Definition fixed_catalog (items : list Item) : Catalog := {|
  service_create_search := fun name f t =>
    Ok {| sr_name := name; sr_filter := f; sr_item_types := t |};
  service_search := fun name f t => Ok items;
|}.

(** A kernel started with nothing bound, and kernels in which an
    earlier session left [data_filter], or [data_filter] and [sgeom],
    imported. *)
Definition fresh : gmap string value := ∅.
Definition with_data_filter : gmap string value :=
  {[ "data_filter" := VModule "planet.data_filter" ]}.
Definition with_both : gmap string value :=
  <[ "sgeom" := VModule "shapely.geometry" ]> with_data_filter.

(** Test data: an AOI of 0.2 by 0.2 degrees around Cary, NC; one near
    Paris; one of 10 m by 10 m; one of 27 m by 27 m. *)
Definition cary : box :=
  {| x0 := -78.9; y0 := 35.7; x1 := -78.7; y1 := 35.9 |}.
Definition paris : box :=
  {| x0 := 2.2; y0 := 48.8; x1 := 2.5; y1 := 48.9 |}.
Definition tiny : box :=
  {| x0 := 0; y0 := 0; x1 := 0.0001; y1 := 0.0001 |}.
Definition square27 : box :=
  {| x0 := 0; y0 := 0; x1 := 0.00027; y1 := 0.00027 |}.

(** An AOI at latitude 89, 0.01 degrees on a side. *)
Definition polar : box :=
  {| x0 := 0; y0 := 88.99; x1 := 0.01; y1 := 89 |}.

(** In projected metres: a square of 27 m, its lower half, and a
    square far from it. *)
Definition meadow : box := {| x0 := 0; y0 := 0; x1 := 27; y1 := 27 |}.
Definition lower_half : box := {| x0 := 0; y0 := 0; x1 := 27; y1 := 13 |}.
Definition elsewhere : box := {| x0 := 100; y0 := 100; x1 := 127; y1 := 127 |}.

End Box.

(** * Properties *)

(** ** Numbers *)

Lemma Qltb_lt (a b : Q) : Qltb a b = true <-> (a < b)%Q.
Proof.
  unfold Qltb. rewrite negb_true_iff. split.
  - intros H. apply Qnot_le_lt. intros Hle.
    apply Qle_bool_iff in Hle. congruence.
  - intros H. destruct (Qle_bool b a) eqn:E; [|reflexivity].
    apply Qle_bool_iff in E. exfalso. revert E. apply Qlt_not_le, H.
Qed.

Lemma Qltb_ge (a b : Q) : Qltb a b = false <-> (b <= a)%Q.
Proof.
  unfold Qltb. rewrite negb_false_iff. apply Qle_bool_iff.
Qed.

(** On a non-negative float, [int] is the floor. *)
Lemma py_int_floor (x : Q) : (0 <= x)%Q -> py_int x = Qfloor x.
Proof.
  destruct x as [n d]. unfold py_int, Qfloor, Qle. simpl. intros H.
  apply Z.quot_div_nonneg; lia.
Qed.

Lemma Qfloor_bounds (x : Q) (a b : Z) :
  (inject_Z a <= x)%Q -> (x < inject_Z b)%Q -> a <= Qfloor x < b.
Proof.
  intros Ha Hb. split.
  - rewrite <- (Qfloor_Z a). apply Qfloor_resp_le, Ha.
  - destruct (Z_lt_le_dec (Qfloor x) b) as [|Hge]; [assumption|exfalso].
    assert (inject_Z b <= x)%Q.
    { apply Qle_trans with (inject_Z (Qfloor x)).
      - rewrite <- Zle_Qle. exact Hge.
      - apply Qfloor_le. }
    revert Hb. apply Qle_not_lt. assumption.
Qed.

Lemma uint16_add_range (a b : Z) : 0 <= uint16_add a b < 65536.
Proof. unfold uint16_add. apply Z.mod_pos_bound. lia. Qed.

(** ** Binary64: digits, shifts and rounding *)

Lemma digits2_pos_size (m : positive) : digits2_pos m = Pos.size m.
Proof. induction m; simpl; congruence. Qed.

Lemma Zdigits2_log2 (m : Z) : 0 < m -> Zdigits2 m = Z.log2 m + 1.
Proof.
  destruct m as [|p|p]; try lia. intros _. simpl. rewrite digits2_pos_size.
  destruct p; simpl; lia.
Qed.

Lemma Zdigits2_bounds (m : Z) :
  0 < m -> 2 ^ (Zdigits2 m - 1) <= m < 2 ^ Zdigits2 m.
Proof.
  intros H. rewrite Zdigits2_log2 by assumption.
  replace (Z.log2 m + 1 - 1) with (Z.log2 m) by lia.
  replace (Z.log2 m + 1) with (Z.succ (Z.log2 m)) by lia.
  apply Z.log2_spec, H.
Qed.

Lemma Zdigits2_unique (m d : Z) :
  2 ^ (d - 1) <= m < 2 ^ d -> 0 < m -> Zdigits2 m = d.
Proof.
  intros H Hm. rewrite Zdigits2_log2 by assumption.
  assert (0 < d).
  { destruct (Z_lt_le_dec 0 d); [assumption|].
    destruct (Z.eq_dec d 0) as [->|]; [simpl in H; lia|].
    rewrite (Z.pow_neg_r 2 d) in H by lia. lia. }
  rewrite (Z.log2_unique m (d - 1)); [lia | lia |].
  replace (Z.succ (d - 1)) with d by lia. exact H.
Qed.

Lemma shr_1_spec (m : Z) (r s : bool) :
  0 <= m ->
  shr_1 {| shr_m := m; shr_r := r; shr_s := s |} =
    {| shr_m := m / 2; shr_r := Z.odd m; shr_s := r || s |}.
Proof.
  intros H. rewrite <- Z.div2_div.
  destruct m as [|p|p]; [reflexivity | | lia].
  destruct p; reflexivity.
Qed.

Lemma between_half (mrs : shr_record) (N D : Z) :
  0 <= N -> 0 < D -> between mrs N D -> between (shr_1 mrs) N (D * 2).
Proof.
  intros HN HD (Hm & Hr & Hs). destruct mrs as [m r s].
  cbn [shr_m shr_r shr_s] in Hm, Hr, Hs.
  assert (0 <= m) by (subst m; apply Z.div_pos; lia).
  rewrite shr_1_spec by assumption. unfold between. cbn [shr_m shr_r shr_s].
  assert (Hq : N / (D * 2) = m / 2).
  { subst m. rewrite Z.div_div by lia. reflexivity. }
  assert (Hmod : N mod (D * 2) = N mod D + D * (m mod 2)).
  { subst m. apply Z.rem_mul_r; lia. }
  pose proof (Z.mod_pos_bound N D HD) as Hb.
  rewrite Hq, Hmod, Zmod_odd. split; [reflexivity|].
  subst r s.
  destruct (Z.odd m);
    repeat match goal with
    | |- context [?a <=? ?b] => destruct (Z.leb_spec a b)
    | |- context [?a =? ?b] => destruct (Z.eqb_spec a b)
    end; simpl; try split; try reflexivity; try lia.
Qed.

Lemma between_iter (p : positive) : forall (mrs : shr_record) (N D : Z),
  0 <= N -> 0 < D -> between mrs N D ->
  between (iter_pos shr_1 p mrs) N (D * 2 ^ Z.pos p).
Proof.
  assert (Hpow : forall q : positive, 0 < 2 ^ Z.pos q)
    by (intros q; apply Z.pow_pos_nonneg; lia).
  induction p as [p IH | p IH |]; intros mrs N D HN HD H; simpl iter_pos.
  - apply between_half in H; [|assumption..].
    apply IH in H; [|lia..].
    apply IH in H; [|assumption | pose proof (Hpow p); nia].
    replace (D * 2 ^ Z.pos p~1) with (D * 2 * 2 ^ Z.pos p * 2 ^ Z.pos p); [exact H|].
    replace (Z.pos p~1) with (Z.pos p + Z.pos p + 1) by lia.
    rewrite !Z.pow_add_r by lia. change (2 ^ 1) with 2. ring.
  - apply IH in H; [|assumption..].
    apply IH in H; [|assumption | pose proof (Hpow p); nia].
    replace (D * 2 ^ Z.pos p~0) with (D * 2 ^ Z.pos p * 2 ^ Z.pos p); [exact H|].
    replace (Z.pos p~0) with (Z.pos p + Z.pos p) by lia.
    rewrite Z.pow_add_r by lia. ring.
  - apply between_half in H; assumption.
Qed.

(** [shr] by [n >= 0] places divides the denominator's scale by [2^n]. *)
Lemma between_shr (mrs : shr_record) (e n N D : Z) :
  0 <= N -> 0 < D -> 0 <= n -> between mrs N D ->
  snd (shr mrs e n) = e + n /\ between (fst (shr mrs e n)) N (D * 2 ^ n).
Proof.
  intros HN HD Hn H. unfold shr. destruct n as [|p|p]; simpl; try lia.
  - split; [lia|]. rewrite Z.mul_1_r. exact H.
  - split; [reflexivity|]. apply between_iter; assumption.
Qed.

Lemma between_exact (m : Z) :
  0 <= m -> between (shr_record_of_loc m loc_Exact) m 1.
Proof.
  intros H. unfold between. simpl. rewrite Z.div_1_r, Z.mod_1_r. auto.
Qed.

Lemma rne_between (mrs : shr_record) (N D : Z) :
  0 <= N -> 0 < D -> between mrs N D ->
  round_nearest_even (shr_m mrs) (loc_of_shr_record mrs) = rne N D.
Proof.
  intros HN HD (Hm & Hr & Hs). destruct mrs as [m r s].
  cbn [shr_m shr_r shr_s] in *.
  unfold rne. rewrite <- Hm.
  pose proof (Z.mod_pos_bound N D HD) as Hb.
  subst r s.
  destruct (Z.compare_spec (2 * (N mod D)) D);
    repeat match goal with
    | |- context [?a <=? ?b] => destruct (Z.leb_spec a b)
    | |- context [?a =? ?b] => destruct (Z.eqb_spec a b)
    end; simpl; try reflexivity; try lia.
Qed.

Lemma rne_cases (N D : Z) : rne N D = N / D \/ rne N D = N / D + 1.
Proof.
  unfold rne. destruct (2 * (N mod D) ?= D); auto. destruct (Z.even (N / D)); auto.
Qed.

Lemma rne_exact (a D : Z) : 0 < D -> rne (a * D) D = a.
Proof.
  intros HD. unfold rne. rewrite Z.mod_mul, Z.div_mul by lia.
  destruct (Z.compare_spec (2 * 0) D); lia.
Qed.

Lemma rne_ge (a N D : Z) : 0 < D -> a * D <= N -> a <= rne N D.
Proof.
  intros HD H. assert (a <= N / D) by (apply Z.div_le_lower_bound; lia).
  destruct (rne_cases N D); lia.
Qed.

Lemma rne_le (b N D : Z) : 0 < D -> N <= b * D -> rne N D <= b.
Proof.
  intros HD H. destruct (Z.eq_dec N (b * D)) as [->|Hne].
  - rewrite rne_exact by assumption. lia.
  - assert (N / D < b) by (apply Z.div_lt_upper_bound; lia).
    destruct (rne_cases N D); lia.
Qed.

Lemma rne_mono (N N' D : Z) : 0 < D -> N <= N' -> rne N D <= rne N' D.
Proof.
  intros HD H.
  assert (Hq : N / D <= N' / D) by (apply Z.div_le_mono; lia).
  destruct (Z.eq_dec (N / D) (N' / D)) as [E|E].
  - assert (Hr : N mod D <= N' mod D).
    { rewrite !Z.mod_eq by lia. rewrite E. lia. }
    unfold rne. rewrite E.
    destruct (Z.compare_spec (2 * (N mod D)) D);
      destruct (Z.compare_spec (2 * (N' mod D)) D);
      destruct (Z.even (N' / D)); lia.
  - destruct (rne_cases N D), (rne_cases N' D); lia.
Qed.

Lemma rne_scale (N D k : Z) : 0 < D -> 0 < k -> rne (N * k) (D * k) = rne N D.
Proof.
  intros HD Hk. unfold rne.
  rewrite Z.div_mul_cancel_r by lia.
  rewrite Zmult_mod_distr_r.
  destruct (Z.compare_spec (2 * (N mod D)) D);
    destruct (Z.compare_spec (2 * (N mod D * k)) (D * k)); try reflexivity; nia.
Qed.

Lemma rne_nonneg (N D : Z) : 0 <= N -> 0 < D -> 0 <= rne N D.
Proof. intros. apply (rne_ge 0); lia. Qed.

Lemma pow2_pos (e : Z) : 0 <= e -> 0 < 2 ^ e.
Proof. intros. apply Z.pow_pos_nonneg; lia. Qed.

Lemma div_cross_mono (P Q P' Q' : Z) :
  0 <= P -> 0 < Q -> 0 < Q' -> P * Q' <= P' * Q -> P / Q <= P' / Q'.
Proof.
  intros HP HQ HQ' H. apply Z.div_le_lower_bound; [lia|].
  pose proof (Z.mul_div_le P Q HQ).
  assert (0 <= P / Q) by (apply Z.div_pos; lia). nia.
Qed.

Lemma log2_div_bound (P Q : Z) :
  0 <= P -> 0 < Q -> P < 2 ^ (Z.log2 (P / Q) + 1) * Q.
Proof.
  intros HP HQ.
  assert (Hq : 0 <= P / Q) by (apply Z.div_pos; lia).
  assert (P / Q < 2 ^ (Z.log2 (P / Q) + 1)).
  { destruct (Z.eq_dec (P / Q) 0) as [->|]; [reflexivity|].
    apply Z.log2_spec. lia. }
  pose proof (Z.mod_pos_bound P Q HQ). rewrite (Z.div_mod P Q) at 1 by lia. nia.
Qed.

Lemma round_units_nonneg (P Q : Z) : 0 <= P -> 0 < Q -> 0 <= round_units P Q.
Proof.
  intros HP HQ. unfold round_units.
  set (t := Z.max _ 0). assert (0 < 2 ^ t) by (apply pow2_pos; lia).
  apply Z.min_glb; [|unfold inf_units; apply Z.pow_nonneg; lia].
  apply Z.mul_nonneg_nonneg; [|lia]. apply rne_nonneg; nia.
Qed.

Lemma rne_zero (D : Z) : 0 < D -> rne 0 D = 0.
Proof. intros. apply (rne_exact 0 D). assumption. Qed.

Lemma round_units_zero (Q : Z) : 0 < Q -> round_units 0 Q = 0.
Proof.
  intros HQ. unfold round_units. rewrite Z.div_0_l by lia.
  change (Z.max (Z.log2 0 - 52) 0) with 0. change (2 ^ 0) with 1.
  rewrite rne_zero by lia. apply Z.min_l. unfold inf_units.
  apply Z.pow_nonneg. lia.
Qed.

Lemma round_units_scale (P Q k : Z) :
  0 < Q -> 0 < k -> round_units (P * k) (Q * k) = round_units P Q.
Proof.
  intros HQ Hk. unfold round_units.
  rewrite Z.div_mul_cancel_r by lia.
  set (t := Z.max _ 0). assert (0 < 2 ^ t) by (apply pow2_pos; lia).
  replace (Q * k * 2 ^ t) with (Q * 2 ^ t * k) by ring.
  rewrite rne_scale by nia. reflexivity.
Qed.

Lemma round_units_mono (P Q P' Q' : Z) :
  0 <= P -> 0 < Q -> 0 < Q' -> P * Q' <= P' * Q ->
  round_units P Q <= round_units P' Q'.
Proof.
  intros HP HQ HQ' H.
  assert (HP' : 0 <= P') by nia.
  pose proof (div_cross_mono P Q P' Q' HP HQ HQ' H) as Hq.
  pose proof (Z.log2_le_mono _ _ Hq) as Hl.
  unfold round_units.
  set (L := Z.log2 (P / Q)) in *. set (L' := Z.log2 (P' / Q')) in *.
  set (t := Z.max (L - 52) 0). set (t' := Z.max (L' - 52) 0).
  assert (Ht : 0 < 2 ^ t) by (apply pow2_pos; lia).
  assert (Ht' : 0 < 2 ^ t') by (apply pow2_pos; lia).
  apply Z.min_le_compat_r.
  destruct (Z.eq_dec t t') as [E|E].
  - rewrite <- E. apply Z.mul_le_mono_nonneg_r; [lia|].
    rewrite <- (rne_scale P (Q * 2 ^ t) Q') by nia.
    rewrite <- (rne_scale P' (Q' * 2 ^ t) Q) by nia.
    replace (Q' * 2 ^ t * Q) with (Q * 2 ^ t * Q') by ring.
    apply rne_mono; nia.
  - assert (Hlt : L + 1 <= L') by lia.
    assert (HL : 0 <= L) by apply Z.log2_nonneg.
    apply Z.le_trans with (2 ^ (L + 1)).
    + replace (2 ^ (L + 1)) with (2 ^ (L + 1 - t) * 2 ^ t)
        by (rewrite <- Z.pow_add_r by lia; f_equal; lia).
      apply Z.mul_le_mono_nonneg_r; [lia|]. apply rne_le; [nia|].
      replace (2 ^ (L + 1 - t) * (Q * 2 ^ t)) with (2 ^ (L + 1 - t) * 2 ^ t * Q) by ring.
      rewrite <- Z.pow_add_r by lia. replace (L + 1 - t + t) with (L + 1) by lia.
      pose proof (log2_div_bound P Q HP HQ). fold L in H0. lia.
    + apply Z.le_trans with (2 ^ L').
      { apply Z.pow_le_mono_r; lia. }
      replace (2 ^ L') with (2 ^ 52 * 2 ^ t')
        by (rewrite <- Z.pow_add_r by lia; f_equal; lia).
      apply Z.mul_le_mono_nonneg_r; [lia|]. apply rne_ge; [nia|].
      replace (2 ^ 52 * (Q' * 2 ^ t')) with (2 ^ 52 * 2 ^ t' * Q') by ring.
      rewrite <- Z.pow_add_r by lia. replace (52 + t') with L' by lia.
      assert (0 < P' / Q').
      { destruct (Z.eq_dec (P' / Q') 0) as [E0|]; [|
          assert (0 <= P' / Q') by (apply Z.div_pos; lia); lia].
        unfold L' in Hlt. rewrite E0 in Hlt. simpl in Hlt. lia. }
      pose proof (proj1 (Z.log2_spec (P' / Q') H0)). fold L' in H1.
      pose proof (Z.mul_div_le P' Q' HQ'). nia.
Qed.

Lemma round_signed_mono (P Q P' Q' : Z) :
  0 < Q -> 0 < Q' -> P * Q' <= P' * Q ->
  round_signed P Q <= round_signed P' Q'.
Proof.
  intros HQ HQ' H. unfold round_signed.
  destruct (Z.ltb_spec P 0), (Z.ltb_spec P' 0).
  - apply Z.opp_le_mono. rewrite !Z.opp_involutive.
    apply round_units_mono; lia.
  - pose proof (round_units_nonneg (- P) Q). pose proof (round_units_nonneg P' Q'). lia.
  - nia.
  - apply round_units_mono; lia.
Qed.

(** ** Binary64: the rounding step of the arithmetic operations *)

Lemma fexp_eq (z : Z) : fexp 53 1024 z = Z.max (z - 53) (-1074).
Proof. reflexivity. Qed.

Lemma shr_m_of_loc (m : Z) (l : location) : shr_m (shr_record_of_loc m l) = m.
Proof. destruct l as [|[]]; reflexivity. Qed.

Lemma log2_shift (N D k : Z) :
  0 <= N -> 0 < D -> 0 <= k -> 0 < N / D ->
  Z.log2 (N * 2 ^ k / D) = Z.log2 (N / D) + k.
Proof.
  intros HN HD Hk Hq.
  pose proof (Z.log2_spec (N / D) Hq) as [Hlo Hhi].
  pose proof (Z.log2_nonneg (N / D)) as Ha.
  set (a := Z.log2 (N / D)) in *.
  pose proof (pow2_pos k Hk) as Hk2.
  pose proof (pow2_pos a Ha) as Ha2.
  apply Z.log2_unique; [lia|]. split.
  - apply Z.div_le_lower_bound; [lia|].
    rewrite Z.pow_add_r by lia.
    pose proof (Z.mul_div_le N D HD).
    assert (D * 2 ^ a <= N) by nia.
    replace (D * (2 ^ a * 2 ^ k)) with (D * 2 ^ a * 2 ^ k) by ring.
    apply Z.mul_le_mono_nonneg_r; lia.
  - apply Z.div_lt_upper_bound; [lia|].
    replace (Z.succ (a + k)) with (Z.succ a + k) by lia.
    rewrite Z.pow_add_r by lia.
    assert (N < D * 2 ^ Z.succ a).
    { pose proof (Z.mod_pos_bound N D HD). rewrite (Z.div_mod N D) by lia. nia. }
    replace (D * (2 ^ Z.succ a * 2 ^ k)) with (D * 2 ^ Z.succ a * 2 ^ k) by ring.
    apply Z.mul_lt_mono_pos_r; lia.
Qed.

(** The last step of [binary_round_aux]: a mantissa that reached [2^53]
    is brought back to 53 bits, and the exponent is checked. *)
Lemma round_finish (sx : bool) (m2 et : Z) :
  -1074 <= et ->
  (0 <= m2 <= 2 ^ 52 /\ et = -1074) \/ 2 ^ 52 <= m2 <= 2 ^ 53 ->
  let r :=
    let '(mrs'', e'') := shr_fexp 53 1024 m2 et loc_Exact in
    match shr_m mrs'' with
    | 0 => S754_zero sx
    | Z.pos m =>
        if e'' <=? 1024 - 53 then S754_finite sx m e'' else S754_infinity sx
    | Z.neg _ => S754_nan
    end in
  SF_units r = cond_Zopp sx (Z.min (m2 * 2 ^ (et + 1074)) inf_units) /\
  (r = S754_zero sx \/ (exists m e, r = S754_finite sx m e) \/ r = S754_infinity sx).
Proof.
  intros Het Hm2.
  assert (Hinf : inf_units = 2 ^ 53 * 2 ^ 2045) by reflexivity.
  assert (Hp : 0 < 2 ^ (et + 1074)) by (apply pow2_pos; lia).
  assert (H52 : 2 ^ 53 = 2 * 2 ^ 52) by reflexivity.
  assert (H52p : 0 < 2 ^ 52) by reflexivity.
  destruct (Z.eq_dec m2 0) as [->|Hne].
  { (* the result is a zero *)
    cbv zeta. unfold shr_fexp. cbn [Zdigits2]. rewrite fexp_eq.
    replace (shr _ _ _) with (shr_record_of_loc 0 loc_Exact, et).
    2:{ unfold shr. destruct (Z.max (0 + et - 53) (-1074) - et) eqn:E; try reflexivity. lia. }
    cbn. split; [|auto]. rewrite Z.min_l; [destruct sx; reflexivity|].
    rewrite Hinf. lia. }
  assert (Hpos : 0 < m2) by lia.
  destruct (Z.eq_dec m2 (2 ^ 53)) as [->|Hne53].
  { (* the mantissa carried into a 54th bit *)
    cbv zeta. unfold shr_fexp. change (Zdigits2 (2 ^ 53)) with 54. rewrite fexp_eq.
    replace (Z.max (54 + et - 53) (-1074) - et) with 1 by lia.
    cbn [shr shr_record_of_loc iter_pos]. change (2 ^ 53) with 9007199254740992.
    cbn [shr_1 shr_m].
    change 9007199254740992 with (2 ^ 53).
    assert (Hv : Z.pos 4503599627370496 * 2 ^ (et + 1 + 1074)
                 = 2 ^ 53 * 2 ^ (et + 1074)).
    { replace (et + 1 + 1074) with (1 + (et + 1074)) by lia.
      rewrite Z.pow_add_r by lia. change (2 ^ 1) with 2. lia. }
    destruct (Z.leb_spec (et + 1) (1024 - 53)) as [Hle | Hgt].
    - split; [|right; left; eauto].
      cbn [SF_units]. rewrite Hv.
      rewrite Z.min_l; [reflexivity|]. rewrite Hinf.
      apply Z.mul_le_mono_nonneg_l; [lia|]. apply Z.pow_le_mono_r; lia.
    - split; [|auto]. cbn [SF_units].
      rewrite Z.min_r; [reflexivity|]. rewrite Hinf.
      apply Z.mul_le_mono_nonneg_l; [lia|]. apply Z.pow_le_mono_r; lia. }
  (* the mantissa fits *)
  assert (Hd : Zdigits2 m2 <= 53 /\ (et = -1074 \/ Zdigits2 m2 = 53)).
  { destruct Hm2 as [[Hm ->] | Hm].
    - split; [|auto].
      destruct (Z.eq_dec m2 (2 ^ 52)) as [->|]; [reflexivity|].
      pose proof (Zdigits2_bounds m2 Hpos) as [Hlo _].
      destruct (Z_lt_le_dec 52 (Zdigits2 m2 - 1)) as [Hc|]; [|lia].
      assert (2 ^ 52 <= 2 ^ (Zdigits2 m2 - 1)) by (apply Z.pow_le_mono_r; lia). lia.
    - assert (Zdigits2 m2 = 53); [|lia].
      apply Zdigits2_unique; [|lia]. change (53 - 1) with 52. lia. }
  cbv zeta. unfold shr_fexp. rewrite fexp_eq.
  replace (shr _ _ _) with (shr_record_of_loc m2 loc_Exact, et).
  2:{ unfold shr. destruct (Z.max (Zdigits2 m2 + et - 53) (-1074) - et) eqn:E;
        try reflexivity. lia. }
  cbn [shr_record_of_loc shr_m]. destruct m2 as [|p|p]; try lia.
  destruct (Z.leb_spec et (1024 - 53)) as [Hle | Hgt].
  - split; [|right; left; eauto]. cbn [SF_units].
    rewrite Z.min_l; [reflexivity|]. rewrite Hinf.
    apply Z.le_trans with (2 ^ 53 * 2 ^ (et + 1074)); [nia|].
    apply Z.mul_le_mono_nonneg_l; [lia|]. apply Z.pow_le_mono_r; lia.
  - split; [|auto]. cbn [SF_units].
    rewrite Z.min_r; [reflexivity|]. rewrite Hinf.
    assert (2 ^ 52 <= Z.pos p) by (destruct Hm2; lia).
    replace (2 ^ 53 * 2 ^ 2045) with (2 ^ 52 * 2 ^ 2046) by reflexivity.
    assert (2 ^ 2046 <= 2 ^ (et + 1074)) by (apply Z.pow_le_mono_r; lia).
    assert (0 < 2 ^ 2046) by reflexivity.
    nia.
Qed.

(** [binary_round_aux] rounds the number it is given to the nearest
    float.  The number is [N / D * 2^ex], given by the integer part [mx]
    of [N / D] and the position [lx] of the rest. *)
Lemma binary_round_aux_units (sx : bool) (mx ex : Z) (lx : location) (N D : Z) :
  0 <= N -> 0 < D -> between (shr_record_of_loc mx lx) N D ->
  -1074 <= ex -> ex <= fexp 53 1024 (Zdigits2 mx + ex) ->
  let r := binary_round_aux 53 1024 sx mx ex lx in
  SF_units r = cond_Zopp sx (round_units (N * 2 ^ (ex + 1074)) D) /\
  (r = S754_zero sx \/ (exists m e, r = S754_finite sx m e) \/ r = S754_infinity sx).
Proof.
  intros HN HD Hb Hex Hfexp.
  assert (Hmx : mx = N / D).
  { destruct Hb as [Hm _]. rewrite shr_m_of_loc in Hm. exact Hm. }
  assert (Hmx0 : 0 <= mx) by (subst mx; apply Z.div_pos; lia).
  rewrite fexp_eq in Hfexp.
  set (et := Z.max (Zdigits2 mx + ex - 53) (-1074)) in *.
  set (n := et - ex). set (k := ex + 1074).
  assert (Hn : 0 <= n) by (unfold n; lia).
  assert (Hk : 0 <= k) by (unfold k; lia).
  pose proof (pow2_pos n Hn) as Hn2. pose proof (pow2_pos k Hk) as Hk2.
  destruct (between_shr _ ex n N D HN HD Hn Hb) as [He1 Hb1].
  assert (HDn : 0 < D * 2 ^ n) by nia.
  set (m2 := rne N (D * 2 ^ n)).
  assert (Hr : binary_round_aux 53 1024 sx mx ex lx =
    let '(mrs'', e'') := shr_fexp 53 1024 m2 et loc_Exact in
    match shr_m mrs'' with
    | 0 => S754_zero sx
    | Z.pos m =>
        if e'' <=? 1024 - 53 then S754_finite sx m e'' else S754_infinity sx
    | Z.neg _ => S754_nan
    end).
  { unfold binary_round_aux.
    unfold shr_fexp at 1. rewrite fexp_eq. fold et. fold n.
    destruct (shr (shr_record_of_loc mx lx) ex n) as [mrs1 e1].
    cbn [fst snd] in He1, Hb1.
    rewrite (rne_between mrs1 N (D * 2 ^ n) HN HDn Hb1).
    subst e1. replace (ex + n) with et by (unfold n; lia).
    reflexivity. }
  cbv zeta. rewrite Hr. clear Hr He1 Hb1.
  (* the reference rounding keeps the same bits *)
  assert (Ht : Z.max (Z.log2 (N * 2 ^ k / D) - 52) 0 = et + 1074).
  { destruct (Z.eq_dec mx 0) as [E0|E0].
    - assert (ex = -1074) by (unfold et in Hfexp; rewrite E0 in Hfexp; simpl in Hfexp; lia).
      assert (k = 0) by (unfold k; lia).
      replace (N * 2 ^ k / D) with 0
        by (rewrite H0; change (2 ^ 0) with 1; rewrite Z.mul_1_r; lia).
      unfold et. rewrite E0. simpl. lia.
    - rewrite log2_shift by lia. rewrite <- Hmx.
      unfold et. rewrite Zdigits2_log2 by lia. unfold k. lia. }
  assert (Hm2 : rne (N * 2 ^ k) (D * 2 ^ (et + 1074)) = m2).
  { unfold m2. replace (et + 1074) with (n + k) by (unfold n, k; lia).
    rewrite Z.pow_add_r by lia.
    replace (D * (2 ^ n * 2 ^ k)) with (D * 2 ^ n * 2 ^ k) by ring.
    apply rne_scale; lia. }
  (* the size of the rounded mantissa *)
  assert (Hsize : (0 <= m2 <= 2 ^ 52 /\ et = -1074) \/ 2 ^ 52 <= m2 <= 2 ^ 53).
  { pose proof (Z.mul_div_le N D HD) as Hlo.
    pose proof (Z.mod_pos_bound N D HD) as Hmod.
    assert (Hhi : N < (mx + 1) * D) by (rewrite Hmx, (Z.div_mod N D) at 1 by lia; nia).
    rewrite <- Hmx in Hlo.
    destruct (Z_lt_le_dec (Zdigits2 mx + ex - 53) (-1074)) as [Hsub | Hnorm].
    - left. assert (Eet : et = -1074) by (unfold et; lia).
      assert (n = 0) by (unfold n; lia).
      split; [|exact Eet]. split; [apply rne_nonneg; lia|].
      unfold m2. rewrite H. change (2 ^ 0) with 1. rewrite Z.mul_1_r.
      apply rne_le; [lia|].
      assert (mx + 1 <= 2 ^ 52); [|nia].
      destruct (Z.eq_dec mx 0) as [E0|]; [rewrite E0; lia|].
      pose proof (Zdigits2_bounds mx ltac:(lia)) as [_ Hd].
      assert (2 ^ Zdigits2 mx <= 2 ^ 52) by (apply Z.pow_le_mono_r; lia). lia.
    - right. assert (Eet : et = Zdigits2 mx + ex - 53) by (unfold et; lia).
      assert (En : n = Zdigits2 mx - 53) by (unfold n; lia).
      assert (Hpos : 0 < mx).
      { destruct (Z.eq_dec mx 0) as [E0|]; [|lia]. rewrite E0 in En. simpl in En. lia. }
      pose proof (Zdigits2_bounds mx Hpos) as [Hdl Hdh].
      replace (Zdigits2 mx - 1) with (52 + n) in Hdl by lia.
      replace (Zdigits2 mx) with (53 + n) in Hdh by lia.
      rewrite Z.pow_add_r in Hdl, Hdh by lia.
      split; [apply rne_ge | apply rne_le]; try lia; nia. }
  destruct (round_finish sx m2 et ltac:(lia) Hsize) as [Hu Hkind].
  cbv zeta in Hu, Hkind. split; [|exact Hkind].
  rewrite Hu. unfold round_units. fold k. rewrite Ht, Hm2. reflexivity.
Qed.

(** ** Binary64: the value of a rounded sum and of a rounded quotient *)

Lemma valid_finite (s : bool) (m : positive) (e : Z) :
  valid_binary (S754_finite s m e) = true ->
  e = Z.max (Zdigits2 (Z.pos m) + e - 53) (-1074) /\ e <= 971.
Proof.
  unfold SpecFloat.valid_binary, bounded, canonical_mantissa.
  rewrite andb_true_iff, fexp_eq. intros [H1 H2].
  apply Z.eqb_eq in H1. apply Z.leb_le in H2.
  change (Zdigits2 (Z.pos m)) with (Z.pos (digits2_pos m)).
  change (FloatOps.emax - FloatOps.prec) with 971 in H2. split; [|exact H2].
  symmetry. exact H1.
Qed.

Lemma valid_mantissa (s : bool) (m : positive) (e : Z) :
  valid_binary (S754_finite s m e) = true ->
  Z.pos m < 2 ^ 53 /\ (e = -1074 \/ 2 ^ 52 <= Z.pos m).
Proof.
  intros H. apply valid_finite in H as [He _].
  pose proof (Zdigits2_bounds (Z.pos m) ltac:(lia)) as [Hlo Hhi].
  set (d := Zdigits2 (Z.pos m)) in *.
  split.
  - assert (2 ^ d <= 2 ^ 53) by (apply Z.pow_le_mono_r; lia). lia.
  - destruct (Z.eq_dec e (-1074)); [left; assumption | right].
    replace (d - 1) with 52 in Hlo by lia. exact Hlo.
Qed.

Lemma Zdigits2_shift (m j : Z) :
  0 < m -> 0 <= j -> Zdigits2 (m * 2 ^ j) = Zdigits2 m + j.
Proof.
  intros Hm Hj. pose proof (pow2_pos j Hj).
  rewrite !Zdigits2_log2 by nia. rewrite Z.log2_mul_pow2 by lia. lia.
Qed.

Lemma shl_align_spec (mx : positive) (ex ez : Z) :
  ez <= ex ->
  Z.pos (fst (shl_align mx ex ez)) = Z.pos mx * 2 ^ (ex - ez) /\
  snd (shl_align mx ex ez) = ez.
Proof.
  intros H. unfold shl_align. destruct (ez - ex) as [|d|d] eqn:E; try lia.
  - replace (ex - ez) with 0 by lia. simpl. lia.
  - cbn [fst snd]. split; [|reflexivity].
    replace (ex - ez) with (Z.pos d) by lia.
    change (PosDef.Pos.iter xO mx d) with (shift_pos d mx).
    rewrite shift_pos_correct. rewrite Z.mul_comm. reflexivity.
Qed.

(** A float rounds to itself. *)
Lemma round_units_valid (s : bool) (m : positive) (e : Z) :
  valid_binary (S754_finite s m e) = true ->
  round_units (Z.pos m * 2 ^ (e + 1074)) 1 = Z.pos m * 2 ^ (e + 1074).
Proof.
  intros H. pose proof (valid_mantissa s m e H) as [Hm _].
  apply valid_finite in H as [He Hmax].
  assert (Hk : 0 <= e + 1074) by lia.
  pose proof (pow2_pos _ Hk) as Hk2.
  unfold round_units. rewrite Z.div_1_r, Z.mul_1_l.
  rewrite Z.log2_mul_pow2 by lia.
  rewrite Zdigits2_log2 in He by lia.
  replace (Z.max (e + 1074 + Z.log2 (Z.pos m) - 52) 0) with (e + 1074) by lia.
  rewrite rne_exact by lia. apply Z.min_l.
  change inf_units with (2 ^ 53 * 2 ^ 2045).
  assert (2 ^ (e + 1074) <= 2 ^ 2045) by (apply Z.pow_le_mono_r; lia).
  assert (0 < 2 ^ 2045) by reflexivity. nia.
Qed.

Lemma round_signed_valid (x : spec_float) :
  valid_binary x = true -> SF_finite x = true ->
  round_signed (SF_units x) 1 = SF_units x.
Proof.
  intros Hv Hf. destruct x as [s|s| |s m e]; try discriminate.
  - simpl. unfold round_signed. simpl. apply round_units_zero. lia.
  - cbn [SF_units]. pose proof (round_units_valid s m e Hv) as Hr.
    assert (0 < Z.pos m * 2 ^ (e + 1074)).
    { apply valid_finite in Hv as [He _].
      pose proof (pow2_pos (e + 1074) ltac:(lia)). nia. }
    unfold round_signed. destruct s; cbn [cond_Zopp].
    + destruct (Z.ltb_spec (- (Z.pos m * 2 ^ (e + 1074))) 0); [|lia].
      rewrite Z.opp_involutive, Hr. reflexivity.
    + destruct (Z.ltb_spec (Z.pos m * 2 ^ (e + 1074)) 0); [lia|]. exact Hr.
Qed.

(** A value that is not NaN. *)
Lemma binary_round_units (sx : bool) (mx : positive) (ex : Z) :
  -1074 <= ex ->
  let r := binary_round 53 1024 sx mx ex in
  SF_units r = cond_Zopp sx (round_units (Z.pos mx * 2 ^ (ex + 1074)) 1) /\
  r <> S754_nan.
Proof.
  intros Hex. cbv zeta. unfold binary_round. rewrite fexp_eq.
  change (Z.pos (digits2_pos mx)) with (Zdigits2 (Z.pos mx)).
  set (e' := Z.max (Zdigits2 (Z.pos mx) + ex - 53) (-1074)).
  destruct (Z_lt_le_dec e' ex) as [Hlt | Hge].
  - destruct (shl_align_spec mx ex e' ltac:(lia)) as [Hm He].
    destruct (shl_align mx ex e') as [mz ez]. cbn [fst snd] in Hm, He. subst ez.
    assert (Hd : Zdigits2 (Z.pos mz) + e' = Zdigits2 (Z.pos mx) + ex).
    { rewrite Hm, Zdigits2_shift by lia. lia. }
    destruct (binary_round_aux_units sx (Z.pos mz) e' loc_Exact (Z.pos mz) 1)
      as [Hu Hk]; try lia.
    + apply between_exact. lia.
    + rewrite fexp_eq, Hd. fold e'. lia.
    + cbv zeta in Hu, Hk. split.
      * rewrite Hu. do 2 f_equal. rewrite Hm.
        rewrite <- Z.mul_assoc, <- Z.pow_add_r by lia. do 2 f_equal. lia.
      * destruct Hk as [-> | [(m & e & ->) | ->]]; discriminate.
  - assert (Hs : shl_align mx ex e' = (mx, ex)).
    { unfold shl_align. destruct (e' - ex) eqn:E; try reflexivity. lia. }
    rewrite Hs.
    destruct (binary_round_aux_units sx (Z.pos mx) ex loc_Exact (Z.pos mx) 1)
      as [Hu Hk]; try lia.
    + apply between_exact. lia.
    + rewrite fexp_eq. fold e'. lia.
    + cbv zeta in Hu, Hk. split; [exact Hu|].
      destruct Hk as [-> | [(m & e & ->) | ->]]; discriminate.
Qed.

Lemma binary_normalize_units (M e : Z) :
  -1074 <= e ->
  let r := binary_normalize 53 1024 M e false in
  SF_units r = round_signed (M * 2 ^ (e + 1074)) 1 /\ r <> S754_nan.
Proof.
  intros He. cbv zeta. pose proof (pow2_pos (e + 1074) ltac:(lia)) as Hp.
  unfold binary_normalize, round_signed. destruct M as [|p|p].
  - split; [|discriminate]. simpl. symmetry. apply round_units_zero. lia.
  - destruct (Z.ltb_spec (Z.pos p * 2 ^ (e + 1074)) 0); [nia|].
    apply (binary_round_units false p e He).
  - destruct (Z.ltb_spec (Z.neg p * 2 ^ (e + 1074)) 0); [|nia].
    replace (- (Z.neg p * 2 ^ (e + 1074))) with (Z.pos p * 2 ^ (e + 1074)) by lia.
    apply (binary_round_units true p e He).
Qed.

(** The sum of two floats is the float nearest to the exact sum. *)
Lemma SFadd_units (x y : spec_float) :
  valid_binary x = true -> valid_binary y = true ->
  SF_finite x = true -> SF_finite y = true ->
  SF_units (SFadd 53 1024 x y) = round_signed (SF_units x + SF_units y) 1 /\
  SFadd 53 1024 x y <> S754_nan.
Proof.
  intros Hvx Hvy Hfx Hfy.
  destruct x as [sx|sx| |sx mx ex]; try discriminate;
  destruct y as [sy|sy| |sy my ey]; try discriminate.
  - split; [|destruct sx, sy; discriminate].
    replace (SF_units (SFadd 53 1024 (S754_zero sx) (S754_zero sy))) with 0
      by (destruct sx, sy; reflexivity).
    symmetry. apply (round_signed_valid (S754_zero false)); reflexivity.
  - cbn [SFadd]. split; [|discriminate].
    cbn [SF_units]. rewrite Z.add_0_l.
    symmetry. apply (round_signed_valid (S754_finite sy my ey)); assumption.
  - cbn [SFadd]. split; [|discriminate].
    cbn [SF_units]. rewrite Z.add_0_r.
    symmetry. apply (round_signed_valid (S754_finite sx mx ex)); assumption.
  - cbn [SFadd]. cbv zeta.
    apply valid_finite in Hvx as [Hex _]. apply valid_finite in Hvy as [Hey _].
    change IntDef.Z.min with Z.min.
    set (ez := Z.min ex ey).
    destruct (shl_align_spec mx ex ez ltac:(lia)) as [Hmx _].
    destruct (shl_align_spec my ey ez ltac:(lia)) as [Hmy _].
    destruct (binary_normalize_units
      (cond_Zopp sx (Z.pos (fst (shl_align mx ex ez))) +
       cond_Zopp sy (Z.pos (fst (shl_align my ey ez)))) ez ltac:(lia)) as [Hu Hn].
    cbv zeta in Hu, Hn. split; [|exact Hn].
    rewrite Hu. f_equal. rewrite Hmx, Hmy. cbn [SF_units].
    rewrite Z.mul_add_distr_r.
    assert (Hx : Z.pos mx * 2 ^ (ex - ez) * 2 ^ (ez + 1074) = Z.pos mx * 2 ^ (ex + 1074)).
    { rewrite <- Z.mul_assoc, <- Z.pow_add_r by lia. do 2 f_equal. lia. }
    assert (Hy : Z.pos my * 2 ^ (ey - ez) * 2 ^ (ez + 1074) = Z.pos my * 2 ^ (ey + 1074)).
    { rewrite <- Z.mul_assoc, <- Z.pow_add_r by lia. do 2 f_equal. lia. }
    destruct sx, sy; cbn [cond_Zopp]; lia.
Qed.

Lemma new_location_between (D q r : Z) :
  0 < D -> 0 <= r < D -> 0 <= q ->
  between (shr_record_of_loc q (new_location D r)) (q * D + r) D.
Proof.
  intros HD Hr Hq.
  assert (Hdiv : (q * D + r) / D = q).
  { symmetry. apply (Z.div_unique_pos _ _ q r); lia. }
  assert (Hmod : (q * D + r) mod D = r).
  { symmetry. apply (Z.mod_unique_pos _ _ q r); lia. }
  unfold between. rewrite shr_m_of_loc, Hdiv, Hmod.
  split; [reflexivity|].
  unfold new_location, new_location_even, new_location_odd.
  change IntDef.Z.even with Z.even.
  destruct (Z.even D) eqn:E.
  - destruct (Z.eqb_spec r 0) as [->|Hr0].
    + cbn [shr_record_of_loc shr_r shr_s].
      destruct (Z.leb_spec D (2 * 0)); [lia|]. auto.
    + destruct (Z.compare_spec (2 * r) D); cbn [shr_record_of_loc shr_r shr_s];
        destruct (Z.leb_spec D (2 * r)); destruct (Z.eqb_spec (2 * r) 0);
        destruct (Z.eqb_spec (2 * r) D); try lia; auto.
  - assert (Hodd : 2 * r <> D).
    { intros <-. rewrite Z.even_mul in E. discriminate. }
    destruct (Z.eqb_spec r 0) as [->|Hr0].
    + cbn [shr_record_of_loc shr_r shr_s].
      destruct (Z.leb_spec D (2 * 0)); [lia|]. auto.
    + destruct (Z.compare_spec (2 * r + 1) D); cbn [shr_record_of_loc shr_r shr_s];
        destruct (Z.leb_spec D (2 * r)); destruct (Z.eqb_spec (2 * r) 0);
        destruct (Z.eqb_spec (2 * r) D); try lia; auto.
Qed.

(** The quotient of a float by a positive float below [2^53] is the
    float nearest to the exact quotient. *)
Lemma SFdiv_units (x : spec_float) (my : positive) (ey : Z) :
  valid_binary x = true -> valid_binary (S754_finite false my ey) = true ->
  SF_finite x = true -> ey <= 0 ->
  let y := S754_finite false my ey in
  SF_units (SFdiv 53 1024 x y) = round_signed (SF_units x * 2 ^ 1074) (SF_units y) /\
  SFdiv 53 1024 x y <> S754_nan.
Proof.
  intros Hvx Hvy Hfx Hey0. cbv zeta.
  pose proof (valid_finite _ _ _ Hvy) as [Hey _].
  assert (HQ : 0 < SF_units (S754_finite false my ey)).
  { cbn [SF_units cond_Zopp]. pose proof (pow2_pos (ey + 1074) ltac:(lia)). nia. }
  destruct x as [sx|sx| |sx mx ex]; try discriminate.
  { cbn [SFdiv]. split; [|discriminate]. cbn [SF_units]. rewrite Z.mul_0_l.
    unfold round_signed. simpl (0 <? 0). symmetry. apply round_units_zero.
    cbn [cond_Zopp]. exact HQ. }
  pose proof (valid_finite _ _ _ Hvx) as [Hex _].
  cbn [SFdiv]. unfold SFdiv_core_binary. cbv zeta.
  rewrite fexp_eq. change IntDef.Z.min with Z.min.
  set (d1 := Zdigits2 (Z.pos mx)) in *. set (d2 := Zdigits2 (Z.pos my)) in *.
  set (e' := Z.min (Z.max (d1 + ex - (d2 + ey) - 53) (-1074)) (ex - ey)).
  set (s := ex - ey - e').
  assert (Hs : 0 <= s) by (unfold s, e'; lia).
  pose proof (pow2_pos s Hs) as Hs2.
  set (m' := match s with 0 => Z.pos mx | Z.pos _ => Z.shiftl (Z.pos mx) s | Z.neg _ => 0 end).
  assert (Hm' : m' = Z.pos mx * 2 ^ s).
  { unfold m'. destruct s as [|p|p] eqn:Es; try lia.
    apply Z.shiftl_mul_pow2. lia. }
  change IntDef.Z.div_eucl with Z.div_eucl.
  pose proof (Z.div_eucl_eq m' (Z.pos my) ltac:(lia)) as Hqr.
  pose proof (Z.mod_pos_bound m' (Z.pos my) ltac:(lia)) as Hrb.
  unfold Z.modulo in Hrb.
  assert (Hq0 : 0 <= m' / Z.pos my) by (apply Z.div_pos; lia).
  unfold Z.div in Hq0.
  destruct (Z.div_eucl m' (Z.pos my)) as [q r]. cbn [fst snd] in *.
  assert (Hb : between (shr_record_of_loc q (new_location (Z.pos my) r)) m' (Z.pos my)).
  { rewrite Hqr. rewrite (Z.mul_comm (Z.pos my) q).
    apply new_location_between; lia. }
  pose proof (Zdigits2_bounds (Z.pos mx) ltac:(lia)) as [Hd1 _].
  pose proof (Zdigits2_bounds (Z.pos my) ltac:(lia)) as [_ Hd2].
  fold d1 in Hd1. fold d2 in Hd2.
  assert (Hd1p : 0 < d1) by (unfold d1; simpl; lia).
  assert (Hd2p : 0 < d2) by (unfold d2; simpl; lia).
  assert (Hm'0 : 0 <= m') by nia.
  assert (He'b : -1074 <= e') by (unfold e'; lia).
  destruct (binary_round_aux_units (xorb sx false) q e'
              (new_location (Z.pos my) r) m' (Z.pos my) Hm'0 ltac:(lia) Hb He'b)
    as [Hu Hk].
  { rewrite fexp_eq.
    destruct (Z_le_gt_dec e' (-1074)) as [|Hgt]; [lia|].
    assert (He' : e' <= d1 + ex - (d2 + ey) - 53) by (unfold e'; unfold e' in Hgt; lia).
    assert (Hsd : 53 - d1 + d2 <= s) by (unfold s; lia).
    assert (H52 : 2 ^ 52 <= q).
    { assert (Hlow : 2 ^ (52 + d2) <= m').
      { rewrite Hm'.
        apply Z.le_trans with (2 ^ (d1 - 1) * 2 ^ s); [|nia].
        rewrite <- Z.pow_add_r by lia. apply Z.pow_le_mono_r; lia. }
      rewrite Z.pow_add_r in Hlow by lia.
      assert (0 < 2 ^ 52) by reflexivity.
      destruct (Z_lt_le_dec q (2 ^ 52)) as [Hc|]; [exfalso | assumption].
      nia. }
    assert (53 <= Zdigits2 q).
    { rewrite Zdigits2_log2 by lia.
      pose proof (Z.log2_le_mono _ _ H52) as Hl.
      rewrite Z.log2_pow2 in Hl by lia. lia. }
    lia. }
  cbv zeta in Hu, Hk. rewrite xorb_false_r in Hu, Hk. cbv beta iota.
  rewrite xorb_false_r. split.
  - rewrite Hu.
    assert (Hscale : round_units (m' * 2 ^ (e' + 1074)) (Z.pos my) =
                     round_units (Z.pos mx * 2 ^ (ex + 1074) * 2 ^ 1074)
                                 (Z.pos my * 2 ^ (ey + 1074))).
    { rewrite <- (round_units_scale (m' * 2 ^ (e' + 1074)) (Z.pos my) (2 ^ (ey + 1074)))
        by (try apply pow2_pos; lia).
      f_equal. rewrite Hm'.
      rewrite <- !Z.mul_assoc, <- !Z.pow_add_r by lia.
      do 2 f_equal. unfold s. lia. }
    rewrite Hscale. cbn [SF_units cond_Zopp].
    pose proof (pow2_pos (ex + 1074) ltac:(lia)) as Hp.
    assert (0 < 2 ^ 1074) by (apply pow2_pos; lia).
    unfold round_signed. destruct sx; cbn [cond_Zopp].
    + destruct (Z.ltb_spec (- (Z.pos mx * 2 ^ (ex + 1074)) * 2 ^ 1074) 0); [|nia].
      do 2 f_equal. ring.
    + destruct (Z.ltb_spec (Z.pos mx * 2 ^ (ex + 1074) * 2 ^ 1074) 0); [nia|].
      reflexivity.
  - destruct Hk as [-> | [(m & e & ->) | ->]]; discriminate.
Qed.

(** ** Binary64: order and truncation *)

Lemma valid_units_pos (s : bool) (m : positive) (e : Z) :
  valid_binary (S754_finite s m e) = true ->
  0 < Z.pos m * 2 ^ (e + 1074) < inf_units.
Proof.
  intros H. pose proof (valid_mantissa s m e H) as [Hm _].
  apply valid_finite in H as [He Hmax].
  pose proof (pow2_pos (e + 1074) ltac:(lia)) as Hp.
  split; [nia|]. change inf_units with (2 ^ 53 * 2 ^ 2045).
  assert (2 ^ (e + 1074) <= 2 ^ 2045) by (apply Z.pow_le_mono_r; lia).
  assert (0 < 2 ^ 2045) by reflexivity. nia.
Qed.

Lemma valid_exp_lt (s1 s2 : bool) (m1 m2 : positive) (e1 e2 : Z) :
  valid_binary (S754_finite s1 m1 e1) = true ->
  valid_binary (S754_finite s2 m2 e2) = true ->
  e1 < e2 ->
  Z.pos m1 * 2 ^ (e1 + 1074) < Z.pos m2 * 2 ^ (e2 + 1074).
Proof.
  intros H1 H2 Hlt.
  pose proof (valid_mantissa _ _ _ H1) as [Hm1 _].
  pose proof (valid_mantissa _ _ _ H2) as [_ Hm2].
  apply valid_finite in H1 as [He1 _]. apply valid_finite in H2 as [He2 _].
  destruct Hm2 as [|Hm2]; [lia|].
  pose proof (pow2_pos (e1 + 1074) ltac:(lia)) as Hp1.
  assert (Hp : 2 * 2 ^ (e1 + 1074) <= 2 ^ (e2 + 1074)).
  { replace (2 * 2 ^ (e1 + 1074)) with (2 ^ (1 + (e1 + 1074)))
      by (rewrite Z.pow_add_r by lia; reflexivity).
    apply Z.pow_le_mono_r; lia. }
  assert (H53 : 2 ^ 53 = 2 * 2 ^ 52) by reflexivity.
  assert (0 < 2 ^ 52) by reflexivity. nia.
Qed.

(** Floats that are not NaN compare as their values do. *)
Lemma SFcompare_units (x y : spec_float) :
  valid_binary x = true -> valid_binary y = true ->
  x <> S754_nan -> y <> S754_nan ->
  SFcompare x y = Some (SF_units x ?= SF_units y).
Proof.
  intros Hx Hy Hnx Hny.
  assert (Hinf : 0 < inf_units) by reflexivity.
  destruct x as [sx|sx| |sx mx ex]; try congruence;
  destruct y as [sy|sy| |sy my ey]; try congruence;
  try pose proof (valid_units_pos _ _ _ Hx) as Hpx;
  try pose proof (valid_units_pos _ _ _ Hy) as Hpy;
  cbn [SFcompare SF_units]; f_equal; symmetry;
  try (destruct sx); try (destruct sy); cbn [cond_Zopp];
  try (apply Z.compare_eq_iff; lia);
  try (apply Z.compare_lt_iff; lia);
  try (apply Z.compare_gt_iff; lia).
  - (* both negative *)
    destruct (Z.compare_spec ex ey) as [E|E|E].
    + subst ey. rewrite Z.compare_opp.
      rewrite <- Zmult_compare_compat_r
        by (apply Z.lt_gt, pow2_pos; apply valid_finite in Hx; lia).
      rewrite Pos.compare_cont_spec.
      change (Z.pos my ?= Z.pos mx) with (my ?= mx)%positive.
      rewrite (Pos.compare_antisym mx my).
      destruct (mx ?= my)%positive; reflexivity.
    + pose proof (valid_exp_lt _ _ _ _ _ _ Hx Hy E).
      apply Z.compare_gt_iff. lia.
    + pose proof (valid_exp_lt _ _ _ _ _ _ Hy Hx E).
      apply Z.compare_lt_iff. lia.
  - (* both positive *)
    destruct (Z.compare_spec ex ey) as [E|E|E].
    + subst ey.
      rewrite <- Zmult_compare_compat_r
        by (apply Z.lt_gt, pow2_pos; apply valid_finite in Hx; lia).
      rewrite Pos.compare_cont_spec.
      change (Z.pos mx ?= Z.pos my) with (mx ?= my)%positive.
      destruct (mx ?= my)%positive; reflexivity.
    + pose proof (valid_exp_lt _ _ _ _ _ _ Hx Hy E).
      apply Z.compare_lt_iff. lia.
    + pose proof (valid_exp_lt _ _ _ _ _ _ Hy Hx E).
      apply Z.compare_gt_iff. lia.
Qed.

Lemma SFleb_units (x y : spec_float) :
  valid_binary x = true -> valid_binary y = true ->
  x <> S754_nan -> y <> S754_nan ->
  SFleb x y = (SF_units x <=? SF_units y).
Proof.
  intros. unfold SFleb, Z.leb. rewrite SFcompare_units by assumption.
  destruct (SF_units x ?= SF_units y); reflexivity.
Qed.

Lemma SFltb_units (x y : spec_float) :
  valid_binary x = true -> valid_binary y = true ->
  x <> S754_nan -> y <> S754_nan ->
  SFltb x y = (SF_units x <? SF_units y).
Proof.
  intros. unfold SFltb, Z.ltb. rewrite SFcompare_units by assumption.
  destruct (SF_units x ?= SF_units y); reflexivity.
Qed.

(** ** Binary64: the operations of [float] *)

Lemma leb_number (x y : float) :
  (x <=? y)%float = true -> Prim2SF x <> S754_nan /\ Prim2SF y <> S754_nan.
Proof.
  rewrite leb_spec. unfold SFleb.
  destruct (Prim2SF x) as [?|?| |? ? ?], (Prim2SF y) as [?|?| |? ? ?];
    cbn [SFcompare]; intros H; try discriminate; split; discriminate.
Qed.

Lemma leb_units (x y : float) :
  Prim2SF x <> S754_nan -> Prim2SF y <> S754_nan ->
  (x <=? y)%float = (units x <=? units y).
Proof.
  intros. rewrite leb_spec. apply SFleb_units; try assumption; apply Prim2SF_valid.
Qed.

Lemma ltb_units (x y : float) :
  Prim2SF x <> S754_nan -> Prim2SF y <> S754_nan ->
  (x <? y)%float = (units x <? units y).
Proof.
  intros. rewrite ltb_spec. apply SFltb_units; try assumption; apply Prim2SF_valid.
Qed.

Lemma finite_float_number (x : float) : finite_float x = true -> Prim2SF x <> S754_nan.
Proof. unfold finite_float. destruct (Prim2SF x); discriminate. Qed.

Lemma finite_float_units (x : float) :
  finite_float x = true -> - inf_units < units x < inf_units.
Proof.
  unfold finite_float, units. pose proof (Prim2SF_valid x) as Hv.
  assert (0 < inf_units) by reflexivity.
  destruct (Prim2SF x) as [s|s| |s m e]; try discriminate; intros _.
  - simpl. lia.
  - pose proof (valid_units_pos s m e Hv). destruct s; cbn [SF_units cond_Zopp]; lia.
Qed.

Lemma units_finite_float (x : float) :
  Prim2SF x <> S754_nan -> - inf_units < units x < inf_units -> finite_float x = true.
Proof.
  unfold finite_float, units.
  destruct (Prim2SF x) as [s|s| |s m e]; try reflexivity; try congruence.
  intros _. destruct s; cbn [SF_units cond_Zopp]; lia.
Qed.


Lemma add_units (x y : float) :
  finite_float x = true -> finite_float y = true ->
  units (x + y) = round_signed (units x + units y) 1 /\
  Prim2SF (x + y) <> S754_nan.
Proof.
  intros Hx Hy. unfold units. rewrite add_spec.
  apply SFadd_units; try apply Prim2SF_valid; assumption.
Qed.

Lemma div_units (x y : float) (my : positive) (ey : Z) :
  finite_float x = true -> Prim2SF y = S754_finite false my ey -> ey <= 0 ->
  units (x / y) = round_signed (units x * 2 ^ 1074) (units y) /\
  Prim2SF (x / y) <> S754_nan.
Proof.
  intros Hx Hy Hey. unfold units. rewrite div_spec, Hy.
  apply SFdiv_units; try assumption.
  - apply Prim2SF_valid.
  - rewrite <- Hy. apply Prim2SF_valid.
Qed.

(** Adding a float, and dividing by a positive float below [2^53],
    keep the order. *)
Lemma within_add (lo x hi c : float) :
  finite_float lo = true -> finite_float hi = true -> finite_float c = true ->
  finite_float (lo + c) = true -> finite_float (hi + c) = true ->
  within lo x hi -> within (lo + c) (x + c) (hi + c).
Proof.
  intros Hlo Hhi Hc Hlc Hhc [Hx Hb].
  destruct (add_units lo c Hlo Hc) as [Ul _].
  destruct (add_units hi c Hhi Hc) as [Uh _].
  destruct (add_units x c Hx Hc) as [Ux Hn].
  assert (Hle : units (lo + c) <= units (x + c) <= units (hi + c)).
  { rewrite Ul, Ux, Uh. split; apply round_signed_mono; lia. }
  split; [|exact Hle].
  pose proof (finite_float_units _ Hlc). pose proof (finite_float_units _ Hhc).
  apply units_finite_float; [assumption | lia].
Qed.

Lemma within_div (lo x hi c : float) (mc : positive) (ec : Z) :
  finite_float lo = true -> finite_float hi = true ->
  Prim2SF c = S754_finite false mc ec -> ec <= 0 ->
  finite_float (lo / c) = true -> finite_float (hi / c) = true ->
  within lo x hi -> within (lo / c) (x / c) (hi / c).
Proof.
  intros Hlo Hhi Hc Hec Hlc Hhc [Hx Hb].
  destruct (div_units lo c mc ec Hlo Hc Hec) as [Ul _].
  destruct (div_units hi c mc ec Hhi Hc Hec) as [Uh _].
  destruct (div_units x c mc ec Hx Hc Hec) as [Ux Hn].
  assert (HQ : 0 < units c).
  { unfold units. rewrite Hc. pose proof (Prim2SF_valid c) as Hv. rewrite Hc in Hv.
    pose proof (valid_units_pos _ _ _ Hv). cbn [SF_units cond_Zopp]. lia. }
  assert (0 < 2 ^ 1074) by (apply pow2_pos; lia).
  assert (Hle : units (lo / c) <= units (x / c) <= units (hi / c)).
  { rewrite Ul, Ux, Uh. split; apply round_signed_mono; try assumption; nia. }
  split; [|exact Hle].
  pose proof (finite_float_units _ Hlc). pose proof (finite_float_units _ Hhc).
  apply units_finite_float; [assumption | lia].
Qed.

(** [int] of a finite float is the quotient of its units by the units
    of 1, truncated toward zero; on a float that is not negative that
    is the floor. *)
Lemma py_int_units (x : float) :
  finite_float x = true -> Binary64.py_int x = Ok (Z.quot (units x) (2 ^ 1074)).
Proof.
  unfold finite_float, units, Binary64.py_int. pose proof (Prim2SF_valid x) as Hv.
  destruct (Prim2SF x) as [s|s| |s m e]; try discriminate; intros _.
  - reflexivity.
  - apply valid_finite in Hv as [He _]. cbn [SF_units]. cbv zeta. f_equal.
    assert (Hq : Z.shiftl (Z.pos m) e = Z.quot (Z.pos m * 2 ^ (e + 1074)) (2 ^ 1074)).
    { assert (0 < 2 ^ 1074) by (apply pow2_pos; lia).
      pose proof (pow2_pos (e + 1074) ltac:(lia)).
      rewrite Z.quot_div_nonneg by nia.
      destruct (Z_le_gt_dec 0 e) as [Hpos | Hneg].
      - rewrite Z.shiftl_mul_pow2 by lia.
        rewrite Z.pow_add_r, Z.mul_assoc by lia. rewrite Z.div_mul by lia. reflexivity.
      - rewrite Z.shiftl_div_pow2 by lia.
        replace (2 ^ 1074) with (2 ^ (- e) * 2 ^ (e + 1074))
          by (rewrite <- Z.pow_add_r by lia; f_equal; lia).
        rewrite Z.div_mul_cancel_r; [reflexivity | | lia].
        pose proof (pow2_pos (- e) ltac:(lia)). lia. }
    destruct s; cbn [cond_Zopp].
    + rewrite Z.quot_opp_l by (pose proof (pow2_pos 1074 ltac:(lia)); lia).
      rewrite Hq. reflexivity.
    + exact Hq.
Qed.

Lemma py_int_floor64 (x : float) :
  finite_float x = true -> 0 <= units x -> Binary64.py_int x = Ok (float_floor x).
Proof.
  intros Hx H0. rewrite py_int_units by assumption. unfold float_floor.
  rewrite Z.quot_div_nonneg; [reflexivity | assumption | apply pow2_pos; lia].
Qed.

Lemma py_int_within (lo x hi : float) (a b : Z) :
  within lo x hi ->
  finite_float lo = true -> finite_float hi = true ->
  Binary64.py_int lo = Ok a -> Binary64.py_int hi = Ok b ->
  exists n, Binary64.py_int x = Ok n /\ a <= n <= b.
Proof.
  intros [Hx Hb] Hlo Hhi Ha Hbb.
  rewrite py_int_units in Ha, Hbb by assumption.
  rewrite py_int_units by assumption.
  assert (0 < 2 ^ 1074) by (apply pow2_pos; lia).
  eexists. split; [reflexivity|].
  assert (a = Z.quot (units lo) (2 ^ 1074)) by congruence.
  assert (b = Z.quot (units hi) (2 ^ 1074)) by congruence.
  subst a b. split; apply Z.quot_le_mono; lia.
Qed.

(** What gives a finite float was finite. *)
Lemma add_finite_inv (x c : float) :
  finite_float (x + c) = true -> finite_float x = true.
Proof.
  unfold finite_float. rewrite add_spec. unfold SF64add.
  destruct (Prim2SF x) as [s|s| |s m e]; try reflexivity;
    destruct (Prim2SF c) as [s'|s'| |s' m' e']; cbn [SFadd SF_finite];
    try discriminate; destruct s, s'; discriminate.
Qed.

Lemma div_finite_inv (x c : float) (mc : positive) (ec : Z) :
  Prim2SF c = S754_finite false mc ec ->
  finite_float (x / c) = true -> finite_float x = true.
Proof.
  intros Hc. unfold finite_float. rewrite div_spec, Hc. unfold SF64div.
  destruct (Prim2SF x) as [s|s| |s m e]; try reflexivity;
    cbn [SFdiv SF_finite]; discriminate.
Qed.

Lemma py_int_finite (x : float) (n : Z) :
  Binary64.py_int x = Ok n -> finite_float x = true.
Proof.
  unfold Binary64.py_int, finite_float.
  destruct (Prim2SF x); try reflexivity; discriminate.
Qed.

(** ** Grid Sizer *)

(** *** The sizer on exact coordinates, as the pipeline has it *)

Section GridSizer.
Context `{L : GeoStack}.

Lemma dim_floor (length : Q) :
  (27 <= length)%Q ->
  py_int (length / inject_Z 9) = Qfloor (length / 9) /\
  3 <= Qfloor (length / 9).
Proof.
  intros H. change (inject_Z 9) with 9%Q.
  assert (H3 : (inject_Z 3 <= length / 9)%Q).
  { change (inject_Z 3) with 3%Q.
    apply Qle_shift_div_l; [reflexivity | lra]. }
  split.
  - apply py_int_floor. apply Qle_trans with (inject_Z 3); [discriminate | exact H3].
  - rewrite <- (Qfloor_Z 3). apply Qfloor_resp_le, H3.
Qed.

Lemma get_coverage_dimensions_small (g : Geom) (minx miny maxx maxy : Q) :
  bounds g = (minx, miny, maxx, maxy) ->
  (maxy - miny < 27 \/ maxx - minx < 27)%Q ->
  domain_error (get_coverage_dimensions g).
Proof.
  intros Hb H. unfold get_coverage_dimensions. rewrite Hb.
  destruct (Qltb (maxy - miny) (inject_Z (9 * 3))) eqn:Eh; [exact I|].
  destruct (Qltb (maxx - minx) (inject_Z (9 * 3))) eqn:Ew; [exact I|].
  apply Qltb_ge in Eh, Ew. change (inject_Z (9 * 3)) with 27%Q in Eh, Ew.
  exfalso. destruct H; lra.
Qed.

Lemma get_coverage_dimensions_large (g : Geom) (minx miny maxx maxy : Q) :
  bounds g = (minx, miny, maxx, maxy) ->
  (27 <= maxy - miny)%Q -> (27 <= maxx - minx)%Q ->
  get_coverage_dimensions g =
    Ok (Z.min (Qfloor ((maxy - miny) / 9)) 3000,
        Z.min (Qfloor ((maxx - minx) / 9)) 3000).
Proof.
  intros Hb Hh Hw. unfold get_coverage_dimensions. rewrite Hb.
  destruct (Qltb (maxy - miny) (inject_Z (9 * 3))) eqn:Eh.
  { apply Qltb_lt in Eh. change (inject_Z (9 * 3)) with 27%Q in Eh. lra. }
  destruct (Qltb (maxx - minx) (inject_Z (9 * 3))) eqn:Ew.
  { apply Qltb_lt in Ew. change (inject_Z (9 * 3)) with 27%Q in Ew. lra. }
  destruct (dim_floor _ Hh) as [-> _]. destruct (dim_floor _ Hw) as [-> _].
  reflexivity.
Qed.

End GridSizer.

(** *** The sizer on floats *)


Lemma ltb_false_units (x y : float) :
  finite_float x = true -> finite_float y = true ->
  (x <? y)%float = false -> units y <= units x.
Proof.
  intros Hx Hy H. rewrite ltb_units in H by (apply finite_float_number; assumption).
  apply Z.ltb_ge. exact H.
Qed.

Lemma py_int_not_domain_error (x : float) : ~ domain_error (Binary64.py_int x).
Proof. unfold Binary64.py_int. destruct (Prim2SF x); simpl; tauto. Qed.

(** The largest finite float. *)
Lemma finite_le_max (x : float) :
  finite_float x = true -> units x <= units 0x1.fffffffffffffp+1023%float.
Proof.
  unfold finite_float, units. pose proof (Prim2SF_valid x) as Hv.
  replace (SF_units (Prim2SF 0x1.fffffffffffffp+1023))
    with ((2 ^ 53 - 1) * 2 ^ 2045) by (vm_compute; reflexivity).
  assert (0 < 2 ^ 2045) by reflexivity.
  assert (H53 : 2 ^ 53 - 1 = 9007199254740991) by reflexivity.
  assert (H53' : 2 ^ 53 = 9007199254740992) by reflexivity.
  rewrite H53.
  destruct (Prim2SF x) as [s|s| |s m e]; intros Hf; try discriminate Hf.
  - cbn [SF_units]. lia.
  - pose proof (valid_mantissa s m e Hv) as [Hm _].
    pose proof (valid_units_pos s m e Hv) as Hp.
    apply valid_finite in Hv as [He Hmax].
    assert (2 ^ (e + 1074) <= 2 ^ 2045) by (apply Z.pow_le_mono_r; lia).
    pose proof (pow2_pos (e + 1074) ltac:(lia)).
    destruct s; cbn [SF_units cond_Zopp]; nia.
Qed.

Lemma py_int_at_least (lo x hi : float) (a : Z) :
  within lo x hi -> finite_float lo = true -> (0 <=? lo)%float = true ->
  Binary64.py_int lo = Ok a ->
  Binary64.py_int x = Ok (float_floor x) /\ a <= float_floor x.
Proof.
  intros [Hx Hb] Hlo H0 Ha.
  rewrite leb_units in H0
    by first [apply finite_float_number; assumption | vm_compute; discriminate].
  apply Z.leb_le in H0. change (units 0) with 0 in H0.
  rewrite py_int_floor64 in Ha by assumption.
  split; [apply py_int_floor64; [assumption | lia]|].
  assert (a = float_floor lo) by congruence. subst a.
  unfold float_floor. apply Z.div_le_mono; [apply pow2_pos|]; lia.
Qed.

(** The size of one side of the grid. *)
Lemma dim_binary64 (length : float) :
  finite_float length = true -> (length <? 27)%float = false ->
  Binary64.py_int (length / 9) = Ok (float_floor (length / 9)) /\
  3 <= float_floor (length / 9).
Proof.
  intros Hf Hlt.
  assert (Hw : within 27 length 0x1.fffffffffffffp+1023).
  { split; [assumption|]. split.
    - apply ltb_false_units; [assumption | reflexivity | assumption].
    - apply finite_le_max, Hf. }
  apply (within_div _ _ _ 9 5066549580791808 (-49)) in Hw;
    try reflexivity; [|lia].
  apply (py_int_at_least _ _ _ 3) in Hw; try reflexivity. exact Hw.
Qed.

Lemma get_coverage_dimensions_binary64_eq {Geom : Type}
    (bounds : Geom -> float * float * float * float) (g : Geom)
    (minx miny maxx maxy : float) :
  bounds g = (minx, miny, maxx, maxy) ->
  Binary64.get_coverage_dimensions bounds g =
    if (maxy - miny <? 27)%float
    then Raise (Exception "AOI height too small, should be 27m.")
    else if (maxx - minx <? 27)%float
    then Raise (Exception "AOI width too small, should be 27m.")
    else
      rows ← (n ← Binary64.py_int ((maxy - miny) / 9); Ok (Z.min n 3000));
      cols ← (n ← Binary64.py_int ((maxx - minx) / 9); Ok (Z.min n 3000));
      Ok (rows, cols).
Proof.
  intros Hb. unfold Binary64.get_coverage_dimensions. rewrite Hb. reflexivity.
Qed.

(** [int] of the size of a side that is not a number or not finite. *)
Lemma dim_not_finite (length : float) :
  finite_float length = false -> (length <? 27)%float = false ->
  Binary64.py_int (length / 9) =
    Raise (ValueError "cannot convert float NaN to integer") \/
  Binary64.py_int (length / 9) =
    Raise (OverflowError "cannot convert float infinity to integer").
Proof.
  intros Hf Hlt. unfold Binary64.py_int. rewrite div_spec.
  unfold finite_float in Hf. rewrite ltb_spec in Hlt.
  change (Prim2SF 9) with (S754_finite false 5066549580791808 (-49)).
  destruct (Prim2SF length) as [s|s| |s m e]; try discriminate Hf.
  - right. reflexivity.
  - left. reflexivity.
Qed.

(** C4, as the code has it.  [height] and [width] are the floats the
    function computes from the bounds.  With the defaults, the sizer
    raises its own exception exactly when [height < 27] or [width < 27];
    otherwise, on finite sides, it returns
    [min(floor(height / 9), 3000)] rows and [min(floor(width / 9), 3000)]
    columns, the quotients being floats, and both are at least 3; on a
    side that is NaN or infinite [int] raises.  Sides of 27 pass with 3
    by 3 cells, a side of 26 fails and sides of 50000 give 3000 by
    3000. *)
Theorem get_coverage_dimensions_binary64 {Geom : Type}
    (bounds : Geom -> float * float * float * float) (g : Geom)
    (minx miny maxx maxy : float) :
  bounds g = (minx, miny, maxx, maxy) ->
  let height := (maxy - miny)%float in
  let width := (maxx - minx)%float in
  let result := Binary64.get_coverage_dimensions bounds g in
  (domain_error result <->
     (height <? 27)%float = true \/ (width <? 27)%float = true) /\
  ((height <? 27)%float = false -> (width <? 27)%float = false ->
   finite_float height = true -> finite_float width = true ->
     result = Ok (Z.min (float_floor (height / 9)) 3000,
                  Z.min (float_floor (width / 9)) 3000) /\
     3 <= float_floor (height / 9) /\ 3 <= float_floor (width / 9)) /\
  ((height <? 27)%float = false -> (width <? 27)%float = false ->
   finite_float height && finite_float width = false ->
     result = Raise (ValueError "cannot convert float NaN to integer") \/
     result = Raise (OverflowError "cannot convert float infinity to integer")) /\
  (height = 27%float -> width = 27%float -> result = Ok (3, 3)) /\
  (height = 26%float \/ width = 26%float -> domain_error result) /\
  (height = 50000%float -> width = 50000%float -> result = Ok (3000, 3000)).
Proof.
  intros Hb height width result.
  assert (Hr : result =
    if (height <? 27)%float
    then Raise (Exception "AOI height too small, should be 27m.")
    else if (width <? 27)%float
    then Raise (Exception "AOI width too small, should be 27m.")
    else
      rows ← (n ← Binary64.py_int (height / 9); Ok (Z.min n 3000));
      cols ← (n ← Binary64.py_int (width / 9); Ok (Z.min n 3000));
      Ok (rows, cols))
    by (apply get_coverage_dimensions_binary64_eq, Hb).
  clearbody result height width. subst result.
  split; [|split; [|split; [|split; [|split]]]].
  - destruct (height <? 27)%float; [simpl; tauto|].
    destruct (width <? 27)%float; [simpl; tauto|].
    split; [intros H; exfalso; revert H | intros [?|?]; discriminate].
    pose proof (py_int_not_domain_error (height / 9)) as Hh.
    pose proof (py_int_not_domain_error (width / 9)) as Hw.
    destruct (Binary64.py_int (height / 9)) as [n|e]; [|exact Hh].
    destruct (Binary64.py_int (width / 9)) as [n'|e]; [|exact Hw].
    intros [].
  - intros Hh Hw Fh Fw. rewrite Hh, Hw.
    destruct (dim_binary64 height Fh Hh) as [-> H3h].
    destruct (dim_binary64 width Fw Hw) as [-> H3w].
    auto.
  - intros Hh Hw Hf. rewrite Hh, Hw.
    destruct (finite_float height) eqn:Fh.
    + destruct (dim_binary64 height Fh Hh) as [-> _].
      destruct (dim_not_finite width Hf Hw) as [-> | ->]; auto.
    + destruct (dim_not_finite height Fh Hh) as [-> | ->]; auto.
  - intros -> ->. reflexivity.
  - intros [-> | ->].
    + exact I.
    + destruct (height <? 27)%float; exact I.
  - intros -> ->. reflexivity.
Qed.

(** A square of 30 m, with coordinates that are not whole numbers. *)
Lemma get_coverage_dimensions_binary64_witness :
  let height := (31.5 - 1.5)%float in
  let width := (30.5 - 0.5)%float in
  (Binary64.dimensions_of (0.5, 1.5, 30.5, 31.5)%float =
     Ok (Z.min (float_floor (height / 9)) 3000,
         Z.min (float_floor (width / 9)) 3000)) /\
  3 <= float_floor (height / 9) /\ 3 <= float_floor (width / 9).
Proof.
  apply (proj1 (proj2 (get_coverage_dimensions_binary64 (fun b => b)
                         (0.5, 1.5, 30.5, 31.5)%float 0.5 1.5 30.5 31.5 eq_refl)));
    reflexivity.
Defined.

(** C4 as worded fails on floats.  Read on the exact coordinates, a box
    can be less than 27 m wide and still be sized: from 0.2 to 27.2
    (the floats nearest to these) the exact width is below 27 and the
    float subtraction gives 27.  And "otherwise it returns" fails on
    bounds that are not numbers: with NaN bounds no comparison holds
    and [int] raises [ValueError]; with infinite bounds,
    [OverflowError]. *)
Lemma get_coverage_dimensions_claim_fails :
  (units 0x1.b333333333333p+4 - units 0x1.999999999999ap-3 < units 27 /\
   Binary64.dimensions_of (0x1.999999999999ap-3, 0, 0x1.b333333333333p+4, 27)%float
     = Ok (3, 3)) /\
  Binary64.dimensions_of (nan, nan, nan, nan)%float
    = Raise (ValueError "cannot convert float NaN to integer") /\
  Binary64.dimensions_of (0, 0, infinity, infinity)%float
    = Raise (OverflowError "cannot convert float infinity to integer").
Proof.
  split; [split|split]; try (vm_compute; reflexivity).
Qed.

(** ** UTM zone selection *)

Lemma _get_utm_zone_binary64_eq {GeoJSON Geom : Type} (shape : GeoJSON -> Geom)
    (centroid : Geom -> float * float) (geom : GeoJSON) :
  let lon := fst (centroid (shape geom)) in
  let lat := snd (centroid (shape geom)) in
  Binary64._get_utm_zone shape centroid geom =
    if ((84 <? lat) || (lat <? -80))%float
    then Raise (Exception "UTM Zones only valid within [-80, 84] latitude")
    else
      zone ← Binary64.py_int ((lon + 180) / 6 + 1);
      Ok (zone, if (0 <? lat)%float then north else south).
Proof. reflexivity. Qed.

(** The float the zone is truncated from lies between its values at the
    ends of a range of longitudes. *)
Lemma zone_float_within (lo lon hi : float) :
  finite_float lo = true -> finite_float hi = true ->
  finite_float (lo + 180) = true -> finite_float (hi + 180) = true ->
  finite_float ((lo + 180) / 6) = true -> finite_float ((hi + 180) / 6) = true ->
  finite_float ((lo + 180) / 6 + 1) = true -> finite_float ((hi + 180) / 6 + 1) = true ->
  within lo lon hi ->
  within ((lo + 180) / 6 + 1) ((lon + 180) / 6 + 1) ((hi + 180) / 6 + 1).
Proof.
  intros F1 F2 F3 F4 F5 F6 F7 F8 H.
  apply (within_add _ _ _ 180) in H; try assumption; try reflexivity.
  apply (within_div _ _ _ 6 6755399441055744 (-50)) in H;
    try assumption; try reflexivity; [|lia].
  apply (within_add _ _ _ 1) in H; try assumption; reflexivity.
Qed.




(** ** UTM projector *)

(** The projection does not look at the geometry. *)
Lemma get_utm_projection_fcn_constant `{L : GeoStack} (g1 g2 : Geom) :
  get_utm_projection_fcn g1 = get_utm_projection_fcn g2.
Proof. reflexivity. Qed.

(** C3 fails on the code.  A box around Cary lies in zone 17 north and
    one near Paris in zone 31 north, yet both are given the same
    transform, into EPSG:32617 (UTM zone 17 north). *)
Theorem utm_projection_ignores_zone :
  _get_utm_zone Box.cary = Ok (17, north) /\
  _get_utm_zone Box.paris = Ok (31, north) /\
  get_utm_projection_fcn (shape Box.paris) = get_utm_projection_fcn (shape Box.cary) /\
  srs (p_to (get_utm_projection_fcn (shape Box.paris))) = "EPSG:32617".
Proof. repeat split; vm_compute; reflexivity. Qed.

(** ** Overlap Calculator *)

Section Overlaps.
Context `{L : GeoStack}.

Lemma get_overlap_shapes_utm_length (items : list Item) (aoi_shape : Geom) :
  length (get_overlap_shapes_utm items aoi_shape) = length items.
Proof. unfold get_overlap_shapes_utm. apply length_map. Qed.


End Overlaps.


(** The boxes obey the laws asked of the libraries. *)
Lemma box_laws : GeoLaws Box.stack.
Proof.
  split.
  - intros shapes fill v [rows cols] t Hr Hc. simpl in *. split.
    + unfold Box.box_rasterize. simpl. rewrite length_map, length_seqZ. reflexivity.
    + unfold Box.box_rasterize. simpl. apply Forall_fmap, Forall_forall.
      intros row _. simpl. rewrite length_map, length_seqZ. reflexivity.
  - intros shapes fill v dims t. unfold all_cells. simpl.
    unfold Box.box_rasterize. apply Forall_fmap, Forall_forall. intros row _.
    simpl. apply Forall_fmap, Forall_forall. intros col _. simpl.
    match goal with |- context [existsb ?f ?l] => destruct (existsb f l) end; auto.
  - intros [a b c d]. simpl.
    unfold Box.box_intersection, Box.Qmaxb, Box.Qminb. simpl.
    destruct (Qle_bool a a), (Qle_bool b b), (Qle_bool c c), (Qle_bool d d);
      reflexivity.
  - intros a b H. exact H.
Qed.




(** ** Coverage Rasterizer *)

Lemma Forall_zip_with {A B C} (P : A -> Prop) (Q : B -> Prop) (R : C -> Prop)
    (f : A -> B -> C) (l : list A) (k : list B) :
  (forall x y, P x -> Q y -> R (f x y)) ->
  Forall P l -> Forall Q k -> Forall R (zip_with f l k).
Proof.
  intros Hf Hl. revert k. induction Hl as [|x l Hx Hl IH]; intros k Hk.
  - constructor.
  - destruct Hk as [|y k Hy Hk]; simpl; constructor; auto.
Qed.

Lemma zip_with_map_l {A A' B C C'} (f : A' -> B -> C') (g : A -> B -> C)
    (h : A -> A') (h' : C -> C') (l : list A) (k : list B) :
  (forall x y, f (h x) y = h' (g x y)) ->
  zip_with f (map h l) k = map h' (zip_with g l k).
Proof.
  intros Hf. revert k. induction l as [|x l IH]; intros [|y k]; simpl;
    try reflexivity. rewrite Hf, IH. reflexivity.
Qed.

(** [+=] on a wrapped array is the unbounded sum, wrapped. *)
Lemma np_iadd_grid_mod (cov raster : grid) :
  np_iadd (grid_mod cov) raster = grid_mod (grid_add cov raster).
Proof.
  unfold np_iadd, grid_mod, grid_add.
  apply zip_with_map_l. intros x y. apply zip_with_map_l. intros a b.
  unfold uint16_add. apply Z.add_mod_idemp_l. lia.
Qed.

Lemma grid_mod_small (bound : Z) (g : grid) :
  bound < 65536 ->
  all_cells (fun c => 0 <= c <= bound) g -> grid_mod g = g.
Proof.
  intros Hb Hg. unfold grid_mod.
  induction Hg as [|row g Hrow Hg IH]; simpl; [reflexivity|].
  rewrite IH. f_equal.
  induction Hrow as [|c row Hc Hrow IHrow]; simpl; [reflexivity|].
  rewrite IHrow, Z.mod_small by lia. reflexivity.
Qed.

Lemma grid_mod_cells (bound : Z) (g : grid) :
  all_cells (fun c => 0 <= c <= bound) g ->
  all_cells (fun c => 0 <= c <= bound /\ c < 65536) (grid_mod g).
Proof.
  intros Hg. unfold grid_mod, all_cells in *.
  apply Forall_fmap. eapply Forall_impl; [exact Hg|]. intros row Hrow. simpl.
  apply Forall_fmap. eapply Forall_impl; [exact Hrow|]. intros c Hc. simpl in *.
  pose proof (Z.mod_pos_bound c 65536 ltac:(lia)).
  pose proof (Z.mod_le c 65536 ltac:(lia) ltac:(lia)). lia.
Qed.

Lemma all_cells_zeros (rows cols : nat) :
  all_cells (fun c => 0 <= c <= 0) (replicate rows (replicate cols 0)).
Proof.
  unfold all_cells. apply Forall_replicate, Forall_replicate. lia.
Qed.

(** The unbounded sum of [n] 0/1 rasters over cells bounded by [k] is
    bounded by [k + n]. *)
Lemma foldl_grid_add_cells (rasters : list grid) (k : Z) (cov : grid) :
  all_cells (fun c => 0 <= c <= k) cov ->
  Forall (all_cells (fun c => c = 0 \/ c = 1)) rasters ->
  all_cells (fun c => 0 <= c <= k + Z.of_nat (length rasters))
    (foldl grid_add cov rasters).
Proof.
  intros Hcov Hr. revert k cov Hcov.
  induction Hr as [|raster rasters Hraster Hr IH]; intros k cov Hcov; simpl.
  - eapply Forall_impl; [exact Hcov|]. intros row Hrow.
    eapply Forall_impl; [exact Hrow|]. intros c Hc. simpl in Hc. lia.
  - assert (Hstep : all_cells (fun c => 0 <= c <= k + 1) (grid_add cov raster)).
    { unfold grid_add, all_cells.
      eapply Forall_zip_with; [|exact Hcov|exact Hraster].
      intros row row' Hrow Hrow'.
      eapply Forall_zip_with; [|exact Hrow|exact Hrow'].
      intros c c' Hc Hc'. simpl in *. lia. }
    specialize (IH _ _ Hstep).
    eapply Forall_impl; [exact IH|]. intros row Hrow.
    eapply Forall_impl; [exact Hrow|]. intros c Hc. simpl in Hc. lia.
Qed.

Section Rasterizer.
Context `{L : GeoStack}.
Implicit Types (G : gmap string value) (overlaps : list Geom).

Lemma accumulate_all_empty G dimensions t overlaps (coverage : grid) :
  Forall (fun overlap => is_empty overlap = true) overlaps ->
  accumulate G dimensions t overlaps coverage = Ok coverage.
Proof.
  induction 1 as [|overlap overlaps He _ IH]; simpl; [reflexivity|].
  rewrite He. simpl. exact IH.
Qed.

Lemma accumulate_name_error G dimensions t overlaps (coverage : grid) :
  G !! "sgeom" = None -> is_Some (G !! "rfeatures") ->
  Exists (fun overlap => is_empty overlap = false) overlaps ->
  accumulate G dimensions t overlaps coverage = Raise (NameError "sgeom").
Proof.
  intros Hs [m Hm] Hex.
  induction Hex as [overlap overlaps He | overlap overlaps _ IH]; simpl.
  - rewrite He. simpl. unfold global. rewrite Hm, Hs. reflexivity.
  - destruct (is_empty overlap); simpl; [exact IH|].
    unfold global. rewrite Hm, Hs. reflexivity.
Qed.

Lemma accumulate_returns_empty G dimensions t overlaps (coverage g : grid) :
  G !! "sgeom" = None ->
  accumulate G dimensions t overlaps coverage = Ok g ->
  Forall (fun overlap => is_empty overlap = true) overlaps.
Proof.
  intros Hs. induction overlaps as [|overlap overlaps IH]; simpl; intros H.
  - constructor.
  - destruct (is_empty overlap) eqn:He; simpl in H.
    + constructor; [exact He | exact (IH H)].
    + unfold global in H. rewrite Hs in H.
      destruct (G !! "rfeatures"); discriminate.
Qed.

(** When the loop returns, the array is the unbounded count, wrapped. *)
Lemma accumulate_grid_mod G dimensions t overlaps (coverage g : grid) :
  accumulate G dimensions t overlaps (grid_mod coverage) = Ok g ->
  g = grid_mod (foldl grid_add coverage (overlap_rasters dimensions t overlaps)).
Proof.
  revert coverage. unfold overlap_rasters.
  induction overlaps as [|overlap overlaps IH]; simpl; intros coverage H.
  - congruence.
  - rewrite filter_cons. destruct (is_empty overlap) eqn:He; simpl in H.
    + rewrite decide_False by discriminate. apply IH, H.
    + rewrite decide_True by reflexivity. simpl.
      destruct (global G "rfeatures"); [|discriminate]. simpl in H.
      destruct (global G "sgeom"); [|discriminate]. simpl in H.
      rewrite np_iadd_grid_mod in H. apply IH, H.
Qed.

(** When both names are bound the loop returns. *)
Lemma accumulate_bound G dimensions t overlaps (coverage : grid) :
  is_Some (G !! "rfeatures") -> is_Some (G !! "sgeom") ->
  exists g, accumulate G dimensions t overlaps coverage = Ok g.
Proof.
  intros [m Hm] [s Hs]. revert coverage.
  induction overlaps as [|overlap overlaps IH]; simpl; intros coverage.
  - eauto.
  - destruct (is_empty overlap); simpl; [apply IH|].
    unfold global. rewrite Hm, Hs. simpl. apply IH.
Qed.

(** The steps of [calculate_coverage] before the loop. *)
Lemma calculate_coverage_loop G overlaps rows cols (bounds : Q * Q * Q * Q) :
  0 < rows -> 0 < cols ->
  is_Some (G !! "rasterio") -> is_Some (G !! "np") ->
  calculate_coverage G overlaps (rows, cols) bounds =
    accumulate G (rows, cols) (pixel_transform bounds (rows, cols)) overlaps
      (replicate (Z.to_nat rows) (replicate (Z.to_nat cols) 0)).
Proof.
  intros Hr Hc [r Hrio] [n Hnp]. destruct bounds as [[[minx miny] maxx] maxy].
  unfold calculate_coverage, py_truediv, global, np_zeros.
  rewrite (proj2 (Z.eqb_neq cols 0)), (proj2 (Z.eqb_neq rows 0)) by lia.
  simpl. rewrite Hrio, Hnp. simpl.
  rewrite (proj2 (Z.ltb_ge rows 0)), (proj2 (Z.ltb_ge cols 0)) by lia.
  reflexivity.
Qed.

(** What a returned grid tells about the call. *)
Lemma calculate_coverage_returns G overlaps rows cols (bounds : Q * Q * Q * Q)
    (g : grid) :
  calculate_coverage G overlaps (rows, cols) bounds = Ok g ->
  0 < rows /\ 0 < cols /\
  accumulate G (rows, cols) (pixel_transform bounds (rows, cols)) overlaps
    (replicate (Z.to_nat rows) (replicate (Z.to_nat cols) 0)) = Ok g.
Proof.
  destruct bounds as [[[minx miny] maxx] maxy].
  unfold calculate_coverage, py_truediv, np_zeros.
  destruct (Z.eqb_spec cols 0); [discriminate|].
  destruct (Z.eqb_spec rows 0); [discriminate|]. simpl.
  destruct (global G "rasterio"); [|discriminate]. simpl.
  destruct (global G "np"); [|discriminate]. simpl.
  destruct (Z.ltb_spec rows 0); [discriminate|].
  destruct (Z.ltb_spec cols 0); [discriminate|]. simpl.
  intros Hacc. repeat split; [lia | lia | exact Hacc].
Qed.

End Rasterizer.

Section Rasterizer_claims.
Context `{L : GeoStack}.
Implicit Types (G : gmap string value) (overlaps : list Geom).

Lemma np_iadd_constant (rows cols : nat) (a b : Z) :
  np_iadd (replicate rows (replicate cols a)) (replicate rows (replicate cols b))
    = replicate rows (replicate cols (uint16_add a b)).
Proof. unfold np_iadd. rewrite !zip_with_replicate. reflexivity. Qed.

Lemma accumulate_copies G rows cols t (overlap : Geom) (n : nat) (k : Z) :
  is_Some (G !! "rfeatures") -> is_Some (G !! "sgeom") ->
  is_empty overlap = false ->
  rasterize [mapping overlap] 0 1 (rows, cols) t =
    replicate (Z.to_nat rows) (replicate (Z.to_nat cols) 1) ->
  0 <= k -> k + Z.of_nat n < 65536 ->
  accumulate G (rows, cols) t (replicate n overlap)
      (replicate (Z.to_nat rows) (replicate (Z.to_nat cols) k))
    = Ok (replicate (Z.to_nat rows) (replicate (Z.to_nat cols) (k + Z.of_nat n))).
Proof.
  intros [m Hm] [s Hs] He Hones. revert k.
  induction n as [|n IH]; intros k Hk Hkn; simpl.
  - rewrite Z.add_0_r. reflexivity.
  - rewrite He. simpl. unfold global. rewrite Hm, Hs. simpl.
    rewrite Hones, np_iadd_constant. unfold uint16_add.
    rewrite Z.mod_small by lia. rewrite IH by lia. do 3 f_equal. lia.
Qed.

(** Each overlap adds at most 1 to a cell. *)
Lemma uint16_add_at_most_one (old b : Z) :
  0 <= old -> b = 0 \/ b = 1 -> 0 <= uint16_add old b <= old + 1.
Proof.
  intros Ho Hb. unfold uint16_add.
  pose proof (Z.mod_pos_bound (old + b) 65536 ltac:(lia)).
  pose proof (Z.mod_le (old + b) 65536 ltac:(lia) ltac:(lia)). lia.
Qed.

Lemma overlap_rasters_values `{HL : !GeoLaws L} dimensions t overlaps :
  Forall (all_cells (fun c => c = 0 \/ c = 1)) (overlap_rasters dimensions t overlaps).
Proof.
  unfold overlap_rasters. apply Forall_fmap, Forall_forall. intros overlap _.
  simpl. apply rasterize_values.
Qed.

Lemma exact_coverage_cells `{HL : !GeoLaws L} dimensions t overlaps :
  all_cells
    (fun c => 0 <= c <= Z.of_nat (length (filter (fun o => is_empty o = false) overlaps)))
    (exact_coverage dimensions t overlaps).
Proof.
  unfold exact_coverage.
  pose proof (foldl_grid_add_cells (overlap_rasters dimensions t overlaps) 0 _
                (all_cells_zeros (Z.to_nat (fst dimensions)) (Z.to_nat (snd dimensions)))
                (overlap_rasters_values dimensions t overlaps))
    as H.
  unfold overlap_rasters in H at 1. rewrite length_map in H. exact H.
Qed.

Lemma calculate_coverage_exact G overlaps dimensions (bounds : Q * Q * Q * Q)
    (g : grid) :
  calculate_coverage G overlaps dimensions bounds = Ok g ->
  g = grid_mod (exact_coverage dimensions (pixel_transform bounds dimensions) overlaps).
Proof.
  destruct dimensions as [rows cols]. intros H.
  apply calculate_coverage_returns in H as (_ & _ & H).
  unfold exact_coverage. apply (accumulate_grid_mod G). simpl.
  rewrite (grid_mod_small 0) by (lia || apply all_cells_zeros). exact H.
Qed.

End Rasterizer_claims.

(** ** The namespace *)

Lemma lookup_binds `{L : GeoStack} (l : list (string * value))
    (G : gmap string value) (name : string) :
  binds l G !! name =
    match assoc name l with Some v => Some v | None => G !! name end.
Proof.
  induction l as [|[n v] l IH]; simpl; [reflexivity|].
  destruct (String.eqb_spec n name) as [-> | Hne].
  - apply lookup_insert_eq.
  - rewrite lookup_insert_ne by exact Hne. exact IH.
Qed.

(** Reading a name through the bindings made since the kernel held [G]:
    the chain of inserts is read back as a list and looked up there. *)
Ltac reify_chain m :=
  lazymatch m with
  | insert ?k ?v ?m' =>
      let r := reify_chain m' in
      lazymatch r with (?l, ?base) => constr:(((k, v) :: l, base)) end
  | _ => constr:((@nil (string * value), m))
  end.

Ltac resolve_lookup :=
  match goal with
  | |- context [ @lookup _ _ _ _ ?x (insert ?k ?v ?m) ] =>
      let r := reify_chain (insert k v m) in
      lazymatch r with
      | (?l, ?base) =>
          change (insert k v m !! x) with (binds l base !! x);
          rewrite (lookup_binds l base x);
          cbv [assoc String.eqb Ascii.eqb Bool.eqb]
      end
  end.

Ltac lookup_globals := repeat (resolve_lookup; cbv beta iota).

(** The import cell binds [rasterio], [np] and [rfeatures], and leaves
    [sgeom] and [data_filter] as it found them. *)
Lemma after_imports_lookup `{L : GeoStack} (G : gmap string value) :
  after_imports G !! "rasterio" = Some (VModule "rasterio") /\
  after_imports G !! "np" = Some (VModule "numpy") /\
  after_imports G !! "rfeatures" = Some (VModule "rasterio.features") /\
  after_imports G !! "sgeom" = G !! "sgeom" /\
  after_imports G !! "data_filter" = G !! "data_filter".
Proof.
  unfold after_imports.
  cbv [import_all notebook_imports assign mbind mret K_bind K_ret fst globals outputs].
  repeat split; lookup_globals; reflexivity.
Qed.

(** ** Coverage Rasterizer: the claims *)

(** The modules the coverage function reads are bound after the import
    cell, whatever the kernel held. *)
Lemma after_imports_modules `{L : GeoStack} (G : gmap string value) :
  is_Some (after_imports G !! "rasterio") /\
  is_Some (after_imports G !! "np") /\
  is_Some (after_imports G !! "rfeatures").
Proof.
  destruct (after_imports_lookup G) as (-> & -> & -> & _). eauto.
Qed.

Lemma after_imports_sgeom `{L : GeoStack} (G : gmap string value) :
  after_imports G !! "sgeom" = G !! "sgeom".
Proof. apply after_imports_lookup. Qed.

(** C1, as the code has it.  With positive row and column counts, and
    [rasterio] and [np] bound, a list in which no overlap is non-empty
    (the empty list among them) gives a grid of the asked shape in which
    every cell is 0.  Where [rfeatures] and [sgeom] are bound as well,
    N copies (N below 2^16) of a non-empty overlap whose raster marks
    every cell give a grid in which every cell is N. *)
Theorem calculate_coverage_zero_and_copies `{L : GeoStack}
    (G : gmap string value) (rows cols : Z) (bounds : Q * Q * Q * Q) :
  0 < rows -> 0 < cols ->
  is_Some (G !! "rasterio") -> is_Some (G !! "np") ->
  (forall overlaps : list Geom,
     Forall (fun overlap => is_empty overlap = true) overlaps ->
     calculate_coverage G overlaps (rows, cols) bounds =
       Ok (replicate (Z.to_nat rows) (replicate (Z.to_nat cols) 0))) /\
  (forall (overlap : Geom) (N : Z),
     is_Some (G !! "rfeatures") -> is_Some (G !! "sgeom") ->
     is_empty overlap = false ->
     rasterize [mapping overlap] 0 1 (rows, cols)
         (pixel_transform bounds (rows, cols)) =
       replicate (Z.to_nat rows) (replicate (Z.to_nat cols) 1) ->
     0 <= N < 65536 ->
     calculate_coverage G (replicate (Z.to_nat N) overlap) (rows, cols) bounds =
       Ok (replicate (Z.to_nat rows) (replicate (Z.to_nat cols) N))).
Proof.
  intros Hr Hc Hrio Hnp. split.
  - intros overlaps He. rewrite calculate_coverage_loop by assumption.
    apply accumulate_all_empty, He.
  - intros overlap N Hrf Hsg He Hones HN.
    rewrite calculate_coverage_loop by assumption.
    rewrite (accumulate_copies G rows cols _ overlap (Z.to_nat N) 0)
      by (assumption || lia).
    do 3 f_equal. lia.
Qed.

(** Three copies of the meadow over its own bounding box, with [sgeom]
    bound: every cell is 3; and no overlap: every cell is 0. *)
Lemma calculate_coverage_zero_and_copies_witness :
  calculate_coverage (after_imports Box.with_both) [] (3, 3) (bounds Box.meadow)
    = Ok [[0; 0; 0]; [0; 0; 0]; [0; 0; 0]] /\
  calculate_coverage (after_imports Box.with_both)
      [Box.meadow; Box.meadow; Box.meadow] (3, 3) (bounds Box.meadow)
    = Ok [[3; 3; 3]; [3; 3; 3]; [3; 3; 3]].
Proof.
  destruct (after_imports_modules (L := Box.stack) Box.with_both)
    as (Hrio & Hnp & Hrf).
  destruct (calculate_coverage_zero_and_copies (L := Box.stack)
              (after_imports Box.with_both) 3 3 (Box.box_bounds Box.meadow)
              eq_refl eq_refl Hrio Hnp) as [Hzero Hcopies].
  split.
  - apply (Hzero []). constructor.
  - apply (Hcopies Box.meadow 3).
    + exact Hrf.
    + rewrite after_imports_sgeom. exists (VModule "shapely.geometry").
      vm_compute; reflexivity.
    + vm_compute; reflexivity.
    + vm_compute; reflexivity.
    + lia.
Defined.

(** C1 as worded fails on the code: a grid with no rows divides by
    zero even on the empty list, and in the notebook's own namespace one
    copy of the AOI raises [NameError] where a grid of ones is
    promised. *)
Lemma calculate_coverage_claim_fails :
  calculate_coverage (after_imports Box.fresh) [] (0, 3) (bounds Box.meadow)
    = Raise ZeroDivisionError /\
  calculate_coverage (after_imports Box.fresh) [Box.meadow] (6, 3)
      (bounds Box.meadow)
    = Raise (NameError "sgeom").
Proof. split; vm_compute; reflexivity. Qed.

(** C2.  In a namespace where [sgeom] is not bound (and the modules the
    notebook imports are), with positive grid dimensions:
    [calculate_coverage] raises [NameError] for [sgeom] as soon as one
    overlap is non-empty, and it returns a grid exactly when every
    overlap is empty. *)
Theorem calculate_coverage_name_error `{L : GeoStack}
    (G : gmap string value) (overlaps : list Geom) (rows cols : Z)
    (bounds : Q * Q * Q * Q) :
  G !! "sgeom" = None ->
  is_Some (G !! "rasterio") -> is_Some (G !! "np") ->
  is_Some (G !! "rfeatures") ->
  0 < rows -> 0 < cols ->
  (Exists (fun overlap => is_empty overlap = false) overlaps ->
     calculate_coverage G overlaps (rows, cols) bounds = Raise (NameError "sgeom")) /\
  ((exists g, calculate_coverage G overlaps (rows, cols) bounds = Ok g) <->
     Forall (fun overlap => is_empty overlap = true) overlaps).
Proof.
  intros Hsg Hrio Hnp Hrf Hr Hc.
  rewrite calculate_coverage_loop by assumption. repeat split.
  - apply accumulate_name_error; assumption.
  - intros [g Hg]. eapply accumulate_returns_empty; eassumption.
  - intros He. eexists. apply accumulate_all_empty, He.
Qed.

(** The notebook's imports leave [sgeom] unbound: in a fresh kernel one
    non-empty overlap is enough for the [NameError]. *)
Lemma calculate_coverage_name_error_witness :
  after_imports Box.fresh !! "sgeom" = None /\
  calculate_coverage (after_imports Box.fresh)
      [Box.box_intersection Box.meadow Box.elsewhere; Box.lower_half] (6, 3)
      (bounds Box.meadow)
    = Raise (NameError "sgeom").
Proof.
  destruct (after_imports_modules (L := Box.stack) Box.fresh)
    as (Hrio & Hnp & Hrf).
  assert (Hsg : after_imports Box.fresh !! "sgeom" = None)
    by (rewrite after_imports_sgeom; reflexivity).
  split; [exact Hsg|].
  apply (calculate_coverage_name_error (L := Box.stack)).
  - exact Hsg.
  - exact Hrio.
  - exact Hnp.
  - exact Hrf.
  - lia.
  - lia.
  - apply Exists_cons_tl, Exists_cons_hd. vm_compute; reflexivity.
Defined.

(** C7.  Whenever [calculate_coverage] returns a grid, every cell lies
    between 0 and the number of non-empty overlaps: each overlap adds 0
    or 1 to a cell, whatever part of the cell it covers. *)
Theorem coverage_cells_bounded `{L : GeoStack} `{HL : !GeoLaws L}
    (G : gmap string value) (overlaps : list Geom) (dimensions : Z * Z)
    (bounds : Q * Q * Q * Q) (g : grid) :
  calculate_coverage G overlaps dimensions bounds = Ok g ->
  all_cells
    (fun c => 0 <= c <=
       Z.of_nat (length (filter (fun overlap => is_empty overlap = false) overlaps)))
    g.
Proof.
  intros H. rewrite (calculate_coverage_exact _ _ _ _ _ H).
  eapply Forall_impl; [apply grid_mod_cells, exact_coverage_cells|].
  intros row Hrow. eapply Forall_impl; [exact Hrow|]. intros c Hc. simpl in Hc. lia.
Qed.

(** The meadow, its lower half and an empty overlap, with [sgeom]
    bound: the cells hold 1 and 2, within the bound 2. *)
Lemma coverage_cells_bounded_witness :
  calculate_coverage (after_imports Box.with_both)
      [Box.meadow; Box.box_intersection Box.meadow Box.elsewhere; Box.lower_half]
      (3, 3) (bounds Box.meadow)
    = Ok [[1; 1; 1]; [1; 1; 1]; [2; 2; 2]] /\
  all_cells (fun c => 0 <= c <= 2) [[1; 1; 1]; [1; 1; 1]; [2; 2; 2]].
Proof.
  assert (H : calculate_coverage (after_imports Box.with_both)
      [Box.meadow; Box.box_intersection Box.meadow Box.elsewhere; Box.lower_half]
      (3, 3) (bounds Box.meadow)
    = Ok [[1; 1; 1]; [1; 1; 1]; [2; 2; 2]]) by (vm_compute; reflexivity).
  split; [exact H|].
  exact (coverage_cells_bounded (L := Box.stack) (HL := box_laws) _ _ _ _ _ H).
Defined.

Lemma cl_search_limit `{L : GeoStack} `{C : !Catalog} (name : string)
    (f : search_filter) (t : list string) (limit : Z) (items : list Item) :
  0 < limit ->
  cl_search name f t limit = Ok items -> Z.of_nat (length items) <= limit.
Proof.
  intros Hl. unfold cl_search. destruct (service_search name f t); simpl; [|discriminate].
  rewrite (proj2 (Z.eqb_neq limit 0)) by lia. unfold mret, res_ret.
  intros [= <-]. rewrite length_take. lia.
Qed.

(** C10.  The grid is a [uint16] array: a returned grid is the count of
    non-empty overlaps per cell reduced modulo 2^16, so every cell is
    below 2^16, and with at most 65535 overlaps it is the count itself.
    The overlaps of the items a search with [limit=500] returns never
    wrap. *)
Theorem coverage_uint16 `{L : GeoStack} `{HL : !GeoLaws L} `{C : !Catalog}
    (G : gmap string value) (dimensions : Z * Z) (bounds : Q * Q * Q * Q) :
  (forall (overlaps : list Geom) (g : grid),
     calculate_coverage G overlaps dimensions bounds = Ok g ->
     let exact :=
       exact_coverage dimensions (pixel_transform bounds dimensions) overlaps in
     g = grid_mod exact /\
     all_cells (fun c => 0 <= c < 65536) g /\
     (Z.of_nat (length overlaps) <= 65535 -> g = exact)) /\
  (forall name f t (items : list Item) (aoi_shape : Geom) (g : grid),
     cl_search name f t 500 = Ok items ->
     calculate_coverage G (get_overlap_shapes_utm items aoi_shape) dimensions bounds
       = Ok g ->
     g = exact_coverage dimensions (pixel_transform bounds dimensions)
           (get_overlap_shapes_utm items aoi_shape)).
Proof.
  assert (Hmain : forall (overlaps : list Geom) (g : grid),
     calculate_coverage G overlaps dimensions bounds = Ok g ->
     let exact :=
       exact_coverage dimensions (pixel_transform bounds dimensions) overlaps in
     g = grid_mod exact /\
     all_cells (fun c => 0 <= c < 65536) g /\
     (Z.of_nat (length overlaps) <= 65535 -> g = exact)).
  { intros overlaps g H exact.
    pose proof (calculate_coverage_exact _ _ _ _ _ H) as Hg. fold exact in Hg.
    pose proof (exact_coverage_cells dimensions
                  (pixel_transform bounds dimensions) overlaps) as Hcells.
    fold exact in Hcells.
    repeat split.
    - exact Hg.
    - rewrite Hg. eapply Forall_impl; [apply grid_mod_cells, Hcells|].
      intros row Hrow. eapply Forall_impl; [exact Hrow|].
      intros c Hc. simpl in Hc. lia.
    - intros Hlen. rewrite Hg. eapply grid_mod_small; [|exact Hcells].
      pose proof (length_filter (fun o : Geom => is_empty o = false) overlaps).
      lia. }
  split; [exact Hmain|].
  intros name f t items aoi_shape g Hs H.
  apply Hmain in H as (_ & _ & H). apply H.
  rewrite get_overlap_shapes_utm_length.
  apply cl_search_limit in Hs; lia.
Qed.

(** Two overlaps on a 3 by 3 grid: the array is the exact count. *)
Lemma coverage_uint16_witness :
  calculate_coverage (after_imports Box.with_both) [Box.meadow; Box.lower_half]
      (3, 3) (bounds Box.meadow)
    = Ok (exact_coverage (3, 3) (pixel_transform (bounds Box.meadow) (3, 3))
            [Box.meadow; Box.lower_half]).
Proof.
  assert (H : calculate_coverage (after_imports Box.with_both)
      [Box.meadow; Box.lower_half] (3, 3) (bounds Box.meadow)
    = Ok [[1; 1; 1]; [1; 1; 1]; [2; 2; 2]]) by (vm_compute; reflexivity).
  destruct (coverage_uint16 (L := Box.stack) (HL := box_laws)
              (C := Box.fixed_catalog [])
              (after_imports Box.with_both) (3, 3) (Box.box_bounds Box.meadow))
    as [Hmain _].
  destruct (Hmain _ _ H) as (_ & _ & Hexact).
  rewrite H. apply (f_equal Ok), Hexact. simpl. lia.
Defined.

(** With 65536 overlaps on the same cell the count wraps to 0. *)
Lemma coverage_wraps_at_65536 :
  calculate_coverage (after_imports Box.with_both)
      (replicate (Z.to_nat 65536) Box.meadow) (1, 1) (bounds Box.meadow) = Ok [[0]] /\
  calculate_coverage (after_imports Box.with_both)
      (replicate (Z.to_nat 65535) Box.meadow) (1, 1) (bounds Box.meadow) = Ok [[65535]].
Proof. split; vm_compute; reflexivity. Qed.

(** ** The run of the notebook *)

(** One step of the run: the cells and the statements are unfolded and
    the reads through the bindings of the run are resolved. *)
Ltac kstep :=
  cbv beta iota zeta delta
    [run_all run_cells notebook cell_imports cell_aoi cell_request cell_show_request
     cell_project cell_dimensions cell_auth cell_search cell_show_items
     cell_overlaps cell_show_overlap cell_coverage_lowres cell_plot cell_demo_aoi
     cell_search_2016 cell_plot_2016 cell_search_2017 cell_plot_2017
     cell_search_year run_search cache_overlaps call_calculate_coverage
     plot_overlaps plot_coverage open_client import_all notebook_imports
     assign read emit lift namespace global
     read_geojson read_shape read_filter read_strings read_partial
     read_dimensions read_items read_shapes
     mbind mret K_bind K_ret fst snd globals outputs];
  lookup_globals.

(** C8, as the code has it.  When the AOI in UTM is below the minimum
    size, the run stops at the sizing cell (cell 6) or before: it has
    made no item search and computed no coverage grid; the only catalog
    call it can have made is the creation of the saved search. *)
Theorem size_check_aborts_before_search `{L : GeoStack} `{C : !Catalog}
    (aoi : GeoJSON) (G : gmap string value) (e : pyerr) :
  get_coverage_dimensions
    (shapely_transform (call_partial (get_utm_projection_fcn (shape aoi)))
       (shape aoi)) = Raise e ->
  exists k n e', run_all aoi G = (k, Aborted n e') /\ (n <= 6)%nat /\
                 Forall before_search (outputs k).
Proof.
  intros Hd. kstep.
  destruct (G !! "data_filter") as [df|] eqn:Hdf.
  2:{ eexists _, _, _. split; [reflexivity|]. split; [lia|]. constructor. }
  lookup_globals.
  destruct (service_create_search _ _ _) as [request|err].
  2:{ eexists _, _, _. split; [reflexivity|]. split; [lia|].
      repeat constructor. }
  lookup_globals. rewrite Hd. lookup_globals.
  eexists _, _, _. split; [reflexivity|]. split; [lia|].
  repeat constructor.
Qed.

(** An AOI of 10 m by 10 m, in a kernel where [data_filter] is bound. *)
Lemma size_check_aborts_before_search_witness :
  exists k n e',
    run_all (C := Box.fixed_catalog []) Box.tiny Box.with_data_filter
      = (k, Aborted n e') /\ (n <= 6)%nat /\ Forall before_search (outputs k).
Proof.
  apply (size_check_aborts_before_search (L := Box.stack)
           (C := Box.fixed_catalog []) Box.tiny Box.with_data_filter
           (Exception "AOI height too small, should be 27m.")).
  vm_compute. reflexivity.
Defined.

(** C8 as worded fails on the code.  In a kernel where [data_filter] is
    bound, an AOI of 10 m by 10 m is refused at cell 6 after the catalog
    was called to create the saved search; and an AOI at latitude 89,
    which zone selection refuses, is never refused by the run: the item
    search is made. *)
Lemma catalog_call_before_size_check :
  (snd (run_all (C := Box.fixed_catalog []) Box.tiny Box.with_data_filter)
     = Aborted 6 (Exception "AOI height too small, should be 27m.") /\
   existsb (calls "create_search")
     (outputs (fst (run_all (C := Box.fixed_catalog []) Box.tiny
                      Box.with_data_filter))) = true) /\
  (_get_utm_zone Box.polar
     = Raise (Exception "UTM Zones only valid within [-80, 84] latitude") /\
   snd (run_all (C := Box.fixed_catalog []) Box.polar Box.with_data_filter)
     = Aborted 11 IndexError /\
   existsb (calls "search")
     (outputs (fst (run_all (C := Box.fixed_catalog []) Box.polar
                      Box.with_data_filter))) = true).
Proof. repeat split; vm_compute; reflexivity. Qed.

(** In a fresh kernel the run stops at the third cell: [data_filter] is
    not imported, and nothing has been shown. *)
Lemma run_fresh_kernel `{L : GeoStack} `{C : !Catalog} (aoi : GeoJSON)
    (G : gmap string value) :
  G !! "data_filter" = None ->
  exists k, run_all aoi G = (k, Aborted 3 (NameError "data_filter")) /\
            outputs k = [].
Proof.
  intros Hdf. kstep. rewrite Hdf. eexists. split; reflexivity.
Qed.

(** [calculate_coverage] reads four names of the namespace and nothing
    else of it. *)
Lemma calculate_coverage_ext `{L : GeoStack} (G G' : gmap string value)
    (overlaps : list Geom) (dimensions : Z * Z) (bounds : Q * Q * Q * Q) :
  G' !! "rasterio" = G !! "rasterio" -> G' !! "np" = G !! "np" ->
  G' !! "rfeatures" = G !! "rfeatures" -> G' !! "sgeom" = G !! "sgeom" ->
  calculate_coverage G' overlaps dimensions bounds =
    calculate_coverage G overlaps dimensions bounds.
Proof.
  intros H1 H2 H3 H4.
  assert (Hacc : forall t coverage,
            accumulate G' dimensions t overlaps coverage =
              accumulate G dimensions t overlaps coverage).
  { intros t. induction overlaps as [|overlap overlaps IH]; intros coverage;
      simpl; [reflexivity|].
    unfold global. rewrite H3, H4, !IH. reflexivity. }
  destruct bounds as [[[minx miny] maxx] maxy], dimensions as [rows cols].
  unfold calculate_coverage, global, np_zeros. rewrite H1, H2.
  destruct (py_truediv _ cols); simpl; [|reflexivity].
  destruct (py_truediv _ rows); simpl; [|reflexivity].
  destruct (G !! "rasterio"); simpl; [|reflexivity].
  destruct (G !! "np"); simpl; [|reflexivity].
  destruct ((rows <? 0) || (cols <? 0)); simpl; [reflexivity|].
  apply Hacc.
Qed.

(** *** Two runs side by side *)

Section Respects.
Context `{L : GeoStack} `{C : !Catalog}.
Implicit Types (W : list string) (k : kernel).

Lemma respects_ret {A} W (a : A) : respects W W (mret a).
Proof. intros k k' Hs. repeat split; try apply Hs. Qed.

Lemma respects_lift {A} W (r : res A) : respects W W (lift r).
Proof. intros k k' Hs. repeat split; try apply Hs. Qed.

Lemma respects_bind {A B} W W1 W2 (m : K A) (f : A -> K B) :
  respects W W1 m -> (forall a, respects W1 W2 (f a)) ->
  respects W W2 (m ≫= f).
Proof.
  intros Hm Hf k k' Hs. destruct (Hm k k' Hs) as (Hr & Ho & Hk).
  unfold mbind, K_bind.
  destruct (m k) as [k1 [a|e]], (m k') as [k1' [a'|e']]; simpl in *;
    try discriminate.
  - injection Hr as <-. apply (Hf a), (Hk a eq_refl).
  - injection Hr as <-. split; [reflexivity|]. split; [exact Ho | discriminate].
Qed.

Lemma respects_assign W (name : string) (v : value) :
  respects W (name :: W) (assign name v).
Proof.
  intros k k' [Ho Hg]. repeat split; simpl; try exact Ho.
  intros x Hx. destruct (decide (name = x)) as [-> | Hne].
  - rewrite !lookup_insert_eq. reflexivity.
  - rewrite !lookup_insert_ne by exact Hne.
    apply Hg. apply elem_of_cons in Hx as [-> | Hx]; [contradiction | exact Hx].
Qed.

Lemma respects_read W (name : string) :
  name ∈ W -> respects W W (read name).
Proof.
  intros Hn k k' Hs. unfold read, global. simpl.
  rewrite (proj2 Hs name Hn). repeat split; try apply Hs.
Qed.

Lemma respects_emit W (ev : event) : respects W W (emit ev).
Proof.
  intros k k' [Ho Hg]. repeat split; simpl; try congruence. exact Hg.
Qed.

(** The namespace is handed to [calculate_coverage] only. *)
Lemma respects_coverage W (overlaps : list Geom) (dimensions : Z * Z)
    (b : Q * Q * Q * Q) :
  "rasterio" ∈ W -> "np" ∈ W -> "rfeatures" ∈ W -> "sgeom" ∈ W ->
  respects W W
    (G ← namespace; lift (calculate_coverage G overlaps dimensions b)).
Proof.
  intros H1 H2 H3 H4 k k' [Ho Hg]. unfold mbind, K_bind, namespace, lift. simpl.
  rewrite (calculate_coverage_ext (globals k') (globals k)) by auto.
  repeat split; auto.
Qed.

Lemma respects_weaken {A} W W1 W2 (c : K A) :
  respects W W1 c -> (forall x, x ∈ W2 -> x ∈ W1) -> respects W W2 c.
Proof.
  intros Hc Hsub k k' Hs. destruct (Hc k k' Hs) as (Hr & Ho & Hk).
  repeat split; [exact Hr | exact Ho | apply (Hk a H) |].
  intros x Hx. apply (Hk a H), Hsub, Hx.
Qed.

Lemma respects_all_run W (cells : list (K unit)) :
  respects_all W cells ->
  forall k k' n, sim W k k' ->
    snd (run_cells cells n k) = snd (run_cells cells n k') /\
    outputs (fst (run_cells cells n k)) = outputs (fst (run_cells cells n k')).
Proof.
  induction 1 as [W | W W' c cells Hc _ IH]; intros k k' n Hs; simpl.
  - split; [reflexivity | apply Hs].
  - destruct (Hc k k' Hs) as (Hr & Ho & Hk).
    destruct (c k) as [k1 [[]|e]], (c k') as [k1' [[]|e']]; simpl in *;
      try discriminate.
    + apply IH, (Hk tt eq_refl).
    + split; [congruence | exact Ho].
Qed.

End Respects.

Section Respects_reads.
Context `{L : GeoStack} `{C : !Catalog}.
Implicit Types (W : list string) (k : kernel).

Ltac typed_read :=
  intros Hn; eapply respects_bind; [apply respects_read, Hn|];
  intros []; first [apply respects_ret | apply respects_lift].

Lemma respects_read_geojson W name : name ∈ W -> respects W W (read_geojson name).
Proof. typed_read. Qed.
Lemma respects_read_shape W name : name ∈ W -> respects W W (read_shape name).
Proof. typed_read. Qed.
Lemma respects_read_filter W name : name ∈ W -> respects W W (read_filter name).
Proof. typed_read. Qed.
Lemma respects_read_strings W name : name ∈ W -> respects W W (read_strings name).
Proof. typed_read. Qed.
Lemma respects_read_partial W name : name ∈ W -> respects W W (read_partial name).
Proof. typed_read. Qed.
Lemma respects_read_dimensions W name :
  name ∈ W -> respects W W (read_dimensions name).
Proof. typed_read. Qed.
Lemma respects_read_items W name : name ∈ W -> respects W W (read_items name).
Proof. typed_read. Qed.
Lemma respects_read_shapes W name : name ∈ W -> respects W W (read_shapes name).
Proof. typed_read. Qed.

End Respects_reads.

Ltac member := apply (bool_decide_unpack _); vm_compute; exact I.

Ltac head_of t := lazymatch t with ?f _ => head_of f | _ => t end.

(** Walks a cell statement by statement, collecting the names bound. *)
Ltac respect :=
  lazymatch goal with
  | |- respects _ _ (namespace ≫= _) => apply respects_coverage; member
  | |- respects _ _ (_ ≫= _) =>
      eapply respects_bind; [ respect | intros ?; respect ]
  | |- respects _ _ (assign _ _) => apply respects_assign
  | |- respects _ _ (read _) => apply respects_read; member
  | |- respects _ _ (read_geojson _) => apply respects_read_geojson; member
  | |- respects _ _ (read_shape _) => apply respects_read_shape; member
  | |- respects _ _ (read_filter _) => apply respects_read_filter; member
  | |- respects _ _ (read_strings _) => apply respects_read_strings; member
  | |- respects _ _ (read_partial _) => apply respects_read_partial; member
  | |- respects _ _ (read_dimensions _) => apply respects_read_dimensions; member
  | |- respects _ _ (read_items _) => apply respects_read_items; member
  | |- respects _ _ (read_shapes _) => apply respects_read_shapes; member
  | |- respects _ _ (emit _) => apply respects_emit
  | |- respects _ _ (lift _) => apply respects_lift
  | |- respects _ _ (mret _) => apply respects_ret
  | |- respects _ _ (import_all _) => cbn [import_all notebook_imports]; respect
  | |- respects _ _ (match ?o with _ => _ end) => destruct o; respect
  | |- respects _ _ ?c => let h := head_of c in unfold h; respect
  end.

(** *** Names the notebook never binds *)

Section Untouched.
Context `{L : GeoStack} `{C : !Catalog}.

Lemma untouched_ret {A} name (a : A) : untouched name (mret a).
Proof. intros k. reflexivity. Qed.

Lemma untouched_lift {A} name (r : res A) : untouched name (lift r).
Proof. intros k. reflexivity. Qed.

Lemma untouched_read name x : untouched name (read x).
Proof. intros k. reflexivity. Qed.

Lemma untouched_namespace name : untouched name namespace.
Proof. intros k. reflexivity. Qed.

Lemma untouched_emit name ev : untouched name (emit ev).
Proof. intros k. reflexivity. Qed.

Lemma untouched_assign name x v : x <> name -> untouched name (assign x v).
Proof. intros Hne k. simpl. apply lookup_insert_ne, Hne. Qed.

Lemma untouched_bind {A B} name (m : K A) (f : A -> K B) :
  untouched name m -> (forall a, untouched name (f a)) ->
  untouched name (m ≫= f).
Proof.
  intros Hm Hf k. unfold mbind, K_bind. specialize (Hm k).
  destruct (m k) as [k1 [a|e]]; simpl in *; [|exact Hm].
  rewrite (Hf a k1). exact Hm.
Qed.

Lemma untouched_run name (cells : list (K unit)) :
  Forall (untouched name) cells ->
  forall k n, globals (fst (run_cells cells n k)) !! name = globals k !! name.
Proof.
  induction 1 as [|c cells Hc _ IH]; intros k n; simpl; [reflexivity|].
  specialize (Hc k). destruct (c k) as [k1 [[]|e]]; simpl in *; [|exact Hc].
  rewrite IH. exact Hc.
Qed.

End Untouched.

Ltac untouch :=
  lazymatch goal with
  | |- untouched _ (_ ≫= _) =>
      apply untouched_bind; [ untouch | intros ?; untouch ]
  | |- untouched _ (assign _ _) => apply untouched_assign; discriminate
  | |- untouched _ (read _) => apply untouched_read
  | |- untouched _ namespace => apply untouched_namespace
  | |- untouched _ (emit _) => apply untouched_emit
  | |- untouched _ (lift _) => apply untouched_lift
  | |- untouched _ (mret _) => apply untouched_ret
  | |- untouched _ (import_all _) => cbn [import_all notebook_imports]; untouch
  | |- untouched _ (match ?o with _ => _ end) => destruct o; untouch
  | |- untouched _ ?c => let h := head_of c in unfold h; untouch
  end.

Section Determinism.
Context `{L : GeoStack} `{C : !Catalog}.

Lemma notebook_respects (aoi : GeoJSON) :
  respects_all ["data_filter"; "sgeom"] (notebook aoi).
Proof.
  unfold notebook. repeat (eapply respects_cons; [respect|]).
  apply respects_nil.
Qed.

(** No cell binds [data_filter] or [sgeom]. *)
Lemma notebook_untouched (aoi : GeoJSON) (name : string) :
  name = "data_filter" \/ name = "sgeom" ->
  Forall (untouched name) (notebook aoi).
Proof.
  unfold notebook. intros [-> | ->]; repeat (constructor; [untouch|]);
    constructor.
Qed.

Lemma run_all_untouched (aoi : GeoJSON) (G : gmap string value) (name : string) :
  name = "data_filter" \/ name = "sgeom" ->
  globals (fst (run_all aoi G)) !! name = G !! name.
Proof.
  intros Hn. unfold run_all. rewrite untouched_run by apply notebook_untouched, Hn.
  reflexivity.
Qed.

(** What a run shows and how it ends depend on the kernel it starts
    in only through the bindings of [data_filter] and [sgeom]. *)
Lemma run_all_frame (aoi : GeoJSON) (G G' : gmap string value) :
  G' !! "data_filter" = G !! "data_filter" ->
  G' !! "sgeom" = G !! "sgeom" ->
  snd (run_all aoi G') = snd (run_all aoi G) /\
  outputs (fst (run_all aoi G')) = outputs (fst (run_all aoi G)).
Proof.
  intros Hdf Hsg. unfold run_all.
  apply (respects_all_run _ _ (notebook_respects aoi)).
  split; [reflexivity|]. simpl. intros name Hn.
  apply elem_of_cons in Hn as [-> | Hn]; [exact Hdf|].
  apply elem_of_cons in Hn as [-> | Hn]; [exact Hsg|].
  apply elem_of_nil in Hn. destruct Hn.
Qed.

End Determinism.

(** C9.  Running the notebook a second time, in the kernel the first
    run left behind and on the same AOI and catalog answers, ends the
    same way and shows the same output, coverage grids included. *)
Theorem run_twice_same `{L : GeoStack} `{C : !Catalog}
    (aoi : GeoJSON) (G : gmap string value) :
  let first := run_all aoi G in
  let second := run_all aoi (globals (fst first)) in
  snd second = snd first /\ outputs (fst second) = outputs (fst first).
Proof.
  intros first second. apply run_all_frame; apply run_all_untouched; auto.
Qed.

(** A run that computes its grids: a 27 m square AOI, two footprints,
    in a kernel where [data_filter] and [sgeom] are bound. *)
Lemma run_completes :
  let items := [ {| item_id := "full"; item_geometry := Box.square27 |};
                 {| item_id := "half";
                    item_geometry := {| Box.x0 := 0; Box.y0 := 0;
                                        Box.x1 := 0.00027; Box.y1 := 0.00013 |} |} ] in
  let run := run_all (C := Box.fixed_catalog items) Box.square27 Box.with_both in
  snd run = Completed /\
  grids_shown (outputs (fst run))
    = [ [[1; 1; 1]; [1; 1; 1]; [1; 1; 1]; [2; 2; 2]; [2; 2; 2]; [2; 2; 2]];
        [[1; 1; 1]; [1; 1; 1]; [2; 2; 2]];
        [[1; 1; 1]; [1; 1; 1]; [2; 2; 2]];
        [[1; 1; 1]; [1; 1; 1]; [2; 2; 2]] ].
Proof. split; vm_compute; reflexivity. Qed.

(** * Further properties of the notebook's code *)

(** ** Grid Sizer *)



(** Every grid the sizer returns has between 3 and 3000 rows and
    between 3 and 3000 columns, whatever the bounds: the rounding of the
    float division cannot bring a side of 27 or more below 3 cells. *)
Theorem get_coverage_dimensions_binary64_range {Geom : Type}
    (bounds : Geom -> float * float * float * float) (g : Geom) (rows cols : Z) :
  Binary64.get_coverage_dimensions bounds g = Ok (rows, cols) ->
  3 <= rows <= 3000 /\ 3 <= cols <= 3000.
Proof.
  destruct (bounds g) as [[[minx miny] maxx] maxy] eqn:Hb.
  rewrite (get_coverage_dimensions_binary64_eq bounds g _ _ _ _ Hb).
  destruct (maxy - miny <? 27)%float eqn:Hh; [discriminate|].
  destruct (maxx - minx <? 27)%float eqn:Hw; [discriminate|].
  destruct (finite_float (maxy - miny)) eqn:Fh.
  2:{ destruct (dim_not_finite _ Fh Hh) as [-> | ->]; discriminate. }
  destruct (dim_binary64 _ Fh Hh) as [-> H3h].
  destruct (finite_float (maxx - minx)) eqn:Fw.
  2:{ destruct (dim_not_finite _ Fw Hw) as [-> | ->]; discriminate. }
  destruct (dim_binary64 _ Fw Hw) as [-> H3w].
  cbn. intros H.
  assert (rows = Z.min (float_floor ((maxy - miny) / 9)) 3000) by congruence.
  assert (cols = Z.min (float_floor ((maxx - minx) / 9)) 3000) by congruence.
  lia.
Qed.

(** The box whose width is 27 only after rounding. *)
Lemma get_coverage_dimensions_binary64_range_witness :
  Binary64.dimensions_of (0x1.999999999999ap-3, 0, 0x1.b333333333333p+4, 27)%float
    = Ok (3, 3) /\
  (3 <= 3 <= 3000 /\ 3 <= 3 <= 3000).
Proof.
  assert (H : Binary64.dimensions_of
                (0x1.999999999999ap-3, 0, 0x1.b333333333333p+4, 27)%float
              = Ok (3, 3)) by (vm_compute; reflexivity).
  split; [exact H|].
  exact (get_coverage_dimensions_binary64_range (fun b => b) _ 3 3 H).
Defined.

(** The number of cells along a side does not decrease with the side. *)
Lemma dim_monotone (length1 length2 : float) (n1 n2 : Z) :
  Binary64.py_int (length1 / 9) = Ok n1 ->
  Binary64.py_int (length2 / 9) = Ok n2 ->
  (length1 <=? length2)%float = true -> n1 <= n2.
Proof.
  intros H1 H2 Hle.
  pose proof (py_int_finite _ _ H1) as Q1. pose proof (py_int_finite _ _ H2) as Q2.
  pose proof (div_finite_inv _ 9 5066549580791808 (-49) eq_refl Q1) as F1.
  pose proof (div_finite_inv _ 9 5066549580791808 (-49) eq_refl Q2) as F2.
  assert (Hw : within length1 length1 length2).
  { split; [assumption|]. split; [lia|].
    rewrite leb_units in Hle by (apply finite_float_number; assumption).
    apply Z.leb_le, Hle. }
  apply (within_div _ _ _ 9 5066549580791808 (-49)) in Hw;
    try assumption; try reflexivity; [|lia].
  destruct (py_int_within _ _ _ n1 n2 Hw Q1 Q2 H1 H2) as (n & Hn & Hrange).
  assert (n = n1) by congruence. lia.
Qed.

(** Of two areas the sizer accepts, the one that is at least as high
    gets at least as many rows, and the one that is at least as wide at
    least as many columns: the rounded division and the truncation keep
    the order of the sides. *)
Theorem get_coverage_dimensions_binary64_monotone {Geom : Type}
    (bounds : Geom -> float * float * float * float) (g1 g2 : Geom)
    (minx1 miny1 maxx1 maxy1 minx2 miny2 maxx2 maxy2 : float)
    (rows1 cols1 rows2 cols2 : Z) :
  bounds g1 = (minx1, miny1, maxx1, maxy1) ->
  bounds g2 = (minx2, miny2, maxx2, maxy2) ->
  Binary64.get_coverage_dimensions bounds g1 = Ok (rows1, cols1) ->
  Binary64.get_coverage_dimensions bounds g2 = Ok (rows2, cols2) ->
  ((maxy1 - miny1 <=? maxy2 - miny2)%float = true -> rows1 <= rows2) /\
  ((maxx1 - minx1 <=? maxx2 - minx2)%float = true -> cols1 <= cols2).
Proof.
  intros Hb1 Hb2.
  rewrite (get_coverage_dimensions_binary64_eq bounds g1 _ _ _ _ Hb1).
  rewrite (get_coverage_dimensions_binary64_eq bounds g2 _ _ _ _ Hb2).
  destruct (maxy1 - miny1 <? 27)%float; [discriminate|].
  destruct (maxx1 - minx1 <? 27)%float; [discriminate|].
  destruct (maxy2 - miny2 <? 27)%float; [intros _; discriminate|].
  destruct (maxx2 - minx2 <? 27)%float; [intros _; discriminate|].
  destruct (Binary64.py_int ((maxy1 - miny1) / 9)) as [h1|] eqn:Eh1; [|discriminate].
  destruct (Binary64.py_int ((maxx1 - minx1) / 9)) as [w1|] eqn:Ew1; [|discriminate].
  destruct (Binary64.py_int ((maxy2 - miny2) / 9)) as [h2|] eqn:Eh2;
    [|intros _; discriminate].
  destruct (Binary64.py_int ((maxx2 - minx2) / 9)) as [w2|] eqn:Ew2;
    [|intros _; discriminate].
  cbn. intros R1 R2.
  assert (rows1 = Z.min h1 3000) by congruence.
  assert (cols1 = Z.min w1 3000) by congruence.
  assert (rows2 = Z.min h2 3000) by congruence.
  assert (cols2 = Z.min w2 3000) by congruence.
  split; intros Hle.
  - pose proof (dim_monotone _ _ _ _ Eh1 Eh2 Hle). lia.
  - pose proof (dim_monotone _ _ _ _ Ew1 Ew2 Hle). lia.
Qed.

(** A field of 50 m by 100 m and one of 100 m by 100 m. *)
Lemma get_coverage_dimensions_binary64_monotone_witness :
  Binary64.dimensions_of (0, 0, 100, 50)%float = Ok (5, 11) /\
  Binary64.dimensions_of (0, 0, 100, 100)%float = Ok (11, 11) /\
  5 <= 11 /\ 11 <= 11.
Proof.
  assert (H1 : Binary64.dimensions_of (0, 0, 100, 50)%float = Ok (5, 11))
    by (vm_compute; reflexivity).
  assert (H2 : Binary64.dimensions_of (0, 0, 100, 100)%float = Ok (11, 11))
    by (vm_compute; reflexivity).
  split; [exact H1|]. split; [exact H2|].
  destruct (get_coverage_dimensions_binary64_monotone (fun b => b)
              (0, 0, 100, 50)%float (0, 0, 100, 100)%float
              0 0 100 50 0 0 100 100 5 11 11 11 eq_refl eq_refl H1 H2) as [Hr Hc].
  split; [apply Hr | apply Hc]; vm_compute; reflexivity.
Defined.

(** ** UTM zone selection *)

(** The longitude of a centroid that got a zone is finite. *)
Lemma zone_longitude_finite (lon : float) (zone : Z) :
  Binary64.py_int ((lon + 180) / 6 + 1) = Ok zone -> finite_float lon = true.
Proof.
  intros H. apply py_int_finite in H. apply add_finite_inv in H.
  apply (div_finite_inv _ 6 6755399441055744 (-50)) in H; [|reflexivity].
  apply add_finite_inv in H. exact H.
Qed.

Lemma zone_steps_finite (lon : float) (zone : Z) :
  Binary64.py_int ((lon + 180) / 6 + 1) = Ok zone ->
  finite_float lon = true /\ finite_float (lon + 180) = true /\
  finite_float ((lon + 180) / 6) = true /\ finite_float ((lon + 180) / 6 + 1) = true.
Proof.
  intros H. apply py_int_finite in H.
  pose proof (add_finite_inv _ _ H) as H2.
  pose proof (div_finite_inv _ 6 6755399441055744 (-50) eq_refl H2) as H3.
  pose proof (add_finite_inv _ _ H3) as H4. auto.
Qed.

(** The zone does not decrease with the longitude. *)
Lemma zone_monotone (lon1 lon2 : float) (z1 z2 : Z) :
  Binary64.py_int ((lon1 + 180) / 6 + 1) = Ok z1 ->
  Binary64.py_int ((lon2 + 180) / 6 + 1) = Ok z2 ->
  units lon1 <= units lon2 -> z1 <= z2.
Proof.
  intros H1 H2 Hle.
  destruct (zone_steps_finite _ _ H1) as (A1 & B1 & C1 & D1).
  destruct (zone_steps_finite _ _ H2) as (A2 & B2 & C2 & D2).
  assert (Hw : within lon1 lon1 lon2) by (split; [assumption | lia]).
  apply zone_float_within in Hw; try assumption.
  destruct (py_int_within _ _ _ z1 z2 Hw D1 D2 H1 H2) as (n & Hn & Hrange).
  assert (n = z1) by congruence. lia.
Qed.

Lemma _get_utm_zone_binary64_value {GeoJSON Geom : Type} (shape : GeoJSON -> Geom)
    (centroid : Geom -> float * float) (geom : GeoJSON) (zone : Z) (h : hemisphere) :
  Binary64._get_utm_zone shape centroid geom = Ok (zone, h) ->
  Binary64.py_int ((fst (centroid (shape geom)) + 180) / 6 + 1) = Ok zone.
Proof.
  rewrite _get_utm_zone_binary64_eq. cbv zeta.
  destruct (_ || _); [discriminate|].
  destruct (Binary64.py_int _) as [n|e]; [|discriminate].
  cbn. intros H. congruence.
Qed.

(** Of two centroids that get a zone, the one further east does not get
    the smaller zone: the three rounded operations of the formula keep
    the order of the longitudes. *)
Theorem _get_utm_zone_binary64_monotone {GeoJSON Geom : Type}
    (shape : GeoJSON -> Geom) (centroid : Geom -> float * float)
    (geom1 geom2 : GeoJSON) (z1 z2 : Z) (h1 h2 : hemisphere) :
  Binary64._get_utm_zone shape centroid geom1 = Ok (z1, h1) ->
  Binary64._get_utm_zone shape centroid geom2 = Ok (z2, h2) ->
  (fst (centroid (shape geom1)) <=? fst (centroid (shape geom2)))%float = true ->
  z1 <= z2.
Proof.
  intros H1 H2 Hle.
  apply _get_utm_zone_binary64_value in H1, H2.
  apply (zone_monotone _ _ _ _ H1 H2).
  destruct (leb_number _ _ Hle) as [N1 N2].
  rewrite leb_units in Hle by assumption. apply Z.leb_le, Hle.
Qed.

(** A centroid west of Cary, NC, in zone 16, and one in zone 17. *)
Lemma _get_utm_zone_binary64_monotone_witness :
  Binary64.zone_of (-90) 35.75 = Ok (16, north) /\
  Binary64.zone_of (-78.75) 35.75 = Ok (17, north) /\
  16 <= 17.
Proof.
  assert (H1 : Binary64.zone_of (-90) 35.75 = Ok (16, north))
    by (vm_compute; reflexivity).
  assert (H2 : Binary64.zone_of (-78.75) 35.75 = Ok (17, north))
    by (vm_compute; reflexivity).
  split; [exact H1|]. split; [exact H2|].
  apply (_get_utm_zone_binary64_monotone (fun g => g) (fun g => g)
           (-90, 35.75)%float (-78.75, 35.75)%float 16 17 north north H1 H2).
  vm_compute. reflexivity.
Defined.

(** Between a positive float and a larger one lies at least the
    spacing of the floats at the smaller one; and the mirror image for
    negative floats. *)
Lemma float_gap_above (a x : float) (ma : positive) (ea : Z) :
  Prim2SF a = S754_finite false ma ea -> finite_float x = true ->
  units a < units x -> units a + 2 ^ (ea + 1074) <= units x.
Proof.
  intros Ha Hx. unfold finite_float, units in *. rewrite Ha.
  pose proof (Prim2SF_valid a) as Va. rewrite Ha in Va.
  pose proof (Prim2SF_valid x) as Vx.
  pose proof (valid_units_pos _ _ _ Va) as Pa.
  destruct (Prim2SF x) as [s|s| |s m e]; try discriminate Hx;
    cbn [SF_units cond_Zopp]; [lia|].
  pose proof (valid_units_pos _ _ _ Vx) as Px.
  destruct s; cbn [cond_Zopp]; [lia|]. intros Hlt.
  destruct (Z_lt_le_dec e ea) as [He | He].
  { pose proof (valid_exp_lt _ _ _ _ _ _ Vx Va He). lia. }
  apply valid_finite in Va as [Hea _].
  pose proof (pow2_pos (ea + 1074) ltac:(lia)) as HU.
  assert (E : 2 ^ (e + 1074) = 2 ^ (e - ea) * 2 ^ (ea + 1074))
    by (rewrite <- Z.pow_add_r by lia; f_equal; lia).
  rewrite E in *. pose proof (pow2_pos (e - ea) ltac:(lia)) as HK.
  set (U := 2 ^ (ea + 1074)) in *. set (K := 2 ^ (e - ea)) in *.
  assert (Z.pos ma < Z.pos m * K) by nia. nia.
Qed.

Lemma float_gap_below (a x : float) (ma : positive) (ea : Z) :
  Prim2SF a = S754_finite true ma ea -> finite_float x = true ->
  units x < units a -> units x <= units a - 2 ^ (ea + 1074).
Proof.
  intros Ha Hx. unfold finite_float, units in *. rewrite Ha.
  pose proof (Prim2SF_valid a) as Va. rewrite Ha in Va.
  pose proof (Prim2SF_valid x) as Vx.
  pose proof (valid_units_pos _ _ _ Va) as Pa.
  destruct (Prim2SF x) as [s|s| |s m e]; try discriminate Hx;
    cbn [SF_units cond_Zopp]; [lia|].
  pose proof (valid_units_pos _ _ _ Vx) as Px.
  destruct s; cbn [cond_Zopp]; [|lia]. intros Hlt.
  destruct (Z_lt_le_dec e ea) as [He | He].
  { pose proof (valid_exp_lt _ _ _ _ _ _ Vx Va He). lia. }
  apply valid_finite in Va as [Hea _].
  pose proof (pow2_pos (ea + 1074) ltac:(lia)) as HU.
  assert (E : 2 ^ (e + 1074) = 2 ^ (e - ea) * 2 ^ (ea + 1074))
    by (rewrite <- Z.pow_add_r by lia; f_equal; lia).
  rewrite E in *. pose proof (pow2_pos (e - ea) ltac:(lia)) as HK.
  set (U := 2 ^ (ea + 1074)) in *. set (K := 2 ^ (e - ea)) in *.
  assert (Z.pos ma < Z.pos m * K) by nia. nia.
Qed.

(** Zone selection does not check the longitude.  Of the centroids that
    get a zone, those with a zone of the UTM grid (1 to 60) are exactly
    those with a longitude from -180 to 179.99999999999994
    ([0x1.67ffffffffffep+7], the second float below 180). *)
Theorem _get_utm_zone_binary64_valid_iff {GeoJSON Geom : Type}
    (shape : GeoJSON -> Geom) (centroid : Geom -> float * float)
    (geom : GeoJSON) (zone : Z) (h : hemisphere) :
  let lon := fst (centroid (shape geom)) in
  Binary64._get_utm_zone shape centroid geom = Ok (zone, h) ->
  (1 <= zone <= 60 <->
   (-180 <=? lon)%float = true /\ (lon <=? 0x1.67ffffffffffep+7)%float = true).
Proof.
  intros lon H. apply _get_utm_zone_binary64_value in H. fold lon in H.
  pose proof (zone_longitude_finite _ _ H) as Hf.
  pose proof (finite_float_number _ Hf) as Hn.
  rewrite !leb_units by (try assumption; vm_compute; discriminate).
  rewrite !Z.leb_le. split.
  - intros [Hlo Hhi]. split.
    + destruct (Z_le_gt_dec (units (-180)) (units lon)) as [|Hlt]; [assumption|].
      exfalso.
      pose proof (float_gap_below (-180) lon 6333186975989760 (-45) eq_refl Hf
                    ltac:(lia)) as Hgap.
      assert (Hle : units lon <= units (-0x1.6800000000001p+7)).
      { replace (units (-0x1.6800000000001p+7))
          with (units (-180) - 2 ^ (-45 + 1074)) by (vm_compute; reflexivity).
        exact Hgap. }
      assert (Hz : Binary64.py_int ((-0x1.6800000000001p+7 + 180) / 6 + 1) = Ok 0)
        by (vm_compute; reflexivity).
      pose proof (zone_monotone lon (-0x1.6800000000001p+7) _ _ H Hz Hle). lia.
    + destruct (Z_le_gt_dec (units lon) (units 0x1.67ffffffffffep+7)) as [|Hgt];
        [assumption|].
      exfalso.
      pose proof (float_gap_above 0x1.67ffffffffffep+7 lon 6333186975989758 (-45)
                    eq_refl Hf ltac:(lia)) as Hgap.
      assert (Hle : units 0x1.67fffffffffffp+7 <= units lon).
      { replace (units 0x1.67fffffffffffp+7)
          with (units 0x1.67ffffffffffep+7 + 2 ^ (-45 + 1074))
          by (vm_compute; reflexivity).
        exact Hgap. }
      assert (Hz : Binary64.py_int ((0x1.67fffffffffffp+7 + 180) / 6 + 1) = Ok 61)
        by (vm_compute; reflexivity).
      pose proof (zone_monotone 0x1.67fffffffffffp+7 lon _ _ Hz H Hle). lia.
  - intros [Hlo Hhi].
    assert (Hz1 : Binary64.py_int ((-180 + 180) / 6 + 1) = Ok 1)
      by (vm_compute; reflexivity).
    assert (Hz60 : Binary64.py_int ((0x1.67ffffffffffep+7 + 180) / 6 + 1) = Ok 60)
      by (vm_compute; reflexivity).
    pose proof (zone_monotone (-180) lon _ _ Hz1 H Hlo).
    pose proof (zone_monotone lon 0x1.67ffffffffffep+7 _ _ H Hz60 Hhi). lia.
Qed.

(** At 179.99999999999997, the float next below 180, the zone is 61. *)
Lemma _get_utm_zone_binary64_valid_iff_witness :
  Binary64.zone_of 0x1.67fffffffffffp+7 10 = Ok (61, north) /\
  (1 <= 61 <= 60 <->
   (-180 <=? 0x1.67fffffffffffp+7)%float = true /\
   (0x1.67fffffffffffp+7 <=? 0x1.67ffffffffffep+7)%float = true).
Proof.
  assert (H : Binary64.zone_of 0x1.67fffffffffffp+7 10 = Ok (61, north))
    by (vm_compute; reflexivity).
  split; [exact H|].
  exact (_get_utm_zone_binary64_valid_iff (fun g => g) (fun g => g)
           (0x1.67fffffffffffp+7, 10)%float 61 north H).
Defined.

(** ** Coverage Rasterizer *)

Section Rasterizer_more.
Context `{L : GeoStack}.
Implicit Types (G : gmap string value) (overlaps : list Geom).

Lemma np_iadd_shape (dimensions : Z * Z) (coverage raster : grid) :
  grid_shape_ok dimensions coverage -> grid_shape_ok dimensions raster ->
  grid_shape_ok dimensions (np_iadd coverage raster).
Proof.
  intros [Hc1 Hc2] [Hr1 Hr2]. unfold np_iadd. split.
  - rewrite length_zip_with. lia.
  - eapply Forall_zip_with; [|exact Hc2|exact Hr2].
    intros row row' Hrow Hrow'. simpl in *. rewrite length_zip_with. lia.
Qed.

Lemma zeros_shape (rows cols : Z) :
  grid_shape_ok (rows, cols)
    (replicate (Z.to_nat rows) (replicate (Z.to_nat cols) 0)).
Proof.
  split; simpl.
  - apply length_replicate.
  - apply Forall_replicate, length_replicate.
Qed.

Lemma accumulate_shape `{HL : !GeoLaws L} G dimensions t overlaps
    (coverage g : grid) :
  0 <= fst dimensions -> 0 <= snd dimensions ->
  grid_shape_ok dimensions coverage ->
  accumulate G dimensions t overlaps coverage = Ok g ->
  grid_shape_ok dimensions g.
Proof.
  intros Hr Hc. revert coverage.
  induction overlaps as [|overlap overlaps IH]; simpl; intros coverage Hs H.
  - congruence.
  - destruct (is_empty overlap); simpl in H; [exact (IH _ Hs H)|].
    destruct (global G "rfeatures"); [|discriminate]. simpl in H.
    destruct (global G "sgeom"); [|discriminate]. simpl in H.
    refine (IH _ _ H). apply np_iadd_shape; [exact Hs|].
    apply rasterize_shape; assumption.
Qed.

Lemma accumulate_app G dimensions t overlaps1 overlaps2 (coverage : grid) :
  accumulate G dimensions t (overlaps1 ++ overlaps2) coverage =
    accumulate G dimensions t overlaps1 coverage
      ≫= accumulate G dimensions t overlaps2.
Proof.
  revert coverage. induction overlaps1 as [|overlap overlaps1 IH];
    intros coverage; simpl; [reflexivity|].
  destruct (is_empty overlap); simpl; [apply IH|].
  destruct (global G "rfeatures"); [|reflexivity]. simpl.
  destruct (global G "sgeom"); [|reflexivity]. simpl. apply IH.
Qed.

(** Whether the loop returns does not depend on the array it adds to. *)
Lemma accumulate_returns_any G dimensions t overlaps (coverage coverage' g : grid) :
  accumulate G dimensions t overlaps coverage = Ok g ->
  exists g', accumulate G dimensions t overlaps coverage' = Ok g'.
Proof.
  revert coverage coverage'.
  induction overlaps as [|overlap overlaps IH]; simpl; intros coverage coverage' H.
  - eauto.
  - destruct (is_empty overlap); simpl in *; [exact (IH _ _ H)|].
    destruct (global G "rfeatures"); [|discriminate]. simpl in *.
    destruct (global G "sgeom"); [|discriminate]. simpl in *.
    exact (IH _ _ H).
Qed.

End Rasterizer_more.

(** What a returned grid tells about the call and the namespace. *)
Lemma calculate_coverage_inv `{L : GeoStack} (G : gmap string value)
    (overlaps : list Geom) (rows cols : Z) (bounds : Q * Q * Q * Q) (g : grid) :
  calculate_coverage G overlaps (rows, cols) bounds = Ok g ->
  0 < rows /\ 0 < cols /\ is_Some (G !! "rasterio") /\ is_Some (G !! "np") /\
  accumulate G (rows, cols) (pixel_transform bounds (rows, cols)) overlaps
    (replicate (Z.to_nat rows) (replicate (Z.to_nat cols) 0)) = Ok g.
Proof.
  intros H. pose proof H as H'.
  apply calculate_coverage_returns in H' as (Hr & Hc & Hacc).
  destruct bounds as [[[minx miny] maxx] maxy].
  unfold calculate_coverage, py_truediv, global in H.
  rewrite (proj2 (Z.eqb_neq cols 0)), (proj2 (Z.eqb_neq rows 0)) in H by lia.
  simpl in H.
  destruct (G !! "rasterio") as [r|] eqn:Hrio; [|discriminate]. simpl in H.
  destruct (G !! "np") as [n|] eqn:Hnp; [|discriminate].
  repeat split; eauto.
Qed.

(** A returned grid has the asked number of rows, each of the asked
    number of columns. *)
Theorem calculate_coverage_shape `{L : GeoStack} `{HL : !GeoLaws L}
    (G : gmap string value) (overlaps : list Geom) (dimensions : Z * Z)
    (bounds : Q * Q * Q * Q) (g : grid) :
  calculate_coverage G overlaps dimensions bounds = Ok g ->
  grid_shape_ok dimensions g.
Proof.
  destruct dimensions as [rows cols]. intros H.
  apply calculate_coverage_returns in H as (Hr & Hc & H).
  eapply accumulate_shape; [simpl; lia | simpl; lia | apply zeros_shape | exact H].
Qed.

Lemma calculate_coverage_shape_witness :
  calculate_coverage (after_imports Box.with_both) [Box.meadow; Box.lower_half]
      (6, 3) (bounds Box.meadow)
    = Ok [[1; 1; 1]; [1; 1; 1]; [1; 1; 1]; [2; 2; 2]; [2; 2; 2]; [2; 2; 2]] /\
  grid_shape_ok (6, 3)
    [[1; 1; 1]; [1; 1; 1]; [1; 1; 1]; [2; 2; 2]; [2; 2; 2]; [2; 2; 2]].
Proof.
  assert (H : calculate_coverage (after_imports Box.with_both)
      [Box.meadow; Box.lower_half] (6, 3) (bounds Box.meadow)
    = Ok [[1; 1; 1]; [1; 1; 1]; [1; 1; 1]; [2; 2; 2]; [2; 2; 2]; [2; 2; 2]])
    by (vm_compute; reflexivity).
  split; [exact H|].
  exact (calculate_coverage_shape (L := Box.stack) (HL := box_laws) _ _ _ _ _ H).
Defined.

(** When [calculate_coverage] returns at all: exactly when both counts
    are positive, [rasterio] and [np] are bound, and either no overlap
    is non-empty or [rfeatures] and [sgeom] are bound too. *)
Theorem calculate_coverage_returns_iff `{L : GeoStack}
    (G : gmap string value) (overlaps : list Geom) (rows cols : Z)
    (bounds : Q * Q * Q * Q) :
  (exists g, calculate_coverage G overlaps (rows, cols) bounds = Ok g) <->
  0 < rows /\ 0 < cols /\
  is_Some (G !! "rasterio") /\ is_Some (G !! "np") /\
  (Forall (fun overlap => is_empty overlap = true) overlaps \/
   is_Some (G !! "rfeatures") /\ is_Some (G !! "sgeom")).
Proof.
  split.
  - intros [g H].
    apply calculate_coverage_inv in H as (Hr & Hc & Hrio & Hnp & Hacc).
    repeat split; try assumption.
    revert Hacc. generalize (replicate (Z.to_nat rows) (replicate (Z.to_nat cols) 0)).
    induction overlaps as [|overlap overlaps IH]; simpl; intros coverage Hacc.
    + left. constructor.
    + destruct (is_empty overlap) eqn:He; simpl in Hacc.
      * destruct (IH _ Hacc) as [Hall | Hb]; [left; constructor; assumption | right; exact Hb].
      * right. unfold global in Hacc.
        destruct (G !! "rfeatures"); [|discriminate]. simpl in Hacc.
        destruct (G !! "sgeom"); [|discriminate]. eauto.
  - intros (Hr & Hc & Hrio & Hnp & Hloop).
    rewrite calculate_coverage_loop by assumption.
    destruct Hloop as [Hall | [Hrf Hsg]].
    + eexists. apply accumulate_all_empty, Hall.
    + apply accumulate_bound; assumption.
Qed.

(** A grid with no columns or no rows divides by zero, before any name
    is read; a negative count is refused when the array is allocated. *)
Theorem calculate_coverage_degenerate `{L : GeoStack}
    (G : gmap string value) (overlaps : list Geom) (rows cols : Z)
    (bounds : Q * Q * Q * Q) :
  (rows = 0 \/ cols = 0 ->
     calculate_coverage G overlaps (rows, cols) bounds = Raise ZeroDivisionError) /\
  (rows <> 0 -> cols <> 0 -> rows < 0 \/ cols < 0 ->
     is_Some (G !! "rasterio") -> is_Some (G !! "np") ->
     calculate_coverage G overlaps (rows, cols) bounds =
       Raise (ValueError "negative dimensions are not allowed")).
Proof.
  destruct bounds as [[[minx miny] maxx] maxy].
  unfold calculate_coverage, py_truediv, global, np_zeros. split.
  - intros Hz. destruct (Z.eqb_spec cols 0); [reflexivity|].
    destruct (Z.eqb_spec rows 0); [reflexivity|]. lia.
  - intros Hr Hc Hneg [r Hrio] [n Hnp].
    rewrite (proj2 (Z.eqb_neq cols 0)), (proj2 (Z.eqb_neq rows 0)) by lia.
    simpl. rewrite Hrio, Hnp. simpl.
    destruct (Z.ltb_spec rows 0); [reflexivity|].
    destruct (Z.ltb_spec cols 0); [reflexivity|]. lia.
Qed.

Lemma calculate_coverage_degenerate_witness :
  calculate_coverage (after_imports Box.fresh) [Box.meadow] (0, 3)
      (Box.box_bounds Box.meadow) = Raise ZeroDivisionError /\
  calculate_coverage (after_imports Box.fresh) [Box.meadow] (-2, 3)
      (Box.box_bounds Box.meadow)
    = Raise (ValueError "negative dimensions are not allowed").
Proof.
  destruct (after_imports_modules (L := Box.stack) Box.fresh) as (Hrio & Hnp & _).
  split.
  - apply (calculate_coverage_degenerate (L := Box.stack)). left. reflexivity.
  - apply (calculate_coverage_degenerate (L := Box.stack)); try lia; assumption.
Defined.

Lemma zip_with_swap {A B} (f : A -> B -> A) (c : list A) (a b : list B) :
  (forall x y z, f (f x y) z = f (f x z) y) ->
  zip_with f (zip_with f c a) b = zip_with f (zip_with f c b) a.
Proof.
  intros Hf. revert a b. induction c as [|x c IH]; intros [|y a] [|z b]; simpl;
    try reflexivity. rewrite Hf, IH. reflexivity.
Qed.

(** Two rasters can be added to the array in either order. *)
Lemma np_iadd_swap (coverage r1 r2 : grid) :
  np_iadd (np_iadd coverage r1) r2 = np_iadd (np_iadd coverage r2) r1.
Proof.
  unfold np_iadd. apply zip_with_swap. intros row a b.
  apply zip_with_swap. intros x y z. unfold uint16_add.
  rewrite !Z.add_mod_idemp_l by lia. f_equal. lia.
Qed.

Section Rasterizer_order.
Context `{L : GeoStack}.
Implicit Types (G : gmap string value) (overlaps : list Geom).

Lemma accumulate_permutation G dimensions t overlaps overlaps' :
  Permutation overlaps overlaps' ->
  forall coverage : grid,
    accumulate G dimensions t overlaps coverage =
      accumulate G dimensions t overlaps' coverage.
Proof.
  induction 1 as [| o l l' _ IH | o1 o2 l | l l' l'' _ IH1 _ IH2];
    intros coverage; simpl.
  - reflexivity.
  - destruct (is_empty o); simpl; [apply IH|].
    destruct (global G "rfeatures"); [|reflexivity]. simpl.
    destruct (global G "sgeom"); [|reflexivity]. simpl. apply IH.
  - destruct (is_empty o1), (is_empty o2); simpl; try reflexivity.
    destruct (global G "rfeatures"); [|reflexivity]. simpl.
    destruct (global G "sgeom"); [|reflexivity]. simpl.
    rewrite np_iadd_swap. reflexivity.
  - rewrite IH1. apply IH2.
Qed.

Lemma accumulate_filter G dimensions t overlaps (coverage : grid) :
  accumulate G dimensions t
      (filter (fun overlap => is_empty overlap = false) overlaps) coverage =
    accumulate G dimensions t overlaps coverage.
Proof.
  revert coverage. induction overlaps as [|overlap overlaps IH]; intros coverage;
    [reflexivity|].
  rewrite filter_cons. destruct (is_empty overlap) eqn:He.
  - rewrite decide_False by discriminate. simpl. rewrite He. simpl. apply IH.
  - rewrite decide_True by reflexivity. simpl. rewrite He. simpl.
    destruct (global G "rfeatures"); [|reflexivity]. simpl.
    destruct (global G "sgeom"); [|reflexivity]. simpl. apply IH.
Qed.

Lemma calculate_coverage_congr G overlaps overlaps' (dimensions : Z * Z)
    (bounds : Q * Q * Q * Q) :
  (forall t coverage,
     accumulate G dimensions t overlaps coverage =
       accumulate G dimensions t overlaps' coverage) ->
  calculate_coverage G overlaps dimensions bounds =
    calculate_coverage G overlaps' dimensions bounds.
Proof.
  intros Hacc. destruct bounds as [[[minx miny] maxx] maxy], dimensions as [rows cols].
  unfold calculate_coverage, np_zeros.
  destruct (py_truediv _ cols); simpl; [|reflexivity].
  destruct (py_truediv _ rows); simpl; [|reflexivity].
  destruct (global G "rasterio"); simpl; [|reflexivity].
  destruct (global G "np"); simpl; [|reflexivity].
  destruct ((rows <? 0) || (cols <? 0)); simpl; [reflexivity|].
  apply Hacc.
Qed.

End Rasterizer_order.

(** The order of the overlaps does not matter: a permutation of the
    list gives the same grid, or the same exception. *)
Theorem calculate_coverage_permutation `{L : GeoStack}
    (G : gmap string value) (overlaps overlaps' : list Geom)
    (dimensions : Z * Z) (bounds : Q * Q * Q * Q) :
  Permutation overlaps overlaps' ->
  calculate_coverage G overlaps dimensions bounds =
    calculate_coverage G overlaps' dimensions bounds.
Proof.
  intros Hp. apply calculate_coverage_congr. intros t coverage.
  apply accumulate_permutation, Hp.
Qed.

Lemma calculate_coverage_permutation_witness :
  calculate_coverage (after_imports Box.with_both)
      [Box.meadow; Box.lower_half] (3, 3) (Box.box_bounds Box.meadow) =
  calculate_coverage (after_imports Box.with_both)
      [Box.lower_half; Box.meadow] (3, 3) (Box.box_bounds Box.meadow).
Proof.
  apply (calculate_coverage_permutation (L := Box.stack)). apply perm_swap.
Defined.

(** Empty overlaps count for nothing: dropping them from the list
    changes neither the grid nor the exception. *)
Theorem calculate_coverage_skips_empty `{L : GeoStack}
    (G : gmap string value) (overlaps : list Geom)
    (dimensions : Z * Z) (bounds : Q * Q * Q * Q) :
  calculate_coverage G
      (filter (fun overlap => is_empty overlap = false) overlaps) dimensions bounds =
    calculate_coverage G overlaps dimensions bounds.
Proof.
  apply calculate_coverage_congr. intros t coverage. apply accumulate_filter.
Qed.

Lemma zip_with_assoc {A} (f : A -> A -> A) (c a r : list A) :
  (forall x y z, f (f x y) z = f x (f y z)) ->
  zip_with f (zip_with f c a) r = zip_with f c (zip_with f a r).
Proof.
  intros Hf. revert a r. induction c as [|x c IH]; intros [|y a] [|z r]; simpl;
    try reflexivity. rewrite Hf, IH. reflexivity.
Qed.

Lemma np_iadd_assoc (c a r : grid) :
  np_iadd (np_iadd c a) r = np_iadd c (np_iadd a r).
Proof.
  unfold np_iadd. apply zip_with_assoc. intros x y z.
  apply zip_with_assoc. intros u v w. unfold uint16_add.
  rewrite Z.add_mod_idemp_l, Z.add_mod_idemp_r by lia. f_equal. lia.
Qed.

Lemma zip_with_replicate_id {A B} (f : A -> B -> A) (l : list A) (n : nat) (z : B) :
  length l = n -> Forall (fun x => f x z = x) l ->
  zip_with f l (replicate n z) = l.
Proof.
  intros <- Hl. induction Hl as [|x l Hx _ IH]; simpl; [reflexivity|].
  rewrite Hx, IH. reflexivity.
Qed.

(** Adding the array of zeros changes nothing in a [uint16] array of
    the same shape. *)
Lemma np_iadd_zeros (rows cols : Z) (c : grid) :
  grid_shape_ok (rows, cols) c -> all_cells (fun x => 0 <= x < 65536) c ->
  np_iadd c (replicate (Z.to_nat rows) (replicate (Z.to_nat cols) 0)) = c.
Proof.
  intros [Hlen Hrows] Hcells. unfold np_iadd, all_cells in *. simpl in *.
  apply zip_with_replicate_id; [exact Hlen|].
  apply Forall_forall. intros row Hin.
  rewrite Forall_forall in Hrows, Hcells.
  apply zip_with_replicate_id; [apply Hrows, Hin|].
  eapply Forall_impl; [apply Hcells, Hin|]. intros x Hx. simpl in *.
  unfold uint16_add. rewrite Z.add_0_r. apply Z.mod_small, Hx.
Qed.

Lemma grid_mod_range (g : grid) :
  all_cells (fun x => 0 <= x < 65536) (grid_mod g).
Proof.
  unfold grid_mod, all_cells. apply Forall_fmap, Forall_forall. intros row _.
  simpl. apply Forall_fmap, Forall_forall. intros x _. simpl.
  apply Z.mod_pos_bound. lia.
Qed.

Section Rasterizer_merge.
Context `{L : GeoStack}.
Implicit Types (G : gmap string value) (overlaps : list Geom).

(** Starting the loop from [c + a] instead of [a] adds [c] to what it
    returns. *)
Lemma accumulate_offset G dimensions t overlaps (c a g : grid) :
  accumulate G dimensions t overlaps a = Ok g ->
  accumulate G dimensions t overlaps (np_iadd c a) = Ok (np_iadd c g).
Proof.
  revert a. induction overlaps as [|overlap overlaps IH]; simpl; intros a H.
  - congruence.
  - destruct (is_empty overlap); simpl in *; [exact (IH _ H)|].
    destruct (global G "rfeatures"); [|discriminate]. simpl in *.
    destruct (global G "sgeom"); [|discriminate]. simpl in *.
    rewrite np_iadd_assoc. exact (IH _ H).
Qed.

End Rasterizer_merge.

(** Partial grids merge: the grid of two lists put end to end is the
    [uint16] sum of the grids of the two lists. *)
Theorem calculate_coverage_merge `{L : GeoStack} `{HL : !GeoLaws L}
    (G : gmap string value) (overlaps1 overlaps2 : list Geom)
    (dimensions : Z * Z) (bounds : Q * Q * Q * Q) (g1 g2 : grid) :
  calculate_coverage G overlaps1 dimensions bounds = Ok g1 ->
  calculate_coverage G overlaps2 dimensions bounds = Ok g2 ->
  calculate_coverage G (overlaps1 ++ overlaps2) dimensions bounds =
    Ok (np_iadd g1 g2).
Proof.
  destruct dimensions as [rows cols]. intros H1 H2.
  assert (Hrange : all_cells (fun x => 0 <= x < 65536) g1).
  { rewrite (calculate_coverage_exact _ _ _ _ _ H1). apply grid_mod_range. }
  apply calculate_coverage_inv in H1 as (Hr & Hc & Hrio & Hnp & Hacc1).
  apply calculate_coverage_inv in H2 as (_ & _ & _ & _ & Hacc2).
  rewrite calculate_coverage_loop by assumption.
  rewrite accumulate_app, Hacc1. simpl.
  assert (Hshape : grid_shape_ok (rows, cols) g1).
  { eapply accumulate_shape; [simpl; lia | simpl; lia | apply zeros_shape | exact Hacc1]. }
  rewrite <- (np_iadd_zeros rows cols g1 Hshape Hrange) at 1.
  apply accumulate_offset, Hacc2.
Qed.

Lemma calculate_coverage_merge_witness :
  calculate_coverage (after_imports Box.with_both)
      ([Box.meadow] ++ [Box.lower_half; Box.meadow]) (3, 3)
      (Box.box_bounds Box.meadow)
    = Ok (np_iadd [[1; 1; 1]; [1; 1; 1]; [1; 1; 1]]
                  [[1; 1; 1]; [1; 1; 1]; [2; 2; 2]]).
Proof.
  apply (calculate_coverage_merge (L := Box.stack) (HL := box_laws));
    vm_compute; reflexivity.
Defined.

Lemma accumulate_copies_wrap `{L : GeoStack} (G : gmap string value)
    (rows cols : Z) (t : Affine) (overlap : Geom) (n : nat) (k : Z) :
  is_Some (G !! "rfeatures") -> is_Some (G !! "sgeom") ->
  is_empty overlap = false ->
  rasterize [mapping overlap] 0 1 (rows, cols) t =
    replicate (Z.to_nat rows) (replicate (Z.to_nat cols) 1) ->
  accumulate G (rows, cols) t (replicate n overlap)
      (replicate (Z.to_nat rows) (replicate (Z.to_nat cols) (k mod 65536)))
    = Ok (replicate (Z.to_nat rows)
            (replicate (Z.to_nat cols) ((k + Z.of_nat n) mod 65536))).
Proof.
  intros [m Hm] [s Hs] He Hones. revert k.
  induction n as [|n IH]; intros k; simpl.
  - rewrite Z.add_0_r. reflexivity.
  - rewrite He. simpl. unfold global. rewrite Hm, Hs. simpl.
    rewrite Hones, np_iadd_constant. unfold uint16_add.
    rewrite Z.add_mod_idemp_l by lia. rewrite IH. do 4 f_equal. lia.
Qed.

(** Counting wraps around: any number N of copies of a non-empty
    overlap whose raster marks every cell gives N modulo 2^16 in every
    cell. *)
Theorem calculate_coverage_copies_wrap `{L : GeoStack}
    (G : gmap string value) (rows cols : Z) (bounds : Q * Q * Q * Q)
    (overlap : Geom) (N : nat) :
  0 < rows -> 0 < cols ->
  is_Some (G !! "rasterio") -> is_Some (G !! "np") ->
  is_Some (G !! "rfeatures") -> is_Some (G !! "sgeom") ->
  is_empty overlap = false ->
  rasterize [mapping overlap] 0 1 (rows, cols)
      (pixel_transform bounds (rows, cols)) =
    replicate (Z.to_nat rows) (replicate (Z.to_nat cols) 1) ->
  calculate_coverage G (replicate N overlap) (rows, cols) bounds =
    Ok (replicate (Z.to_nat rows)
          (replicate (Z.to_nat cols) (Z.of_nat N mod 65536))).
Proof.
  intros Hr Hc Hrio Hnp Hrf Hsg He Hones.
  rewrite calculate_coverage_loop by assumption.
  apply (accumulate_copies_wrap G rows cols _ overlap N 0); assumption.
Qed.

(** 70000 copies of the meadow on one cell: 70000 - 65536 = 4464. *)
Lemma calculate_coverage_copies_wrap_witness :
  calculate_coverage (after_imports Box.with_both)
      (replicate (Z.to_nat 70000) Box.meadow) (1, 1) (Box.box_bounds Box.meadow)
    = Ok [[4464]].
Proof.
  destruct (after_imports_modules (L := Box.stack) Box.with_both)
    as (Hrio & Hnp & Hrf).
  etransitivity.
  - apply (calculate_coverage_copies_wrap (L := Box.stack)
             (after_imports Box.with_both) 1 1 (Box.box_bounds Box.meadow)
             Box.meadow (Z.to_nat 70000)); try assumption.
    + reflexivity.
    + reflexivity.
    + rewrite after_imports_sgeom. exists (VModule "shapely.geometry").
      vm_compute; reflexivity.
    + vm_compute; reflexivity.
    + vm_compute; reflexivity.
  - vm_compute. reflexivity.
Defined.

(** ** The run of the notebook *)

Lemma run_fresh_kernel_witness :
  exists k,
    run_all (C := Box.fixed_catalog []) Box.cary Box.fresh
      = (k, Aborted 3 (NameError "data_filter")) /\ outputs k = [].
Proof.
  apply (run_fresh_kernel (L := Box.stack) (C := Box.fixed_catalog [])
           Box.cary Box.fresh).
  reflexivity.
Defined.

(** No cell binds [data_filter] or [sgeom]: after a run, however it
    ended, each is bound to what it was bound before, or still unbound. *)
Theorem notebook_never_binds_missing_names `{L : GeoStack} `{C : !Catalog}
    (aoi : GeoJSON) (G : gmap string value) :
  globals (fst (run_all aoi G)) !! "data_filter" = G !! "data_filter" /\
  globals (fst (run_all aoi G)) !! "sgeom" = G !! "sgeom".
Proof. split; apply run_all_untouched; auto. Qed.

(** One cell of the run at a time: the cell is unfolded on the kernel
    it starts in, and the run goes on from the kernel it leaves. *)
Ltac cell_step :=
  lazymatch goal with
  | |- context [run_cells (?c :: ?rest) ?n ?k] =>
      let r := eval cbv beta iota zeta delta
        [cell_imports cell_aoi cell_request cell_show_request
         cell_project cell_dimensions cell_auth cell_search cell_show_items
         cell_overlaps cell_show_overlap cell_coverage_lowres cell_plot cell_demo_aoi
         cell_search_2016 cell_plot_2016 cell_search_2017 cell_plot_2017
         cell_search_year run_search cache_overlaps call_calculate_coverage
         plot_overlaps plot_coverage open_client import_all notebook_imports
         assign read emit lift namespace global
         read_geojson read_shape read_filter read_strings read_partial
         read_dimensions read_items read_shapes
         mbind mret K_bind K_ret fst snd globals outputs] in (c k) in
      change (run_cells (c :: rest) n k) with
        (match r with
         | (k', Ok _) => run_cells rest (S n) k'
         | (k', Raise e) => (k', Aborted n e)
         end)
  | |- context [run_cells [] ?n ?k] =>
      change (run_cells [] n k) with (k, Completed)
  end.

(** Runs the cells, using [known] wherever a cell waits for a fact. *)
Ltac run_cells_with known :=
  unfold run_all, notebook;
  repeat (first [ known | cell_step ]; cbv beta iota; lookup_globals).

Section Runs.
Context `{L : GeoStack} `{C : !Catalog}.

(** A failure of the catalog is not caught: the run stops at the cell
    of the call with the exception the service raised. *)
Theorem catalog_failure_stops_run (aoi : GeoJSON) (G : gmap string value)
    (e : pyerr) :
  is_Some (G !! "data_filter") ->
  (service_create_search "calc_coverage_search" (first_filter aoi) ["PSScene"]
     = Raise e ->
   snd (run_all aoi G) = Aborted 3 e) /\
  (forall request d,
     service_create_search "calc_coverage_search" (first_filter aoi) ["PSScene"]
       = Ok request ->
     get_coverage_dimensions (aoi_utm aoi) = Ok d ->
     cl_search "calc_coverage_search" (first_filter aoi) ["PSScene"] 500 = Raise e ->
     snd (run_all aoi G) = Aborted 8 e).
Proof.
  intros [df Hdf]. unfold first_filter, aoi_utm.
  split.
  - intros Hs. run_cells_with ltac:(first [rewrite Hdf | rewrite Hs]).
    reflexivity.
  - intros request d Hs Hd Hsearch.
    run_cells_with ltac:(first [rewrite Hdf | rewrite Hs | rewrite Hd | rewrite Hsearch]).
    reflexivity.
Qed.

(** A search that matches nothing stops the run at cell 11: the first
    overlap of an empty list is asked for.  No grid has been shown. *)
Theorem empty_search_stops_run (aoi : GeoJSON) (G : gmap string value)
    (request : search_request) (d : Z * Z) :
  is_Some (G !! "data_filter") ->
  service_create_search "calc_coverage_search" (first_filter aoi) ["PSScene"]
    = Ok request ->
  get_coverage_dimensions (aoi_utm aoi) = Ok d ->
  cl_search "calc_coverage_search" (first_filter aoi) ["PSScene"] 500 = Ok [] ->
  snd (run_all aoi G) = Aborted 11 IndexError /\
  grids_shown (outputs (fst (run_all aoi G))) = [].
Proof.
  intros [df Hdf] Hs Hd Hsearch. unfold first_filter, aoi_utm in *.
  run_cells_with ltac:(first [rewrite Hdf | rewrite Hs | rewrite Hd | rewrite Hsearch]).
  split; reflexivity.
Qed.

(** With [sgeom] unbound, a search that matches an item whose overlap
    with the AOI is not empty stops the run at cell 12, the first call
    of [calculate_coverage], with [NameError]: no grid is ever shown. *)
Theorem nonempty_overlap_stops_run (aoi : GeoJSON) (G : gmap string value)
    (request : search_request) (d : Z * Z) (items : list Item) :
  is_Some (G !! "data_filter") -> G !! "sgeom" = None ->
  service_create_search "calc_coverage_search" (first_filter aoi) ["PSScene"]
    = Ok request ->
  get_coverage_dimensions (aoi_utm aoi) = Ok d ->
  cl_search "calc_coverage_search" (first_filter aoi) ["PSScene"] 500 = Ok items ->
  Exists (fun overlap => is_empty overlap = false)
    (get_overlap_shapes_utm items (shape aoi)) ->
  snd (run_all aoi G) = Aborted 12 (NameError "sgeom") /\
  grids_shown (outputs (fst (run_all aoi G))) = [].
Proof.
  intros [df Hdf] Hsg Hs Hd Hsearch Hex. unfold first_filter, aoi_utm in *.
  destruct (get_overlap_shapes_utm items (shape aoi)) as [|first rest] eqn:Ho.
  { apply Exists_nil in Hex. destruct Hex. }
  run_cells_with ltac:(first
    [ rewrite Hdf | rewrite Hs | rewrite Hd | rewrite Hsearch | rewrite Ho
    | match goal with
      | |- context [calculate_coverage ?m ?o ?dims ?b] =>
          let Hcc := fresh in
          assert (Hcc : calculate_coverage m o dims b = Raise (NameError "sgeom"));
          [ rewrite calculate_coverage_loop;
              [| lia | lia | lookup_globals; eauto | lookup_globals; eauto];
            apply accumulate_name_error;
              [lookup_globals; exact Hsg | lookup_globals; eauto | exact Hex]
          | rewrite Hcc; clear Hcc ]
      end ]).
  split; reflexivity.
Qed.

End Runs.

Lemma catalog_failure_stops_run_witness :
  snd (run_all (C := {| service_create_search := fun _ _ _ =>
                          Raise (CollaboratorError "401 Unauthorized");
                        service_search := fun _ _ _ => Ok [] |})
         Box.cary Box.with_data_filter)
    = Aborted 3 (CollaboratorError "401 Unauthorized").
Proof.
  apply (catalog_failure_stops_run (L := Box.stack)).
  - exists (VModule "planet.data_filter"). vm_compute; reflexivity.
  - reflexivity.
Defined.

Lemma empty_search_stops_run_witness :
  snd (run_all (C := Box.fixed_catalog []) Box.square27 Box.with_data_filter)
    = Aborted 11 IndexError /\
  grids_shown (outputs (fst (run_all (C := Box.fixed_catalog []) Box.square27
                               Box.with_data_filter))) = [].
Proof.
  eapply (empty_search_stops_run (L := Box.stack) (C := Box.fixed_catalog [])
            Box.square27 Box.with_data_filter _ (3, 3)).
  - exists (VModule "planet.data_filter"). vm_compute; reflexivity.
  - reflexivity.
  - vm_compute; reflexivity.
  - reflexivity.
Defined.

Lemma nonempty_overlap_stops_run_witness :
  let items := [ {| item_id := "full"; item_geometry := Box.square27 |} ] in
  snd (run_all (C := Box.fixed_catalog items) Box.square27 Box.with_data_filter)
    = Aborted 12 (NameError "sgeom") /\
  grids_shown (outputs (fst (run_all (C := Box.fixed_catalog items) Box.square27
                               Box.with_data_filter))) = [].
Proof.
  intros items.
  eapply (nonempty_overlap_stops_run (L := Box.stack)
            (C := Box.fixed_catalog items)
            Box.square27 Box.with_data_filter _ (3, 3) items).
  - exists (VModule "planet.data_filter"). vm_compute; reflexivity.
  - reflexivity.
  - reflexivity.
  - vm_compute; reflexivity.
  - reflexivity.
  - apply Exists_cons_hd. vm_compute; reflexivity.
Defined.

(** ** The numbers on the figure *)

Lemma foldl_min_init (l : list Z) (a : Z) : foldl Z.min a l <= a.
Proof.
  revert a. induction l as [|z l IH]; intros a; simpl; [lia|].
  transitivity (Z.min a z); [apply IH | lia].
Qed.

Lemma foldl_max_init (l : list Z) (a : Z) : a <= foldl Z.max a l.
Proof.
  revert a. induction l as [|z l IH]; intros a; simpl; [lia|].
  transitivity (Z.max a z); [lia | apply IH].
Qed.

Lemma foldl_min_le (l : list Z) (x y : Z) :
  y ∈ x :: l -> foldl Z.min x l <= y.
Proof.
  revert x. induction l as [|z l IH]; intros x Hy.
  - apply list_elem_of_singleton in Hy. simpl. lia.
  - simpl. apply elem_of_cons in Hy as [Hy | Hy].
    + pose proof (foldl_min_init l (Z.min x z)). lia.
    + apply elem_of_cons in Hy as [Hy | Hy].
      * pose proof (foldl_min_init l (Z.min x z)). lia.
      * apply IH, list_elem_of_further, Hy.
Qed.

Lemma foldl_max_ge (l : list Z) (x y : Z) :
  y ∈ x :: l -> y <= foldl Z.max x l.
Proof.
  revert x. induction l as [|z l IH]; intros x Hy.
  - apply list_elem_of_singleton in Hy. simpl. lia.
  - simpl. apply elem_of_cons in Hy as [Hy | Hy].
    + pose proof (foldl_max_init l (Z.max x z)). lia.
    + apply elem_of_cons in Hy as [Hy | Hy].
      * pose proof (foldl_max_init l (Z.max x z)). lia.
      * apply IH, list_elem_of_further, Hy.
Qed.

Lemma foldl_min_ge (l : list Z) (x c : Z) :
  Forall (fun v => c <= v) (x :: l) -> c <= foldl Z.min x l.
Proof.
  revert x. induction l as [|z l IH]; intros x Hall; simpl.
  - apply Forall_inv in Hall. exact Hall.
  - apply IH. inversion Hall as [|? ? Hx Hrest]; subst.
    inversion Hrest as [|? ? Hz Hl]; subst. constructor; [lia | exact Hl].
Qed.

Lemma py_int_inject_Z (c : Z) : py_int (inject_Z c) = c.
Proof. unfold py_int. simpl. apply Z.quot_1_r. Qed.

(** The median of values that all lie in a range of non-negative
    integers, truncated, lies in the range. *)
Lemma np_median_between (values : list Z) (lo hi : Z) :
  values <> [] -> 0 <= lo ->
  Forall (fun v => lo <= v <= hi) values ->
  exists m, np_median values = Some m /\ lo <= py_int m <= hi.
Proof.
  intros Hne Hlo Hall. unfold np_median.
  pose proof (merge_sort_Permutation Z.le values) as Hperm.
  set (sorted := merge_sort Z.le values) in *.
  assert (Hlen : length sorted <> 0%nat).
  { rewrite Hperm. destruct values; [congruence | simpl; lia]. }
  assert (Hin : forall i v, sorted !! i = Some v -> lo <= v <= hi).
  { intros i v Hv. rewrite Forall_forall in Hall. apply Hall.
    rewrite <- Hperm. eapply list_elem_of_lookup_2, Hv. }
  destruct (Nat.eqb_spec (length sorted) 0); [contradiction|].
  destruct (Nat.even (length sorted)) eqn:Heven.
  - assert (H2 : (2 <= length sorted)%nat).
    { destruct (length sorted) as [|[|n']]; [lia | discriminate | lia]. }
    pose proof (Nat.div_lt (length sorted) 2 ltac:(lia) ltac:(lia)) as Hhalf.
    destruct (lookup_lt_is_Some_2 sorted (length sorted / 2 - 1)) as [a Ha]; [lia|].
    destruct (lookup_lt_is_Some_2 sorted (length sorted / 2)) as [b Hb]; [lia|].
    rewrite Ha, Hb. simpl. eexists. split; [reflexivity|].
    pose proof (Hin _ _ Ha) as Hac. pose proof (Hin _ _ Hb) as Hbc.
    set (m := ((inject_Z a + inject_Z b) / 2)%Q).
    assert (Hm : (inject_Z a + inject_Z b == 2 * m)%Q).
    { unfold m. rewrite Qmult_div_r; [reflexivity | discriminate]. }
    assert (Hqa : (inject_Z lo <= inject_Z a)%Q /\ (inject_Z a <= inject_Z hi)%Q)
      by (rewrite <- !Zle_Qle; lia).
    assert (Hqb : (inject_Z lo <= inject_Z b)%Q /\ (inject_Z b <= inject_Z hi)%Q)
      by (rewrite <- !Zle_Qle; lia).
    assert (Hq0 : (0 <= inject_Z lo)%Q)
      by (change 0%Q with (inject_Z 0); rewrite <- Zle_Qle; lia).
    rewrite py_int_floor by lra.
    assert (Hlom : (inject_Z lo <= m)%Q) by lra.
    assert (Hhim : (m < inject_Z (hi + 1))%Q).
    { rewrite inject_Z_plus. change (inject_Z 1) with 1%Q. lra. }
    pose proof (Qfloor_bounds m lo (hi + 1) Hlom Hhim). lia.
  - pose proof (Nat.div_lt (length sorted) 2 ltac:(lia) ltac:(lia)) as Hhalf.
    destruct (lookup_lt_is_Some_2 sorted (length sorted / 2)) as [c Hc]; [lia|].
    rewrite Hc. simpl. eexists. split; [reflexivity|].
    rewrite py_int_inject_Z. exact (Hin _ _ Hc).
Qed.

(** On a grid with at least one cell, the median shown in the title
    lies between the two ticks of the colour bar, and so does every
    cell. *)
Theorem plot_numbers_consistent (coverage : grid) :
  all_cells (fun c => 0 <= c) coverage -> concat coverage <> [] ->
  exists m lo hi,
    title_median coverage = Ok m /\ colorbar_ticks coverage = Ok (lo, hi) /\
    lo <= m <= hi /\ all_cells (fun c => lo <= c <= hi) coverage.
Proof.
  intros Hnn Hne. unfold title_median, colorbar_ticks.
  assert (Hflat : Forall (fun c => 0 <= c) (concat coverage)).
  { apply List.Forall_concat, Hnn. }
  destruct (concat coverage) as [|x rest] eqn:Hc; [congruence|].
  set (lo := foldl Z.min x rest). set (hi := foldl Z.max x rest).
  assert (Hrange : Forall (fun v => lo <= v <= hi) (x :: rest)).
  { apply Forall_forall. intros v Hv. split;
      [apply foldl_min_le | apply foldl_max_ge]; exact Hv. }
  assert (Hlo : 0 <= lo) by (apply foldl_min_ge, Hflat).
  destruct (np_median_between (x :: rest) lo hi ltac:(discriminate) Hlo Hrange)
    as (m & -> & Hm).
  exists (py_int m), lo, hi. repeat split; try apply Hm.
  unfold all_cells. apply Forall_forall. intros row Hrow.
  apply Forall_forall. intros c Hcell.
  rewrite Forall_forall in Hrange. apply Hrange. rewrite <- Hc.
  apply list_elem_of_In, in_concat. exists row.
  split; apply list_elem_of_In; assumption.
Qed.

Lemma plot_numbers_consistent_witness :
  exists m lo hi,
    title_median [[1; 1; 1]; [1; 1; 1]; [2; 2; 2]] = Ok m /\
    colorbar_ticks [[1; 1; 1]; [1; 1; 1]; [2; 2; 2]] = Ok (lo, hi) /\
    lo <= m <= hi /\
    all_cells (fun c => lo <= c <= hi) [[1; 1; 1]; [1; 1; 1]; [2; 2; 2]].
Proof.
  apply plot_numbers_consistent.
  - repeat constructor; lia.
  - discriminate.
Defined.

Section Complete_run.
Context `{L : GeoStack} `{C : !Catalog}.

Lemma get_coverage_dimensions_positive (g : Geom) (d : Z * Z) :
  get_coverage_dimensions g = Ok d -> 0 < fst d /\ 0 < snd d.
Proof.
  destruct (bounds g) as [[[minx miny] maxx] maxy] eqn:Hb.
  destruct (Qlt_le_dec (maxy - miny) 27) as [Hh | Hh].
  { intros H. pose proof (get_coverage_dimensions_small g _ _ _ _ Hb (or_introl Hh)) as He.
    rewrite H in He. destruct He. }
  destruct (Qlt_le_dec (maxx - minx) 27) as [Hw | Hw].
  { intros H. pose proof (get_coverage_dimensions_small g _ _ _ _ Hb (or_intror Hw)) as He.
    rewrite H in He. destruct He. }
  rewrite (get_coverage_dimensions_large g _ _ _ _ Hb Hh Hw). intros H.
  assert (Hd : d = (Z.min (Qfloor ((maxy - miny) / 9)) 3000,
                    Z.min (Qfloor ((maxx - minx) / 9)) 3000)) by congruence.
  destruct (dim_floor _ Hh) as [_ ?]. destruct (dim_floor _ Hw) as [_ ?].
  rewrite Hd. cbn [fst snd]. lia.
Qed.

(** In a namespace where the four names are bound the coverage of any
    list is computed, on any grid with positive counts. *)
Lemma calculate_coverage_total (G : gmap string value) (overlaps : list Geom)
    (d : Z * Z) (b : Q * Q * Q * Q) :
  0 < fst d -> 0 < snd d ->
  is_Some (G !! "rasterio") -> is_Some (G !! "np") ->
  is_Some (G !! "rfeatures") -> is_Some (G !! "sgeom") ->
  exists g, calculate_coverage G overlaps d b = Ok g.
Proof.
  destruct d as [rows cols]. simpl. intros.
  rewrite calculate_coverage_loop by assumption.
  apply accumulate_bound; assumption.
Qed.

(** With [data_filter] and [sgeom] bound, an AOI the sizer accepts, a
    catalog that answers, and a first search that matches something,
    the run completes and shows four grids: the coverage of the first
    search on 6 by 3 cells and on the sized grid, and the coverage of
    the searches of 2016 and 2017 on the sized grid. *)
Theorem run_shows_coverage (aoi : GeoJSON) (G : gmap string value)
    (request : search_request) (d : Z * Z) (item : Item)
    (items items_2016 items_2017 : list Item) :
  is_Some (G !! "data_filter") -> is_Some (G !! "sgeom") ->
  service_create_search "calc_coverage_search" (first_filter aoi) ["PSScene"]
    = Ok request ->
  get_coverage_dimensions (aoi_utm aoi) = Ok d ->
  cl_search "calc_coverage_search" (first_filter aoi) ["PSScene"] 500
    = Ok (item :: items) ->
  cl_search "calc_coverage_search_2016" (year_filter aoi 2016) ["PSScene"] 500
    = Ok items_2016 ->
  cl_search "calc_coverage_search_2017" (year_filter aoi 2017) ["PSScene"] 500
    = Ok items_2017 ->
  let coverage (l : list Item) (dimensions : Z * Z) :=
    calculate_coverage (after_imports G) (get_overlap_shapes_utm l (shape aoi))
      dimensions (bounds (aoi_utm aoi)) in
  snd (run_all aoi G) = Completed /\
  Ok <$> grids_shown (outputs (fst (run_all aoi G))) =
    [ coverage (item :: items) (6, 3); coverage (item :: items) d;
      coverage items_2016 d; coverage items_2017 d ].
Proof.
  intros [df Hdf] Hsg Hs Hd Hsearch H16 H17 coverage.
  pose proof (get_coverage_dimensions_positive _ _ Hd) as [Hd1 Hd2].
  destruct (after_imports_lookup G) as (Hrio & Hnp & Hrf & Hsgeom & _).
  assert (Hcov : forall l dims, 0 < fst dims -> 0 < snd dims ->
            exists g, coverage l dims = Ok g).
  { intros l dims H1 H2. apply calculate_coverage_total; try assumption.
    - rewrite Hrio; eauto.
    - rewrite Hnp; eauto.
    - rewrite Hrf; eauto.
    - rewrite Hsgeom; exact Hsg. }
  destruct (Hcov (item :: items) (6, 3) ltac:(simpl; lia) ltac:(simpl; lia)) as [g0 Hg0].
  destruct (Hcov (item :: items) d Hd1 Hd2) as [g1 Hg1].
  destruct (Hcov items_2016 d Hd1 Hd2) as [g2 Hg2].
  destruct (Hcov items_2017 d Hd1 Hd2) as [g3 Hg3].
  rewrite Hg0, Hg1, Hg2, Hg3.
  unfold coverage, first_filter, year_filter, aoi_utm in *.
  unfold run_all, notebook.
  destruct (get_overlap_shapes_utm (item :: items) (shape aoi))
    as [|first rest] eqn:Hov; [discriminate Hov|].
  repeat
    (first
       [ rewrite Hdf | rewrite Hs | rewrite Hd | rewrite Hsearch | rewrite Hov
       | rewrite H16 | rewrite H17
       | match goal with
         | |- context [calculate_coverage ?m ?o ?dims ?b] =>
             let H := fresh in
             assert (H : calculate_coverage m o dims b =
                         calculate_coverage (after_imports G) o dims b);
             [ apply calculate_coverage_ext; lookup_globals;
               [rewrite Hrio | rewrite Hnp | rewrite Hrf | rewrite Hsgeom];
               reflexivity
             | rewrite H; clear H ];
             first [rewrite Hg0 | rewrite Hg1 | rewrite Hg2 | rewrite Hg3]
         end
       | cell_step ];
     cbv beta iota; lookup_globals).
  split; reflexivity.
Qed.
End Complete_run.

Lemma run_shows_coverage_witness :
  let item := {| item_id := "full"; item_geometry := Box.square27 |} in
  let half := {| item_id := "half";
                 item_geometry := {| Box.x0 := 0; Box.y0 := 0;
                                     Box.x1 := 0.00027; Box.y1 := 0.00013 |} |} in
  let run := run_all (C := Box.fixed_catalog [item; half]) Box.square27
               Box.with_both in
  let coverage (dimensions : Z * Z) :=
    calculate_coverage (after_imports Box.with_both)
      (get_overlap_shapes_utm [item; half] (shape Box.square27))
      dimensions (bounds (aoi_utm Box.square27)) in
  snd run = Completed /\
  Ok <$> grids_shown (outputs (fst run)) =
    [ coverage (6, 3); coverage (3, 3); coverage (3, 3); coverage (3, 3) ].
Proof.
  intros item half run coverage.
  eapply (run_shows_coverage (L := Box.stack) (C := Box.fixed_catalog [item; half])
            Box.square27 Box.with_both _
            (3, 3) item [half] [item; half] [item; half]).
  - exists (VModule "planet.data_filter"). vm_compute; reflexivity.
  - exists (VModule "shapely.geometry"). vm_compute; reflexivity.
  - reflexivity.
  - vm_compute; reflexivity.
  - reflexivity.
  - reflexivity.
  - reflexivity.
Defined.

